(** * The Ethereum event plugin: a shallow embedding of [src/index.ts]

    The plugin polls an Ethereum node once a minute, decodes the logs of one
    contract against its ABI, rewrites the decoded arguments according to an
    optional table of parsing instructions and hands one record per log to
    PostHog.  This development embeds

    - the numeric string conversions of ethers v5 the plugin calls
      ([BigNumber.from], [toHexString], [toNumber], [formatEther]),
    - the JavaScript objects the plugin builds (insertion-ordered records),
    - [parseLog] and [runEveryMinute] as a state-and-exception monad over an
      abstract outside world,

    and states the properties of the specification over them. *)

From Stdlib Require Import ZArith NArith List String Ascii Bool Lia.
Import ListNotations.

Set Implicit Arguments.

(* ================================================================== *)
(** * Positional numerals *)
(* ================================================================== *)

(** BN.js prints a number in a radix with lower-case digits and reads digits
    of either case.  Numerals are lists of characters, most significant digit
    first. *)
Module Radix.
Local Open Scope N_scope.

Definition digitChar (d : N) : ascii :=
  if d <? 10 then ascii_of_N (48 + d) else ascii_of_N (87 + d).

Definition digitValue (c : ascii) : option N :=
  let k := N_of_ascii c in
  if (48 <=? k) && (k <=? 57) then Some (k - 48)
  else if (97 <=? k) && (k <=? 102) then Some (k - 87)
  else if (65 <=? k) && (k <=? 70) then Some (k - 55)
  else None.

(** [isDigit radix c]: [c] is a digit of the radix. *)
Definition isDigit (radix : N) (c : ascii) : bool :=
  match digitValue c with
  | Some d => d <? radix
  | None => false
  end.

Fixpoint toDigitsFuel (fuel : nat) (radix n : N) : list ascii :=
  match fuel with
  | O => []
  | S fuel' =>
      if n <? radix then [digitChar n]
      else toDigitsFuel fuel' radix (n / radix) ++ [digitChar (n mod radix)]
  end.

(** The number of binary digits of [n] bounds the number of its digits in
    any radix, so it is enough fuel ([toDigits_eqn] below). *)
Definition toDigits (radix n : N) : list ascii :=
  toDigitsFuel (S (N.to_nat (N.size n))) radix n.

Fixpoint parseDigitsAcc (radix : N) (s : list ascii) (acc : N) : option N :=
  match s with
  | [] => Some acc
  | c :: s' =>
      match digitValue c with
      | Some d => if d <? radix then parseDigitsAcc radix s' (acc * radix + d) else None
      | None => None
      end
  end.

(** One digit at least: the regular expressions of ethers ask for [+]. *)
Definition parseDigits (radix : N) (s : list ascii) : option N :=
  match s with
  | [] => None
  | _ => parseDigitsAcc radix s 0
  end.

End Radix.

(* ================================================================== *)
(** * JavaScript values, exceptions and objects *)
(* ================================================================== *)

Module Js.

(** The values a decoded event argument or a record field holds.  A
    JavaScript number is kept as the integer it holds (block numbers,
    timestamps, the small [uintN] ethers decodes to numbers); a [BigNumber]
    is the ethers object; an array- or tuple-typed argument is decoded to an
    array of such values. *)
#[warnings="-register-all"]
Inductive Value : Type :=
| VUndefined
| VBoolean (b : bool)
| VNumber (z : Z)
| VString (s : string)
| VBigNumber (z : Z)
| VArray (items : list Value).

(** What can be thrown. *)
Inductive Exn : Type :=
| TypeError (msg : string)          (* raised by the language itself *)
| EthersError (code : string)       (* raised by an ethers function *)
| ExternalError (msg : string).     (* raised by the node or by the sink *)

Definition Result (A : Type) : Type := (Exn + A)%type.

(** A plain object: own enumerable string keys in insertion order.
    Assigning to a key that exists keeps its place. *)
Definition Obj (A : Type) : Type := list (string * A).

Section Objects.
Variable A : Type.

Fixpoint obj_get (k : string) (o : Obj A) : option A :=
  match o with
  | [] => None
  | (k', v) :: o' => if String.eqb k k' then Some v else obj_get k o'
  end.

Fixpoint obj_set (k : string) (v : A) (o : Obj A) : Obj A :=
  match o with
  | [] => [(k, v)]
  | (k', v') :: o' =>
      if String.eqb k k' then (k', v) :: o' else (k', v') :: obj_set k v o'
  end.

(** [Object.keys] *)
Definition obj_keys (o : Obj A) : list string := map fst o.

(** Whether the object owns the key ([hasOwnProperty]).  The [in] operator
    also sees what the object inherits: where the plugin uses it on the table
    of instructions, [buildEventData] goes on to the inherited properties. *)
Definition obj_has (k : string) (o : Obj A) : bool :=
  match obj_get k o with Some _ => true | None => false end.

(** [{ ...o, ...src }]: the entries of [src] assigned onto [o] in order. *)
Definition obj_spread (o src : Obj A) : Obj A :=
  fold_left (fun acc kv => obj_set (fst kv) (snd kv) acc) src o.

End Objects.

(** ** [parseInt]

    [parseInt(s)] skips leading white space and one sign, takes radix 16
    after a [0x] or [0X] prefix and radix 10 otherwise, and is [NaN] exactly
    when no digit of the radix follows.  Strings are byte strings here, so the
    white space skipped is the ASCII one. *)
Definition isWhiteSpace (c : ascii) : bool :=
  let k := N_of_ascii c in
  ((9 <=? k) && (k <=? 13) || (k =? 32))%N.

Fixpoint trimStart (s : list ascii) : list ascii :=
  match s with
  | c :: s' => if isWhiteSpace c then trimStart s' else s
  | [] => []
  end.

Definition dropSign (s : list ascii) : list ascii :=
  match s with
  | c :: s' => if (Ascii.eqb c "+" || Ascii.eqb c "-")%char then s' else s
  | [] => []
  end.

(** [isNaN(parseInt(s))] *)
Definition parseInt_isNaN (s : string) : bool :=
  match dropSign (trimStart (list_ascii_of_string s)) with
  | [] => true
  | c :: rest =>
      match rest with
      | x :: rest' =>
          if (Ascii.eqb c "0" && (Ascii.eqb x "x" || Ascii.eqb x "X"))%char
          then match rest' with
               | d :: _ => negb (Radix.isDigit 16 d)
               | [] => true
               end
          else negb (Radix.isDigit 10 c)
      | [] => negb (Radix.isDigit 10 c)
      end
  end.

(** The keys an array owns for its elements: the decimal numerals. *)
Definition isIndexKey (s : string) : bool :=
  match Radix.parseDigits 10 (list_ascii_of_string s) with
  | Some n => String.eqb s (string_of_list_ascii (Radix.toDigits 10 n))
  | None => false
  end.

End Js.

(* ================================================================== *)
(** * The ethers v5 functions the plugin calls *)
(* ================================================================== *)

(** [BigNumber] is an arbitrary-precision integer: [Z].  The functions below
    follow [@ethersproject/bignumber] ([bignumber.ts], [fixednumber.ts]) and
    [@ethersproject/units]. *)
Module Ethers.
Import Js.
Local Open Scope Z_scope.

(** [BigNumber.prototype.toString]: decimal, with a minus sign. *)
Definition toString (n : Z) : list ascii :=
  if n <? 0 then "-"%char :: Radix.toDigits 10 (Z.to_N (- n))
  else Radix.toDigits 10 (Z.to_N n).

(** [toHex] of [bignumber.ts] pads the digits to whole bytes. *)
Definition evenPad (s : list ascii) : list ascii :=
  if Nat.even (List.length s) then s else "0"%char :: s.

(** [BigNumber.prototype.toHexString]: [0x00] for zero, [-0x..] below. *)
Definition toHexChars (n : Z) : list ascii :=
  if n <? 0 then "-"%char :: "0"%char :: "x"%char :: evenPad (Radix.toDigits 16 (Z.to_N (- n)))
  else "0"%char :: "x"%char :: evenPad (Radix.toDigits 16 (Z.to_N n)).

Definition toHexString (n : Z) : string := string_of_list_ascii (toHexChars n).

(** The two regular expressions of [BigNumber.from] on a string:
    [/^-?0x[0-9a-f]+$/i] and [/^-?[0-9]+$/].  (An upper-case [0X] prefix,
    which ethers accepts and then stores malformed, is not read here.) *)
Definition readUnsignedHex (s : list ascii) : option N :=
  match s with
  | "0"%char :: "x"%char :: ds => Radix.parseDigits 16 ds
  | _ => None
  end.

Definition readSigned (reader : list ascii -> option N) (s : list ascii) : option Z :=
  match s with
  | "-"%char :: s' => option_map (fun n => - Z.of_N n) (reader s')
  | _ => option_map Z.of_N (reader s)
  end.

Definition MAX_SAFE : Z := 9007199254740991.  (* 0x1fffffffffffff *)

(** [isBytes] of [@ethersproject/bytes]: an array of numbers from 0 to 255. *)
Definition bytesOf (items : list Value) : option (list Z) :=
  fold_right
    (fun v acc =>
       match v, acc with
       | VNumber z, Some bs => if (0 <=? z) && (z <? 256) then Some (z :: bs) else None
       | _, _ => None
       end)
    (Some []) items.

(** [BigNumber.from] *)
Definition BigNumber_from (v : Value) : Result Z :=
  match v with
  | VBigNumber n => inr n
  | VString s =>
      let cs := list_ascii_of_string s in
      match readSigned readUnsignedHex cs with
      | Some n => inr n
      | None =>
          match readSigned (Radix.parseDigits 10) cs with
          | Some n => inr n
          | None => inl (EthersError "INVALID_ARGUMENT")
          end
      end
  | VNumber z =>
      if (z >=? MAX_SAFE) || (z <=? - MAX_SAFE)
      then inl (EthersError "NUMERIC_FAULT")
      else inr z
  | VArray items =>
      (* bytes are read as a big-endian number; [hexlify] of no byte is
         [0x], which is no number; any other array is no number either *)
      match bytesOf items with
      | Some (b :: bs) => inr (fold_left (fun acc x => acc * 256 + x) (b :: bs) 0)
      | _ => inl (EthersError "INVALID_ARGUMENT")
      end
  | VBoolean _ | VUndefined => inl (EthersError "INVALID_ARGUMENT")
  end.

(** [BigNumber.prototype.toNumber]: BN.js refuses more than 53 bits. *)
Definition toNumber (n : Z) : Result Value :=
  if Z.abs n <? 2 ^ 53 then inr (VNumber n) else inl (EthersError "NUMERIC_FAULT").

(** [formatFixed(value, decimals)] of [fixednumber.ts]. *)
Definition multiplier (decimals : nat) : list ascii := "1"%char :: repeat "0"%char decimals.

(** [while (fraction.length < width) fraction = "0" + fraction] *)
Definition padZeros (width : nat) (s : list ascii) : list ascii :=
  repeat "0"%char (width - List.length s) ++ s.

Fixpoint dropTrailingZeros (s : list ascii) : list ascii :=
  match s with
  | [] => []
  | c :: s' =>
      match dropTrailingZeros s' with
      | [] => if Ascii.eqb c "0" then [] else [c]
      | t => c :: t
      end
  end.

(** The first group of [fraction.match], whose pattern is a run of digits
    ending in a non-zero digit, or a single zero, followed by zeros: on a
    string of digits, the string without its trailing zeros, or one zero. *)
Definition stripTrailingZeros (s : list ascii) : list ascii :=
  match dropTrailingZeros s with
  | [] => ["0"%char]
  | t => t
  end.

Definition formatFixed (value : Z) (decimals : nat) : string :=
  let m := multiplier decimals in
  let negative := value <? 0 in
  let v := if negative then value * -1 else value in
  let fraction := toString (v mod 10 ^ Z.of_nat decimals) in
  let fraction := padZeros (List.length m - 1) fraction in
  let fraction := stripTrailingZeros fraction in
  let whole := toString (v / 10 ^ Z.of_nat decimals) in
  let s := if Nat.eqb (List.length m) 1 then whole else whole ++ "."%char :: fraction in
  string_of_list_ascii (if negative then "-"%char :: s else s).

(** [formatEther(wei) = formatUnits(wei, 18)] *)
Definition formatEther (wei : Z) : string := formatFixed wei 18.

End Ethers.

(* ================================================================== *)
(** * What a decimal text denotes *)
(* ================================================================== *)

(** The reading of a text such as [-12.050]: an optional minus sign, digits,
    and optionally a point and more digits.  The result [(m, k)] stands for
    the number [m / 10 ^ k]. *)
Module DecimalText.

Fixpoint splitDot (s : list ascii) : list ascii * option (list ascii) :=
  match s with
  | [] => ([], None)
  | c :: s' =>
      if Ascii.eqb c "." then ([], Some s')
      else let (w, f) := splitDot s' in (c :: w, f)
  end.

Definition readUnsigned (s : list ascii) : option (N * nat) :=
  match splitDot s with
  | (w, Some f) =>
      match Radix.parseDigits 10 w, Radix.parseDigits 10 f with
      | Some a, Some b => Some ((a * 10 ^ N.of_nat (List.length f) + b)%N, List.length f)
      | _, _ => None
      end
  | (w, None) =>
      match Radix.parseDigits 10 w with
      | Some a => Some (a, O)
      | None => None
      end
  end.

Definition readDecimal (s : string) : option (Z * nat) :=
  match list_ascii_of_string s with
  | "-"%char :: r =>
      match readUnsigned r with
      | Some (m, k) => Some ((- Z.of_N m)%Z, k)
      | None => None
      end
  | cs =>
      match readUnsigned cs with
      | Some (m, k) => Some (Z.of_N m, k)
      | None => None
      end
  end.

End DecimalText.

(* ================================================================== *)
(** * The plugin *)
(* ================================================================== *)

Module Plugin.
Import Js.
Local Open Scope Z_scope.
Local Open Scope string_scope.

Definition STORAGE_KEY_LAST_INGESTED_BLOCK_NUMBER : string :=
  "ethereum-events-plugin-lastIngestedBlockNumber".

(** ** Data *)

(** [interface ArgInstruction].  The table is parsed from JSON and cast, not
    validated: [argType] is whatever string the file holds, [None] when the
    property is absent; [isDistinctId] is its truth value. *)
Record ArgInstruction : Type := {
  isDistinctId : bool;
  argType : option string
}.

(** [type EventParsingInstruction = Record<EventName, Record<ArgName, ArgInstruction>>] *)
Definition EventParsingInstruction : Type := Obj (Obj ArgInstruction).

(** A log as [provider.getLogs] returns it. *)
Record RawLog : Type := {
  address : string;
  topics : list string;
  data : string;
  blockNumber : Z;
  blockHash : string
}.

(** The part of an ethers [EventFragment] the plugin reads. *)
Record EventFragment : Type := {
  name : string;
  anonymous : bool;
  format : string
}.

(** A block as [provider.getBlock] returns it. *)
Record Block : Type := { timestamp : Z }.

(** What [parseLog] returns. *)
Record ParsedLog : Type := {
  eventFragment : EventFragment;
  parsedName : string;
  signature : string;
  namedArgs : Obj Value
}.

(** What the plugin does to the outside, in order. *)
Inductive Effect : Type :=
| Warn (lastIngested latest : Z)                        (* console.warn *)
| GetLogs (addr : string) (fromBlock : option Z) (toBlock : Z)
| GetBlock (hash : string)
| Capture (event : string) (properties : Obj Value)      (* posthog.capture *)
| LogError (e : Exn)                                     (* console.error *)
| StorageSet (key : string) (v : Z).                     (* storage.set is called *)

(** ** The error monad of the pure parts *)

Definition rbind {A B : Type} (r : Result A) (k : A -> Result B) : Result B :=
  match r with
  | inl e => inl e
  | inr a => k a
  end.

Declare Scope result_scope.
Delimit Scope result_scope with result.
Notation "x <- r ;; k" := (rbind r (fun x => k))
  (at level 100, r at next level, right associativity) : result_scope.

(** [forEach] with a body that may throw. *)
Fixpoint foldR {A B : Type} (f : A -> B -> Result A) (l : list B) (a : A) : Result A :=
  match l with
  | [] => inr a
  | b :: l' => rbind (f a b) (foldR f l')
  end.

(** What [argName in member] and then [member[argName].argType] and
    [member[argName].isDistinctId] come to when [member] is not a table of
    the instructions file but a property every object inherits (a function
    such as [toString]): the name is not there; or it is there and reading it
    as an instruction gives nothing ([argType] and [isDistinctId] are
    [undefined]); or reading it throws, as [caller] and [arguments] of a
    built-in function do, and as [argType] of the [null] that [__proto__]
    of [Object.prototype] is. *)
Inductive Inherited : Type :=
| Absent
| Inert
| Poisoned (e : Exn).

Section WithCollaborators.

(** The state of everything outside the plugin: the chain, the node, the
    sink, the store.  Each call may change it and answers with a value or
    throws. *)
Variable World : Type.

(** [meta.global.provider], [posthog], [meta.global.contractInterface] and
    the one ethers function not modelled above. *)
Record Collaborators : Type := {
  provider_getBlockNumber : World -> World * Result Z;
  provider_getLogs : string -> option Z -> Z -> World -> World * Result (list RawLog);
  (* resolves to [null] for a block the node does not know *)
  provider_getBlock : string -> World -> World * Result (option Block);
  posthog_capture : string -> Obj Value -> World -> World * Result unit;
  (* [log.topics[0]] is [undefined] for a log without topics *)
  contractInterface_getEvent : option string -> Result (option EventFragment);
  (* the own enumerable properties of the [Result] array, as the spread
     copies them: the indices, then the names *)
  contractInterface_decodeEventLog :
    EventFragment -> string -> list string -> Result (Obj Value);
  utils_parseBytes32String : Value -> Result Value;
  (* [meta.storage]: whether [get] and [set] of a key are rejected; what the
     store holds is the [storage] of the state below *)
  storage_get_rejects : string -> World -> World * option Exn;
  storage_set_rejects : string -> Z -> World -> World * option Exn;
  (* the properties every object inherits from [Object.prototype], each
     with what its own properties give when read as instructions *)
  Object_prototype : string -> option (string -> Inherited)
}.

Variable C : Collaborators.
Variable config_contractAddress : string.
(** [global.eventParsingInstructions], [undefined] without the attachment. *)
Variable eventParsingInstructions : option EventParsingInstruction.

(** ** [parseLog] *)

(** The body of the [forEach] over [Object.keys(args)]. *)
Definition keepNamed (args : Obj Value) (namedArgs : Obj Value) (key : string)
  : Obj Value :=
  if parseInt_isNaN key then
    match obj_get key args with
    | Some (VBigNumber n) => obj_set key (VString (Ethers.toHexString n)) namedArgs
    | Some v => obj_set key v namedArgs
    | None => obj_set key VUndefined namedArgs
    end
  else namedArgs.

Definition parseLog (log : RawLog) : Result (option ParsedLog) :=
  (fragment <- contractInterface_getEvent C (hd_error (topics log)) ;;
   match fragment with
   | None => inr None
   | Some fragment =>
       if anonymous fragment then inr None
       else
         args <- contractInterface_decodeEventLog C fragment (data log) (topics log) ;;
         let namedArgs := fold_left (keepNamed args) (obj_keys args) [] in
         inr (Some {| eventFragment := fragment;
                      parsedName := name fragment;
                      signature := format fragment;
                      namedArgs := namedArgs |})
   end)%result.

(** ** The field transformation of [runEveryMinute] *)

(** Lines 157-165: the three [argType] the code knows. *)
Definition coerce (t : option string) (argValue : Value) : Result Value :=
  match t with
  | None => inr argValue
  | Some t =>
      if String.eqb t "eth" then
        (n <- Ethers.BigNumber_from argValue ;;
         inr (VString (Ethers.formatEther n)))%result
      else if String.eqb t "string" then
        utils_parseBytes32String C argValue
      else if String.eqb t "number" then
        (n <- Ethers.BigNumber_from argValue ;; Ethers.toNumber n)%result
      else inr argValue
  end.

(** [parsedLog.namedArgs[argName]] *)
Definition prop (o : Obj Value) (k : string) : Value :=
  match obj_get k o with Some v => v | None => VUndefined end.

(** Lines 154-170: the body of the [forEach] over the argument names. *)
Definition applyInstruction (args : Obj Value) (eventParsingInstruction : Obj ArgInstruction)
    (eventData : Obj Value) (argName : string) : Result (Obj Value) :=
  match obj_get argName eventParsingInstruction with
  | Some argInstruction =>
      (argValue <- coerce (argType argInstruction) (prop args argName) ;;
       let eventData :=
         if isDistinctId argInstruction
         then obj_set "distinct_id" argValue eventData
         else eventData in
       inr (obj_set argName argValue eventData))%result
  | None => inr eventData
  end.

(** Lines 141-146: the base fields, then the named arguments spread over
    them. *)
Definition seedEventData (blockTimestamp : Z) (log : RawLog) (args : Obj Value)
  : Obj Value :=
  obj_spread
    [("$timestamp", VNumber blockTimestamp);
     ("blockNumber", VNumber (blockNumber log));
     ("blockHash", VString (blockHash log))]
    args.

(** Lines 154-170 when [eventParsingInstruction] is an inherited property:
    an argument name found there is read as an instruction, which throws or
    gives no [argType] and no [isDistinctId], and the argument is written
    back under its name. *)
Definition applyInherited (args : Obj Value) (member : string -> Inherited)
    (eventData : Obj Value) (argName : string) : Result (Obj Value) :=
  match member argName with
  | Absent => inr eventData
  | Inert => inr (obj_set argName (prop args argName) eventData)
  | Poisoned e => inl e
  end.

(** The table an inherited property amounts to over some argument names
    when reading it does not throw: an instruction without [argType] and
    [isDistinctId] for each of the names found there. *)
Definition asInstructions (member : string -> Inherited) (argNames : list string)
  : Obj ArgInstruction :=
  fold_right
    (fun k acc =>
       match member k with
       | Inert => (k, {| isDistinctId := false; argType := None |}) :: acc
       | _ => acc
       end)
    [] argNames.

(** Lines 141-173: the record handed to the sink.  [parsedLog.name in
    eventParsingInstructions] holds for an event the table owns and for an
    event called like a property the table inherits.  (Under a table the
    file owns, an argument called like an inherited property is read as an
    instruction without [argType] and [isDistinctId] and written back as it
    is: the same as an argument without instruction.) *)
Definition buildEventData (blockTimestamp : Z) (log : RawLog) (parsedLog : ParsedLog)
  : Result (Obj Value) :=
  let eventData := seedEventData blockTimestamp log (namedArgs parsedLog) in
  match eventParsingInstructions with
  | Some instructions =>
      match obj_get (parsedName parsedLog) instructions with
      | Some eventParsingInstruction =>
          foldR (applyInstruction (namedArgs parsedLog) eventParsingInstruction)
                (obj_keys (namedArgs parsedLog)) eventData
      | None =>
          match Object_prototype C (parsedName parsedLog) with
          | Some member =>
              foldR (applyInherited (namedArgs parsedLog) member)
                    (obj_keys (namedArgs parsedLog)) eventData
          | None => inr eventData
          end
      end
  | None => inr eventData
  end.

(** ** The cycle *)

Record State : Type := {
  world : World;
  (* [global.blockNumberToIngestFrom]: lives as long as the plugin *)
  blockNumberToIngestFrom : option Z;
  (* what [meta.storage] holds *)
  storage : Obj Z;
  trace : list Effect
}.

Definition M (A : Type) : Type := State -> State * Result A.

Definition ret {A : Type} (a : A) : M A := fun s => (s, inr a).

Definition throw {A : Type} (e : Exn) : M A := fun s => (s, inl e).

Definition bind {A B : Type} (m : M A) (k : A -> M B) : M B :=
  fun s =>
    match m s with
    | (s', inr a) => k a s'
    | (s', inl e) => (s', inl e)
    end.

Definition tryCatch {A : Type} (m : M A) (handler : Exn -> M A) : M A :=
  fun s =>
    match m s with
    | (s', inl e) => handler e s'
    | r => r
    end.

Declare Scope plugin_scope.
Delimit Scope plugin_scope with plugin.
Notation "x <- m ;; k" := (bind m (fun x => k))
  (at level 100, m at next level, right associativity) : plugin_scope.
Notation "m ;; k" := (bind m (fun _ => k))
  (at level 100, right associativity) : plugin_scope.

Definition liftR {A : Type} (r : Result A) : M A := fun s => (s, r).

Definition setWorld (w : World) (s : State) : State :=
  {| world := w;
     blockNumberToIngestFrom := blockNumberToIngestFrom s;
     storage := storage s;
     trace := trace s |}.

Definition addTrace (es : list Effect) (s : State) : State :=
  {| world := world s;
     blockNumberToIngestFrom := blockNumberToIngestFrom s;
     storage := storage s;
     trace := trace s ++ es |}.

(** A call to a collaborator. *)
Definition call {A : Type} (f : World -> World * Result A) : M A :=
  fun s => let (w, r) := f (world s) in (setWorld w s, r).

Definition emit (e : Effect) : M unit :=
  fun s => (addTrace [e] s, inr tt).

(** Lines 63-65: [await storage.get(key, null)].  A rejection is thrown to
    the caller. *)
Definition getLastIngestedBlockNumber : M (option Z) :=
  fun s =>
    match storage_get_rejects C STORAGE_KEY_LAST_INGESTED_BLOCK_NUMBER (world s) with
    | (w, None) =>
        (setWorld w s, inr (obj_get STORAGE_KEY_LAST_INGESTED_BLOCK_NUMBER (storage s)))
    | (w, Some e) => (setWorld w s, inl e)
    end.

Definition setStorage (key : string) (v : Z) (s : State) : State :=
  {| world := world s;
     blockNumberToIngestFrom := blockNumberToIngestFrom s;
     storage := obj_set key v (storage s);
     trace := trace s |}.

(** Lines 67-69 as line 179 calls them: [storage.set] is called and its
    promise is not awaited, so a rejection reaches nobody and the caller
    goes on; the store then holds what it held.  (A write that has not
    landed by the time the store is read again counts as rejected.) *)
Definition setLastIngestedBlockNumber (blockNumber : Z) : M unit :=
  fun s =>
    let s := addTrace [StorageSet STORAGE_KEY_LAST_INGESTED_BLOCK_NUMBER blockNumber] s in
    match storage_set_rejects C STORAGE_KEY_LAST_INGESTED_BLOCK_NUMBER blockNumber
            (world s) with
    | (w, None) =>
        (setWorld w (setStorage STORAGE_KEY_LAST_INGESTED_BLOCK_NUMBER blockNumber s),
         inr tt)
    | (w, Some _) => (setWorld w s, inr tt)
    end.

Definition setBlockNumberToIngestFrom (n : Z) : M unit :=
  fun s =>
    ({| world := world s;
        blockNumberToIngestFrom := Some n;
        storage := storage s;
        trace := trace s |}, inr tt).

Definition getBlockNumberToIngestFrom : M (option Z) :=
  fun s => (s, inr (blockNumberToIngestFrom s)).

(** Lines 130-137: the block timestamp, from the cache or from the node.
    The request is outside the [try].  (The cache is asked with [in]; a
    block hash is a hexadecimal text and names nothing the cache
    inherits.) *)
Definition resolveTimestamp (blockTimestamps : Obj Z) (log : RawLog) : M (Z * Obj Z) :=
  match obj_get (blockHash log) blockTimestamps with
  | Some blockTimestamp => ret (blockTimestamp, blockTimestamps)
  | None =>
      (emit (GetBlock (blockHash log)) ;;
       block <- call (provider_getBlock C (blockHash log)) ;;
       match block with
       | Some block =>
           ret (timestamp block, obj_set (blockHash log) (timestamp block) blockTimestamps)
       | None => throw (TypeError "Cannot read properties of null (reading 'timestamp')")
       end)%plugin
  end.

(** Lines 140-174: what the [try] guards. *)
Definition tryBody (blockTimestamp : Z) (log : RawLog) : M unit :=
  (parsedLog <- liftR (parseLog log) ;;
   match parsedLog with
   | None => throw (TypeError "Cannot read properties of null (reading 'namedArgs')")
   | Some parsedLog =>
       eventData <- liftR (buildEventData blockTimestamp log parsedLog) ;;
       emit (Capture (parsedName parsedLog) eventData) ;;
       call (posthog_capture C (parsedName parsedLog) eventData)
   end)%plugin.

(** Lines 128-178: one turn of the loop. *)
Definition processLog (blockTimestamps : Obj Z) (log : RawLog) : M (Obj Z) :=
  (tc <- resolveTimestamp blockTimestamps log ;;
   tryCatch (tryBody (fst tc) log) (fun error => emit (LogError error)) ;;
   ret (snd tc))%plugin.

Fixpoint processLogs (logs : list RawLog) (blockTimestamps : Obj Z) : M (Obj Z) :=
  match logs with
  | [] => ret blockTimestamps
  | log :: logs' =>
      (blockTimestamps' <- processLog blockTimestamps log ;;
       processLogs logs' blockTimestamps')%plugin
  end.

(** Lines 106-127: the head, the checkpoint, the window and the logs. *)
Definition fetchLogs : M (Z * list RawLog) :=
  (latestBlockNumber <- call (provider_getBlockNumber C) ;;
   stored <- getLastIngestedBlockNumber ;;
   let lastIngestedBlockNumber :=
     match stored with Some n => n | None => latestBlockNumber end in
   (if latestBlockNumber - lastIngestedBlockNumber >? 1000
    then (emit (Warn lastIngestedBlockNumber latestBlockNumber) ;;
          setBlockNumberToIngestFrom (latestBlockNumber - 1000))
    else ret tt) ;;
   fromBlock <- getBlockNumberToIngestFrom ;;
   emit (GetLogs config_contractAddress fromBlock latestBlockNumber) ;;
   logs <- call (provider_getLogs C config_contractAddress fromBlock latestBlockNumber) ;;
   ret (latestBlockNumber, logs))%plugin.

(** The cache of block timestamps is a local of the call: each cycle starts
    with an empty one. *)
Definition runEveryMinute : M unit :=
  (let blockTimestamps : Obj Z := [] in
   fetched <- fetchLogs ;;
   processLogs (snd fetched) blockTimestamps ;;
   setLastIngestedBlockNumber (fst fetched))%plugin.

(** ** Vocabulary of the statements *)

(** What [parseLog] stores under a key it keeps. *)
Definition storedValue (args : Obj Value) (key : string) : Value :=
  match obj_get key args with
  | Some (VBigNumber n) => VString (Ethers.toHexString n)
  | Some v => v
  | None => VUndefined
  end.

(** The event name and the record of a log, or what stops the [try] before
    the sink is reached. *)
Definition recordOf (blockTimestamp : Z) (log : RawLog) : Result (string * Obj Value) :=
  (parsedLog <- parseLog log ;;
   match parsedLog with
   | None => inl (TypeError "Cannot read properties of null (reading 'namedArgs')")
   | Some parsedLog =>
       eventData <- buildEventData blockTimestamp log parsedLog ;;
       inr (parsedName parsedLog, eventData)
   end)%result.

(** The trace tells what became of a log: its record went to the sink, or
    the error that stopped it went to the console. *)
Definition reported (blockTimestamp : Z) (log : RawLog) (t : list Effect) : Prop :=
  match recordOf blockTimestamp log with
  | inr (event, eventData) => In (Capture event eventData) t
  | inl e => In (LogError e) t
  end.

(** The instruction of an argument of an event, if the table has one. *)
Definition instructionFor (event argName : string) : option ArgInstruction :=
  match eventParsingInstructions with
  | Some instructions =>
      match obj_get event instructions with
      | Some eventParsingInstruction => obj_get argName eventParsingInstruction
      | None => None
      end
  | None => None
  end.

(** The value an argument is emitted with. *)
Definition emittedValue (event argName : string) (argValue : Value) : Result Value :=
  match instructionFor event argName with
  | Some argInstruction => coerce (argType argInstruction) argValue
  | None => inr argValue
  end.

End WithCollaborators.

(** The number of calls of [provider.getBlock] for a hash. *)
Fixpoint fetches (hash : string) (t : list Effect) : nat :=
  match t with
  | [] => O
  | GetBlock h :: t' => (if String.eqb hash h then 1 else 0) + fetches hash t'
  | _ :: t' => fetches hash t'
  end.

(** The checkpoints the store was asked to keep, in order. *)
Fixpoint checkpointWrites (t : list Effect) : list Z :=
  match t with
  | [] => []
  | StorageSet _ v :: t' => v :: checkpointWrites t'
  | _ :: t' => checkpointWrites t'
  end.

(** The records handed to the sink, in order. *)
Fixpoint captures (t : list Effect) : list (string * Obj Value) :=
  match t with
  | [] => []
  | Capture event properties :: t' => (event, properties) :: captures t'
  | _ :: t' => captures t'
  end.

(** The errors reported on the console, in order. *)
Fixpoint loggedErrors (t : list Effect) : list Exn :=
  match t with
  | [] => []
  | LogError e :: t' => e :: loggedErrors t'
  | _ :: t' => loggedErrors t'
  end.

(** The warnings written to the console, in order. *)
Fixpoint warnings (t : list Effect) : list (Z * Z) :=
  match t with
  | [] => []
  | Warn lastIngested latest :: t' => (lastIngested, latest) :: warnings t'
  | _ :: t' => warnings t'
  end.

(** The windows asked of [provider.getLogs], in order. *)
Fixpoint windows (t : list Effect) : list (option Z * Z) :=
  match t with
  | [] => []
  | GetLogs _ fromBlock toBlock :: t' => (fromBlock, toBlock) :: windows t'
  | _ :: t' => windows t'
  end.

End Plugin.

(* ================================================================== *)
(** * A small chain to run the plugin on *)
(* ================================================================== *)

(** An ERC-20 contract with a [Transfer] event and an anonymous event, a node
    that knows some blocks, and a sink that refuses one event name. *)
Module Scenario.
Import Js Plugin.
Local Open Scope Z_scope.
Local Open Scope string_scope.

Record Chain : Type := {
  head : Z;
  chainLogs : list RawLog;
  blocks : Obj Z            (* block hash to timestamp *)
}.

Definition transferTopic : string :=
  "0xddf252ad1be2c89b69c2b068fc378daa952ba7f163c4a11628f55a4df523b3ef".

Definition anonymousTopic : string :=
  "0x00000000000000000000000000000000000000000000000000000000000000aa".

Definition transferFragment : EventFragment :=
  {| name := "Transfer"; anonymous := false;
     format := "Transfer(address,address,uint256)" |}.

Definition anonymousFragment : EventFragment :=
  {| name := "Ping"; anonymous := true; format := "Ping()" |}.

Definition checkpointedTopic : string :=
  "0x00000000000000000000000000000000000000000000000000000000000000cc".

(** An event with an argument called like a base field of the record. *)
Definition checkpointedFragment : EventFragment :=
  {| name := "Checkpointed"; anonymous := false;
     format := "Checkpointed(uint256)" |}.

Definition batchTopic : string :=
  "0x00000000000000000000000000000000000000000000000000000000000000ba".

(** An event with an array argument:
    [Batch(address indexed from, uint256[] amounts)]. *)
Definition batchFragment : EventFragment :=
  {| name := "Batch"; anonymous := false; format := "Batch(address,uint256[])" |}.

Definition toStringTopic : string :=
  "0x00000000000000000000000000000000000000000000000000000000000000f5".

(** An event called like a property every object inherits, with an argument
    called like a property every function has:
    [toString(uint256 caller)]. *)
Definition toStringFragment : EventFragment :=
  {| name := "toString"; anonymous := false; format := "toString(uint256)" |}.

(** What a built-in function has and inherits that reads as an inert
    instruction. *)
Definition functionProperties : list string :=
  ["name"; "length"; "constructor"; "call"; "apply"; "bind"; "toString";
   "toLocaleString"; "valueOf"; "hasOwnProperty"; "isPrototypeOf";
   "propertyIsEnumerable"; "__proto__"].

Definition strictModeError : Exn :=
  TypeError "'caller', 'callee', and 'arguments' properties may not be accessed on strict mode functions or the arguments objects for calls to them".

(** Of [Object.prototype], the one property the scenario meets:
    [toString], a built-in function.  Reading its [caller] or [arguments]
    throws. *)
Definition objectPrototype (property : string) : option (string -> Inherited) :=
  if String.eqb property "toString" then
    Some (fun argName =>
            if existsb (String.eqb argName) ["caller"; "arguments"]
            then Poisoned strictModeError
            else if existsb (String.eqb argName) functionProperties
            then Inert
            else Absent)
  else None.

(** The lookup [parseLog] expects: [null] for a topic of no event. *)
Definition getEvent (topic : option string) : Result (option EventFragment) :=
  match topic with
  | Some t =>
      if String.eqb t transferTopic then inr (Some transferFragment)
      else if String.eqb t anonymousTopic then inr (Some anonymousFragment)
      else if String.eqb t checkpointedTopic then inr (Some checkpointedFragment)
      else if String.eqb t batchTopic then inr (Some batchFragment)
      else if String.eqb t toStringTopic then inr (Some toStringFragment)
      else inr None
  | None => inr None
  end.

(** [Transfer(address indexed from, address indexed to, uint256 value)]:
    the two addresses are topics, the amount is the data.
    [Checkpointed(uint256 blockNumber)] and [toString(uint256 caller)]: the
    number is the data.  [Batch(address indexed from, uint256[] amounts)]:
    the address is a topic, and the data stands for an array of one
    amount. *)
Definition decodeEventLog (fragment : EventFragment) (data : string) (topics : list string)
  : Result (Obj Value) :=
  match Ethers.BigNumber_from (VString data) with
  | inr value =>
      if String.eqb (name fragment) "Checkpointed" then
        inr [("0", VBigNumber value); ("blockNumber", VBigNumber value)]
      else if String.eqb (name fragment) "toString" then
        inr [("0", VBigNumber value); ("caller", VBigNumber value)]
      else if String.eqb (name fragment) "Batch" then
        match topics with
        | [_; from] =>
            inr [("0", VString from); ("1", VArray [VBigNumber value]);
                 ("from", VString from); ("amounts", VArray [VBigNumber value])]
        | _ => inl (EthersError "BUFFER_OVERRUN")
        end
      else
        match topics with
        | [_; from; to] =>
            inr [("0", VString from); ("1", VString to); ("2", VBigNumber value);
                 ("from", VString from); ("to", VString to); ("value", VBigNumber value)]
        | _ => inl (EthersError "BUFFER_OVERRUN")
        end
  | inl e => inl e
  end.

Definition collaborators : Collaborators Chain :=
  {| provider_getBlockNumber := fun w => (w, inr (head w));
     provider_getLogs := fun _ fromBlock toBlock w =>
       (* without [fromBlock] the node answers for its latest block *)
       let lo := match fromBlock with Some n => n | None => head w end in
       (w, inr (filter (fun l => ((lo <=? blockNumber l) && (blockNumber l <=? toBlock))%Z)
                       (chainLogs w)));
     provider_getBlock := fun hash w =>
       match obj_get hash (blocks w) with
       | Some t => (w, inr (Some {| timestamp := t |}))
       | None => (w, inl (ExternalError "missing response"))
       end;
     posthog_capture := fun event _ w =>
       if String.eqb event "Refused" then (w, inl (ExternalError "capture failed"))
       else (w, inr tt);
     contractInterface_getEvent := getEvent;
     contractInterface_decodeEventLog := decodeEventLog;
     utils_parseBytes32String := fun _ => inl (EthersError "INVALID_ARGUMENT");
     storage_get_rejects := fun _ w => (w, None);
     storage_set_rejects := fun _ _ w => (w, None);
     Object_prototype := objectPrototype |}.

(** The same, on a node that answers for every block. *)
Definition reliable : Collaborators Chain :=
  {| provider_getBlockNumber := provider_getBlockNumber collaborators;
     provider_getLogs := provider_getLogs collaborators;
     provider_getBlock := fun hash w =>
       (w, inr (Some {| timestamp :=
                          match obj_get hash (blocks w) with
                          | Some t => t
                          | None => 1700000000
                          end |}));
     posthog_capture := posthog_capture collaborators;
     contractInterface_getEvent := getEvent;
     contractInterface_decodeEventLog := decodeEventLog;
     utils_parseBytes32String := utils_parseBytes32String collaborators;
     storage_get_rejects := storage_get_rejects collaborators;
     storage_set_rejects := storage_set_rejects collaborators;
     Object_prototype := objectPrototype |}.

Definition contractAddress : string := "0xc0ffee".

(** The table of the README: [to] is the distinct id, [value] is in ether. *)
Definition instructions : EventParsingInstruction :=
  [("Transfer",
    [("to", {| isDistinctId := true; argType := None |});
     ("value", {| isDistinctId := false; argType := Some "eth" |})])].

Definition transferLog (blockNumber : Z) (blockHash to data : string) : RawLog :=
  {| address := contractAddress;
     topics := [transferTopic; "0x0a"; to];
     data := data;
     blockNumber := blockNumber;
     blockHash := blockHash |}.

(** 1.5 ether to [0xabc] in block 1990. *)
Definition log1 : RawLog := transferLog 1990 "0xb1" "0xabc" "0x14d1120d7b160000".

(** A log of an event the ABI does not have, in the same block. *)
Definition log2 : RawLog :=
  {| address := contractAddress; topics := ["0x77"]; data := "0x";
     blockNumber := 1990; blockHash := "0xb1" |}.

(** A transfer whose data is not a number: decoding throws. *)
Definition log3 : RawLog := transferLog 1990 "0xb1" "0xdef" "garbage".

(** 2 ether to [0xdef] in block 1995. *)
Definition log4 : RawLog := transferLog 1995 "0xb2" "0xdef" "0x1bc16d674ec80000".

(** [Checkpointed(7)] in block 1995. *)
Definition log5 : RawLog :=
  {| address := contractAddress; topics := [checkpointedTopic]; data := "0x07";
     blockNumber := 1995; blockHash := "0xb2" |}.


(** [toString(7)] in block 1995. *)
Definition log7 : RawLog :=
  {| address := contractAddress; topics := [toStringTopic]; data := "0x07";
     blockNumber := 1995; blockHash := "0xb2" |}.

(** What [parseLog] makes of [log1] and of [log5]. *)
Definition parsed1 : ParsedLog :=
  {| eventFragment := transferFragment;
     parsedName := "Transfer";
     signature := "Transfer(address,address,uint256)";
     namedArgs := [("from", VString "0x0a"); ("to", VString "0xabc");
                   ("value", VString "0x14d1120d7b160000")] |}.

Definition parsed5 : ParsedLog :=
  {| eventFragment := checkpointedFragment;
     parsedName := "Checkpointed";
     signature := "Checkpointed(uint256)";
     namedArgs := [("blockNumber", VString "0x07")] |}.

(** The record of [log1] under the table. *)
Definition record1 : Obj Value :=
  [("$timestamp", VNumber 1700000000); ("blockNumber", VNumber 1990);
   ("blockHash", VString "0xb1"); ("from", VString "0x0a");
   ("to", VString "0xabc"); ("value", VString "1.5");
   ("distinct_id", VString "0xabc")].

Definition chain : Chain :=
  {| head := 2000;
     chainLogs := [log1; log2; log3; log4];
     blocks := [("0xb1", 1700000000); ("0xb2", 1700000065)] |}.

(** The same chain, on a node that cannot answer for block [0xb2]. *)
Definition flakyChain : Chain :=
  {| head := 2000;
     chainLogs := [log1; log4; log1];
     blocks := [("0xb1", 1700000000)] |}.

(** A chain whose latest logs are of an event called [toString]. *)
Definition inheritedChain : Chain :=
  {| head := 2000;
     chainLogs := [log1; log7; log4];
     blocks := [("0xb1", 1700000000); ("0xb2", 1700000065)] |}.

(** The chain five hundred blocks earlier. *)
Definition earlyChain : Chain :=
  {| head := 1500; chainLogs := []; blocks := [] |}.

Definition start (w : Chain) (fromBlock : option Z) (checkpoint : option Z) : State Chain :=
  {| world := w;
     blockNumberToIngestFrom := fromBlock;
     storage := match checkpoint with
                | Some n => [(STORAGE_KEY_LAST_INGESTED_BLOCK_NUMBER, n)]
                | None => []
                end;
     trace := [] |}.

(** One cycle with the table of the README. *)
Definition cycle (st : State Chain) : State Chain * Result unit :=
  runEveryMinute collaborators contractAddress (Some instructions) st.

End Scenario.

(* ================================================================== *)
(** * Names *)
(* ================================================================== *)

(** The first character of a Solidity identifier: a letter, [_] or [$]. *)
Module Names.

Definition isIdentifierStart (c : ascii) : bool :=
  let k := N_of_ascii c in
  ((65 <=? k) && (k <=? 90) || (97 <=? k) && (k <=? 122) || (k =? 95) || (k =? 36))%N.

Definition isIdentifier (s : string) : bool :=
  match s with
  | String c _ => isIdentifierStart c
  | EmptyString => false
  end.

End Names.

(* ================================================================== *)
(** * [setupPlugin] *)
(* ================================================================== *)

(** Lines 71-94.  [JSON.parse] and the three ethers constructors are taken as
    given; what they build is kept abstract. *)
Module Setup.
Import Js.
Local Open Scope string_scope.

(** What [setupPlugin] can throw: its own [Error], the [SyntaxError] of
    [JSON.parse], or what a constructor throws. *)
Inductive Thrown : Type :=
| Error (msg : string)
| SyntaxError (msg : string)
| Raised (e : Exn).

(** An uploaded file. *)
Record Attachment : Type := { contents : string }.

Record Attachments : Type := {
  contractABI : option Attachment;
  eventParsingInstructions : option Attachment
}.

Section WithEthers.

Variables Provider Contract Interface Abi : Type.

(** [JSON.parse] of the two files, [new ethers.providers.InfuraProvider()],
    [new ethers.Contract] and [new ethers.utils.Interface]. *)
Variable JSON_parse_instructions : string -> Thrown + Plugin.EventParsingInstruction.
Variable JSON_parse_abi : string -> Thrown + Abi.
Variable InfuraProvider : Provider.
Variable new_Contract : string -> Abi -> Provider -> Thrown + Contract.
Variable new_Interface : Abi -> Thrown + Interface.

(** [Partial<Global>]: every property may be missing. *)
Record Global : Type := {
  provider : option Provider;
  blockNumberToIngestFrom : option Z;
  contract : option Contract;
  contractInterface : option Interface;
  global_eventParsingInstructions : option Plugin.EventParsingInstruction
}.

Definition set_eventParsingInstructions (v : Plugin.EventParsingInstruction) (g : Global)
  : Global :=
  {| provider := provider g;
     blockNumberToIngestFrom := blockNumberToIngestFrom g;
     contract := contract g;
     contractInterface := contractInterface g;
     global_eventParsingInstructions := Some v |}.

Definition set_provider (v : Provider) (g : Global) : Global :=
  {| provider := Some v;
     blockNumberToIngestFrom := blockNumberToIngestFrom g;
     contract := contract g;
     contractInterface := contractInterface g;
     global_eventParsingInstructions := global_eventParsingInstructions g |}.

Definition set_contract (v : Contract) (g : Global) : Global :=
  {| provider := provider g;
     blockNumberToIngestFrom := blockNumberToIngestFrom g;
     contract := Some v;
     contractInterface := contractInterface g;
     global_eventParsingInstructions := global_eventParsingInstructions g |}.

Definition set_contractInterface (v : Interface) (g : Global) : Global :=
  {| provider := provider g;
     blockNumberToIngestFrom := blockNumberToIngestFrom g;
     contract := contract g;
     contractInterface := Some v;
     global_eventParsingInstructions := global_eventParsingInstructions g |}.

(** [!config.contractAddress]: the property is missing or is the empty
    string. *)
Definition falsy (s : option string) : bool :=
  match s with
  | None => true
  | Some s => String.eqb s EmptyString
  end.

(** The global object is changed in place: what was assigned before a throw
    stays assigned. *)
Definition setupPlugin (config_contractAddress : option string)
    (attachments : Attachments) (global : Global) : Global * (Thrown + unit) :=
  if falsy config_contractAddress then
    (global, inl (Error "Contract address not provided!"))
  else
    match contractABI attachments with
    | None => (global, inl (Error "Contract ABI not provided!"))
    | Some abiFile =>
        let parsed :=
          match eventParsingInstructions attachments with
          | Some file =>
              match JSON_parse_instructions (contents file) with
              | inr instructions => inr (set_eventParsingInstructions instructions global)
              | inl e => inl e
              end
          | None => inr global
          end in
        match parsed with
        | inl e => (global, inl e)
        | inr global =>
            let global := set_provider InfuraProvider global in
            match JSON_parse_abi (contents abiFile) with
            | inl e => (global, inl e)
            | inr contractABI =>
                match new_Contract
                        (match config_contractAddress with Some a => a | None => EmptyString end)
                        contractABI InfuraProvider with
                | inl e => (global, inl e)
                | inr c =>
                    let global := set_contract c global in
                    match new_Interface contractABI with
                    | inl e => (global, inl e)
                    | inr i => (set_contractInterface i global, inr tt)
                    end
                end
            end
        end
    end.

End WithEthers.

End Setup.

(** A set-up to run: the ABI is kept as its text, the files are recognised by
    their contents. *)
Module SetupScenario.
Import Js.
Local Open Scope string_scope.

Definition abiText : string := "[Transfer(address,address,uint256)]".

Definition instructionsText : string := "{Transfer:{to:{isDistinctId:true},value:{argType:eth}}}".

Definition JSON_parse_instructions (s : string)
  : Setup.Thrown + Plugin.EventParsingInstruction :=
  if String.eqb s instructionsText then inr Scenario.instructions
  else inl (Setup.SyntaxError "Unexpected token").

Definition JSON_parse_abi (s : string) : Setup.Thrown + string :=
  if String.eqb s abiText then inr s else inl (Setup.SyntaxError "Unexpected token").

(** A contract is its address and ABI; an interface is its ABI. *)
Definition new_Contract (addr abi : string) (_ : unit) : Setup.Thrown + (string * string) :=
  inr (addr, abi).

Definition new_Interface (abi : string) : Setup.Thrown + string := inr abi.

Definition setupPlugin :=
  Setup.setupPlugin JSON_parse_instructions JSON_parse_abi tt new_Contract new_Interface.

(** [meta.global] before the first set-up. *)
Definition emptyGlobal : Setup.Global unit (string * string) string :=
  {| Setup.provider := None;
     Setup.blockNumberToIngestFrom := None;
     Setup.contract := None;
     Setup.contractInterface := None;
     Setup.global_eventParsingInstructions := None |}.

Definition bothFiles : Setup.Attachments :=
  {| Setup.contractABI := Some {| Setup.contents := abiText |};
     Setup.eventParsingInstructions := Some {| Setup.contents := instructionsText |} |}.

Definition abiOnly : Setup.Attachments :=
  {| Setup.contractABI := Some {| Setup.contents := abiText |};
     Setup.eventParsingInstructions := None |}.

Definition brokenInstructions : Setup.Attachments :=
  {| Setup.contractABI := Some {| Setup.contents := abiText |};
     Setup.eventParsingInstructions := Some {| Setup.contents := "{" |} |}.

End SetupScenario.

(** Nodes that fail, and other tables, for the small chain. *)
Module Outages.
Import Js Plugin Scenario.
Local Open Scope Z_scope.
Local Open Scope string_scope.

(** A node that cannot tell its head. *)
Definition headless : Collaborators Chain :=
  {| provider_getBlockNumber := fun w => (w, inl (ExternalError "timeout"));
     provider_getLogs := provider_getLogs collaborators;
     provider_getBlock := provider_getBlock collaborators;
     posthog_capture := posthog_capture collaborators;
     contractInterface_getEvent := getEvent;
     contractInterface_decodeEventLog := decodeEventLog;
     utils_parseBytes32String := utils_parseBytes32String collaborators;
     storage_get_rejects := storage_get_rejects collaborators;
     storage_set_rejects := storage_set_rejects collaborators;
     Object_prototype := objectPrototype |}.

(** A node that refuses to give logs. *)
Definition rateLimited : Collaborators Chain :=
  {| provider_getBlockNumber := provider_getBlockNumber collaborators;
     provider_getLogs := fun _ _ _ w => (w, inl (ExternalError "rate limited"));
     provider_getBlock := provider_getBlock collaborators;
     posthog_capture := posthog_capture collaborators;
     contractInterface_getEvent := getEvent;
     contractInterface_decodeEventLog := decodeEventLog;
     utils_parseBytes32String := utils_parseBytes32String collaborators;
     storage_get_rejects := storage_get_rejects collaborators;
     storage_set_rejects := storage_set_rejects collaborators;
     Object_prototype := objectPrototype |}.

(** A store that rejects every write. *)
Definition readOnlyStore : Collaborators Chain :=
  {| provider_getBlockNumber := provider_getBlockNumber collaborators;
     provider_getLogs := provider_getLogs collaborators;
     provider_getBlock := provider_getBlock collaborators;
     posthog_capture := posthog_capture collaborators;
     contractInterface_getEvent := getEvent;
     contractInterface_decodeEventLog := decodeEventLog;
     utils_parseBytes32String := utils_parseBytes32String collaborators;
     storage_get_rejects := storage_get_rejects collaborators;
     storage_set_rejects := fun _ _ w => (w, Some (ExternalError "storage is read-only"));
     Object_prototype := objectPrototype |}.

(** A store that cannot be read. *)
Definition storeDown : Collaborators Chain :=
  {| provider_getBlockNumber := provider_getBlockNumber collaborators;
     provider_getLogs := provider_getLogs collaborators;
     provider_getBlock := provider_getBlock collaborators;
     posthog_capture := posthog_capture collaborators;
     contractInterface_getEvent := getEvent;
     contractInterface_decodeEventLog := decodeEventLog;
     utils_parseBytes32String := utils_parseBytes32String collaborators;
     storage_get_rejects := fun _ w => (w, Some (ExternalError "storage is down"));
     storage_set_rejects := storage_set_rejects collaborators;
     Object_prototype := objectPrototype |}.

(** A table that marks no argument. *)
Definition unmarked : EventParsingInstruction :=
  [("Transfer", [("value", {| isDistinctId := false; argType := Some "eth" |})])].

(** A table that asks for an address as a 32-byte string. *)
Definition stringly : EventParsingInstruction :=
  [("Transfer", [("to", {| isDistinctId := false; argType := Some "string" |})])].

(** What [decodeEventLog] makes of [log1]. *)
Definition decoded1 : Obj Value :=
  [("0", VString "0x0a"); ("1", VString "0xabc"); ("2", VBigNumber 1500000000000000000);
   ("from", VString "0x0a"); ("to", VString "0xabc");
   ("value", VBigNumber 1500000000000000000)].

(** The record of [log1] under [unmarked]. *)
Definition record1_unmarked : Obj Value :=
  [("$timestamp", VNumber 1700000000); ("blockNumber", VNumber 1990);
   ("blockHash", VString "0xb1"); ("from", VString "0x0a");
   ("to", VString "0xabc"); ("value", VString "1.5")].

End Outages.

(* ================================================================== *)
(** * Facts about numerals *)
(* ================================================================== *)

Module RadixFacts.
Import Radix.
Local Open Scope N_scope.

Lemma digitValue_digitChar (d : N) : d < 16 -> digitValue (digitChar d) = Some d.
Proof.
  intros Hd.
  destruct d as [|p]; [reflexivity|].
  do 4 (try destruct p as [p|p|]); try reflexivity; exfalso; lia.
Qed.

Lemma toDigitsFuel_enough (radix : N) :
  2 <= radix ->
  forall fuel fuel' n,
    n < 2 ^ N.of_nat fuel -> n < 2 ^ N.of_nat fuel' ->
    toDigitsFuel (S fuel) radix n = toDigitsFuel (S fuel') radix n.
Proof.
  intros Hr fuel.
  induction fuel as [|fuel IH]; intros fuel' n Hn Hn'.
  - simpl in Hn. assert (n = 0) by lia. subst n.
    simpl. destruct (N.ltb_spec 0 radix); [reflexivity | lia].
  - destruct fuel' as [|fuel'].
    + simpl in Hn'. assert (n = 0) by lia. subst n.
      simpl. destruct (N.ltb_spec 0 radix); [reflexivity | lia].
    + change (toDigitsFuel (S (S fuel)) radix n)
        with (if n <? radix then [digitChar n]
              else toDigitsFuel (S fuel) radix (n / radix) ++ [digitChar (n mod radix)]).
      change (toDigitsFuel (S (S fuel')) radix n)
        with (if n <? radix then [digitChar n]
              else toDigitsFuel (S fuel') radix (n / radix) ++ [digitChar (n mod radix)]).
      destruct (N.ltb_spec n radix); [reflexivity|].
      f_equal. apply IH.
      * apply N.Div0.div_lt_upper_bound.
        rewrite Nat2N.inj_succ, N.pow_succ_r' in Hn. nia.
      * apply N.Div0.div_lt_upper_bound.
        rewrite Nat2N.inj_succ, N.pow_succ_r' in Hn'. nia.
Qed.

(** The equation the fuel hides: the recursion of BN.js's [toString]. *)
Lemma toDigits_eqn (radix n : N) :
  2 <= radix ->
  toDigits radix n =
    if n <? radix then [digitChar n]
    else toDigits radix (n / radix) ++ [digitChar (n mod radix)].
Proof.
  intros Hr. unfold toDigits.
  change (toDigitsFuel (S (N.to_nat (N.size n))) radix n)
    with (if n <? radix then [digitChar n]
          else toDigitsFuel (N.to_nat (N.size n)) radix (n / radix)
                 ++ [digitChar (n mod radix)]).
  destruct (N.ltb_spec n radix) as [Hlt|Hge]; [reflexivity|].
  f_equal.
  assert (Hsz : N.to_nat (N.size n) = S (Nat.pred (N.to_nat (N.size n)))).
  { destruct n as [|p]; [lia|]. simpl. lia. }
  rewrite Hsz.
  apply toDigitsFuel_enough; [assumption| |].
  - apply N.Div0.div_lt_upper_bound.
    pose proof (N.size_gt n) as Hgt.
    replace (N.size n) with (N.succ (N.of_nat (Nat.pred (N.to_nat (N.size n))))) in Hgt by lia.
    rewrite N.pow_succ_r' in Hgt. nia.
  - rewrite N2Nat.id. apply N.size_gt.
Qed.

Lemma toDigits_ind (radix : N) (P : N -> Prop) :
  2 <= radix ->
  (forall n, n < radix -> P n) ->
  (forall n, radix <= n -> P (n / radix) -> P n) ->
  forall n, P n.
Proof.
  intros Hr Hsmall Hbig n.
  induction n as [n IH] using (well_founded_induction N.lt_wf_0).
  destruct (N.lt_ge_cases n radix) as [Hlt|Hge]; [auto|].
  apply Hbig; [assumption|].
  apply IH. apply N.div_lt; lia.
Qed.

Lemma toDigits_nonempty (radix n : N) : 2 <= radix -> toDigits radix n <> [].
Proof.
  intros Hr. rewrite toDigits_eqn by assumption.
  destruct (n <? radix); [discriminate|].
  destruct (toDigits radix (n / radix)); discriminate.
Qed.

Lemma parseDigitsAcc_app (radix : N) (s1 s2 : list ascii) (acc : N) :
  parseDigitsAcc radix (s1 ++ s2) acc =
    match parseDigitsAcc radix s1 acc with
    | Some acc' => parseDigitsAcc radix s2 acc'
    | None => None
    end.
Proof.
  revert acc. induction s1 as [|c s1 IH]; intros acc; simpl; [reflexivity|].
  destruct (digitValue c) as [d|]; [|reflexivity].
  destruct (d <? radix); [apply IH | reflexivity].
Qed.

Lemma parseDigitsAcc_digitChar (radix d acc : N) :
  radix <= 16 -> d < radix ->
  parseDigitsAcc radix [digitChar d] acc = Some (acc * radix + d).
Proof.
  intros Hr Hd. simpl.
  rewrite digitValue_digitChar by lia.
  destruct (N.ltb_spec d radix); [reflexivity | lia].
Qed.

(** Reading back what was printed gives the number. *)
Lemma parseDigitsAcc_toDigits (radix : N) :
  2 <= radix -> radix <= 16 ->
  forall n acc,
    parseDigitsAcc radix (toDigits radix n) acc
    = Some (acc * radix ^ N.of_nat (List.length (toDigits radix n)) + n).
Proof.
  intros Hr Hr' n.
  pattern n. apply (@toDigits_ind radix); [assumption| |]; clear n.
  - intros n Hn acc. rewrite toDigits_eqn by assumption.
    destruct (N.ltb_spec n radix); [|lia].
    rewrite parseDigitsAcc_digitChar by assumption.
    simpl List.length. f_equal. change (N.of_nat 1) with 1. rewrite N.pow_1_r. reflexivity.
  - intros n Hn IH acc. rewrite toDigits_eqn by assumption.
    destruct (N.ltb_spec n radix); [lia|].
    rewrite parseDigitsAcc_app, IH.
    rewrite parseDigitsAcc_digitChar;
      [|assumption|apply N.mod_upper_bound; lia].
    f_equal. rewrite List.length_app. simpl List.length.
    rewrite Nat.add_1_r, Nat2N.inj_succ, N.pow_succ_r'.
    pose proof (N.div_mod n radix ltac:(lia)) as Hdm.
    nia.
Qed.

Lemma parseDigits_toDigits (radix n : N) :
  2 <= radix -> radix <= 16 ->
  parseDigits radix (toDigits radix n) = Some n.
Proof.
  intros Hr Hr'. unfold parseDigits.
  pose proof (@toDigits_nonempty radix n Hr) as Hne.
  pose proof (@parseDigitsAcc_toDigits radix Hr Hr' n 0) as Hp.
  destruct (toDigits radix n); [congruence|].
  rewrite Hp. reflexivity.
Qed.

(** A number below [radix ^ k] has at most [k] digits. *)
Lemma toDigits_length (radix : N) :
  2 <= radix ->
  forall n k, n < radix ^ N.of_nat (S k) -> (List.length (toDigits radix n) <= S k)%nat.
Proof.
  intros Hr n.
  pattern n. apply (@toDigits_ind radix); [assumption| |]; clear n.
  - intros n Hn k _. rewrite toDigits_eqn by assumption.
    destruct (N.ltb_spec n radix); [simpl; lia | lia].
  - intros n Hn IH k Hk. rewrite toDigits_eqn by assumption.
    destruct (N.ltb_spec n radix); [lia|].
    rewrite List.length_app. simpl List.length.
    destruct k as [|k].
    + change (N.of_nat 1) with 1 in Hk. rewrite N.pow_1_r in Hk. lia.
    + specialize (IH k).
      assert (n / radix < radix ^ N.of_nat (S k)).
      { apply N.Div0.div_lt_upper_bound.
        rewrite (Nat2N.inj_succ (S k)), N.pow_succ_r' in Hk. exact Hk. }
      specialize (IH H0). lia.
Qed.

Lemma toDigits_all_digits (radix : N) :
  2 <= radix -> radix <= 16 ->
  forall n, forallb (isDigit radix) (toDigits radix n) = true.
Proof.
  intros Hr Hr' n.
  assert (Hone : forall d, d < radix -> isDigit radix (digitChar d) = true).
  { intros d Hd. unfold isDigit. rewrite digitValue_digitChar by lia.
    apply N.ltb_lt. assumption. }
  pattern n. apply (@toDigits_ind radix); [assumption| |]; clear n.
  - intros n Hn. rewrite toDigits_eqn by assumption.
    destruct (N.ltb_spec n radix); [|lia]. simpl. rewrite Hone by assumption. reflexivity.
  - intros n Hn IH. rewrite toDigits_eqn by assumption.
    destruct (N.ltb_spec n radix); [lia|].
    rewrite forallb_app, IH. simpl.
    rewrite Hone; [reflexivity|]. apply N.mod_upper_bound; lia.
Qed.

Lemma parseDigitsAcc_zeros (radix : N) (j : nat) (acc : N) :
  1 <= radix ->
  parseDigitsAcc radix (repeat "0"%char j) acc = Some (acc * radix ^ N.of_nat j).
Proof.
  intros Hr. revert acc.
  induction j as [|j IH]; intros acc.
  - simpl. f_equal. lia.
  - change (repeat "0"%char (S j)) with ("0"%char :: repeat "0"%char j).
    change (parseDigitsAcc radix ("0"%char :: repeat "0"%char j) acc)
      with (if 0 <? radix then parseDigitsAcc radix (repeat "0"%char j) (acc * radix + 0)
            else None).
    destruct (N.ltb_spec 0 radix); [|lia].
    rewrite IH, Nat2N.inj_succ, N.pow_succ_r'. f_equal. lia.
Qed.

Lemma parseDigitsAcc_all_digits (radix : N) (s : list ascii) (acc v : N) :
  parseDigitsAcc radix s acc = Some v -> forallb (isDigit radix) s = true.
Proof.
  revert acc. induction s as [|c s IH]; intros acc; simpl; [reflexivity|].
  unfold isDigit at 1.
  destruct (digitValue c) as [d|]; [|discriminate].
  destruct (d <? radix); [|discriminate].
  apply IH.
Qed.

End RadixFacts.

(* ================================================================== *)
(** * Facts about objects *)
(* ================================================================== *)

Module JsFacts.
Import Js.

Section Objects.
Variable A : Type.

Lemma obj_get_set_eq (k : string) (v : A) (o : Obj A) :
  obj_get k (obj_set k v o) = Some v.
Proof.
  induction o as [|[k' v'] o IH]; simpl.
  - rewrite String.eqb_refl. reflexivity.
  - destruct (String.eqb k k') eqn:E; simpl; rewrite E; [reflexivity | exact IH].
Qed.

Lemma obj_get_set_neq (k k' : string) (v : A) (o : Obj A) :
  k <> k' -> obj_get k (obj_set k' v o) = obj_get k o.
Proof.
  intros Hne. induction o as [|[k0 v0] o IH]; simpl.
  - destruct (String.eqb_spec k k'); [contradiction | reflexivity].
  - destruct (String.eqb_spec k' k0) as [->|Hne0]; simpl.
    + destruct (String.eqb_spec k k0); [contradiction | reflexivity].
    + destruct (String.eqb_spec k k0); [reflexivity | exact IH].
Qed.

Lemma obj_get_In (k : string) (v : A) (o : Obj A) :
  NoDup (obj_keys o) -> In (k, v) o -> obj_get k o = Some v.
Proof.
  induction o as [|[k0 v0] o IH]; simpl; intros Hnd Hin; [contradiction|].
  inversion Hnd as [|? ? Hnotin Hnd']; subst.
  destruct Hin as [Heq|Hin].
  - inversion Heq; subst. rewrite String.eqb_refl. reflexivity.
  - destruct (String.eqb_spec k k0) as [->|Hne].
    + exfalso. apply Hnotin. apply (in_map fst) in Hin. exact Hin.
    + apply IH; assumption.
Qed.

Lemma obj_get_Some_In (k : string) (v : A) (o : Obj A) :
  obj_get k o = Some v -> In (k, v) o.
Proof.
  induction o as [|[k0 v0] o IH]; simpl; [discriminate|].
  destruct (String.eqb_spec k k0) as [->|Hne].
  - intros [= ->]. left. reflexivity.
  - intros H. right. apply IH. exact H.
Qed.

Lemma obj_get_None_keys (k : string) (o : Obj A) :
  obj_get k o = None <-> ~ In k (obj_keys o).
Proof.
  induction o as [|[k0 v0] o IH]; simpl.
  - split; [intros _ [] | reflexivity].
  - destruct (String.eqb_spec k k0) as [->|Hne].
    + split; [discriminate | intros H; exfalso; apply H; left; reflexivity].
    + rewrite IH. split.
      * intros H [Heq|Hin]; [congruence | contradiction].
      * intros H Hin. apply H. right. exact Hin.
Qed.

Lemma obj_keys_set (k : string) (v : A) (o : Obj A) :
  obj_keys (obj_set k v o) =
    if obj_has k o then obj_keys o else obj_keys o ++ [k].
Proof.
  unfold obj_has.
  induction o as [|[k0 v0] o IH]; simpl; [reflexivity|].
  destruct (String.eqb_spec k k0) as [->|Hne]; simpl; [reflexivity|].
  rewrite IH. destruct (obj_get k o); reflexivity.
Qed.

Lemma obj_set_NoDup (k : string) (v : A) (o : Obj A) :
  NoDup (obj_keys o) -> NoDup (obj_keys (obj_set k v o)).
Proof.
  intros Hnd. rewrite obj_keys_set. unfold obj_has.
  destruct (obj_get k o) eqn:E; [exact Hnd|].
  apply obj_get_None_keys in E.
  apply NoDup_rev in Hnd. rewrite <- (rev_involutive (obj_keys o ++ [k])).
  apply NoDup_rev. rewrite rev_app_distr. simpl.
  constructor; [rewrite <- in_rev; exact E | exact Hnd].
Qed.

End Objects.

(** ** [parseInt] on the index keys of an array *)

Lemma decimal_digit_plain (c : ascii) :
  Radix.isDigit 10 c = true ->
  isWhiteSpace c = false
  /\ (Ascii.eqb c "+" || Ascii.eqb c "-")%char = false
  /\ (Ascii.eqb c "x" || Ascii.eqb c "X")%char = false.
Proof.
  destruct c as [[] [] [] [] [] [] [] []]; vm_compute; intros H;
    try discriminate H; repeat split.
Qed.

(** A string of decimal digits is not [NaN] for [parseInt]. *)
Lemma parseInt_digits (s : string) (n : N) :
  Radix.parseDigits 10 (list_ascii_of_string s) = Some n ->
  parseInt_isNaN s = false.
Proof.
  unfold parseInt_isNaN, Radix.parseDigits.
  destruct (list_ascii_of_string s) as [|c rest]; [discriminate|].
  intros Hp. apply RadixFacts.parseDigitsAcc_all_digits in Hp.
  simpl in Hp. apply andb_prop in Hp. destruct Hp as [Hc Hrest].
  destruct (decimal_digit_plain c Hc) as (Hws & Hsign & _).
  simpl trimStart. rewrite Hws. simpl dropSign. rewrite Hsign.
  destruct rest as [|x rest'].
  - rewrite Hc. reflexivity.
  - simpl in Hrest. apply andb_prop in Hrest. destruct Hrest as [Hx _].
    destruct (decimal_digit_plain x Hx) as (_ & _ & Hxx).
    rewrite Hxx, andb_false_r, Hc. reflexivity.
Qed.

Lemma parseInt_index_key (s : string) : isIndexKey s = true -> parseInt_isNaN s = false.
Proof.
  unfold isIndexKey.
  destruct (Radix.parseDigits 10 (list_ascii_of_string s)) as [n|] eqn:E; [|discriminate].
  intros _. exact (parseInt_digits s E).
Qed.

(** A name that starts like an identifier is [NaN] for [parseInt]. *)
Lemma parseInt_identifier (s : string) :
  Names.isIdentifier s = true -> parseInt_isNaN s = true.
Proof.
  destruct s as [|c rest]; [discriminate|].
  unfold Names.isIdentifier, parseInt_isNaN. simpl list_ascii_of_string.
  intros Hc.
  assert (H : isWhiteSpace c = false
              /\ (Ascii.eqb c "+" || Ascii.eqb c "-")%char = false
              /\ Ascii.eqb c "0" = false
              /\ Radix.isDigit 10 c = false).
  { revert Hc. destruct c as [[] [] [] [] [] [] [] []]; vm_compute; intros Hc;
      try discriminate Hc; repeat split. }
  destruct H as (Hws & Hsign & Hzero & Hdig).
  simpl trimStart. rewrite Hws. simpl dropSign. rewrite Hsign.
  destruct (list_ascii_of_string rest) as [|x rest'].
  - rewrite Hdig. reflexivity.
  - rewrite Hzero, Hdig. reflexivity.
Qed.

End JsFacts.

(* ================================================================== *)
(** * Facts about the ethers functions *)
(* ================================================================== *)

Module EthersFacts.
Import Js Ethers.
Local Open Scope Z_scope.

Example formatEther_one_and_a_half : formatEther 1500000000000000000 = "1.5"%string.
Proof. vm_compute. reflexivity. Qed.

Example formatEther_two : formatEther 2000000000000000000 = "2.0"%string.
Proof. vm_compute. reflexivity. Qed.

Example formatEther_negative_wei : formatEther (-1) = "-0.000000000000000001"%string.
Proof. vm_compute. reflexivity. Qed.

Example toHexString_255 : toHexString 255 = "0xff"%string.
Proof. vm_compute. reflexivity. Qed.

Example toHexString_256 : toHexString 256 = "0x0100"%string.
Proof. vm_compute. reflexivity. Qed.

Example toHexString_zero : toHexString 0 = "0x00"%string.
Proof. vm_compute. reflexivity. Qed.

Example BigNumber_from_hex :
  BigNumber_from (VString "0x14d1120d7b160000") = inr 1500000000000000000.
Proof. vm_compute. reflexivity. Qed.

(** ** The hexadecimal text of a [BigNumber] reads back as the number *)

Lemma parseDigits_evenPad (s : list ascii) :
  s <> [] -> Radix.parseDigits 16 (evenPad s) = Radix.parseDigits 16 s.
Proof.
  intros Hne. unfold evenPad.
  destruct (Nat.even (List.length s)); [reflexivity|].
  destruct s; [congruence | reflexivity].
Qed.

Lemma readUnsignedHex_digits (n : N) :
  readUnsignedHex ("0"%char :: "x"%char :: evenPad (Radix.toDigits 16 n)) = Some n.
Proof.
  unfold readUnsignedHex.
  rewrite parseDigits_evenPad by (apply RadixFacts.toDigits_nonempty; lia).
  apply RadixFacts.parseDigits_toDigits; lia.
Qed.

Lemma BigNumber_from_toHexString (n : Z) :
  BigNumber_from (VString (toHexString n)) = inr n.
Proof.
  unfold BigNumber_from, toHexString, toHexChars.
  rewrite list_ascii_of_string_of_list_ascii.
  destruct (Z.ltb_spec n 0) as [Hneg|Hpos].
  - change (readSigned readUnsignedHex
              ("-"%char :: "0"%char :: "x"%char :: evenPad (Radix.toDigits 16 (Z.to_N (- n)))))
      with (option_map (fun m => - Z.of_N m)
              (readUnsignedHex
                 ("0"%char :: "x"%char :: evenPad (Radix.toDigits 16 (Z.to_N (- n)))))).
    rewrite readUnsignedHex_digits. simpl. f_equal. lia.
  - change (readSigned readUnsignedHex
              ("0"%char :: "x"%char :: evenPad (Radix.toDigits 16 (Z.to_N n))))
      with (option_map Z.of_N
              (readUnsignedHex
                 ("0"%char :: "x"%char :: evenPad (Radix.toDigits 16 (Z.to_N n))))).
    rewrite readUnsignedHex_digits. simpl. f_equal. lia.
Qed.

(** The text starts with [0x] or [-0x]: it is not a number of the language. *)
Lemma toHexString_prefix (n : Z) :
  exists rest,
    toHexString n = String "0" (String "x" rest)
    \/ toHexString n = String "-" (String "0" (String "x" rest)).
Proof.
  unfold toHexString, toHexChars.
  destruct (n <? 0).
  - eexists. right. simpl. reflexivity.
  - eexists. left. simpl. reflexivity.
Qed.

(** ** [formatFixed] writes the quotient by the power of ten *)

Lemma dropTrailingZeros_spec (s : list ascii) :
  s = dropTrailingZeros s
        ++ repeat "0"%char (List.length s - List.length (dropTrailingZeros s))
  /\ (List.length (dropTrailingZeros s) <= List.length s)%nat.
Proof.
  induction s as [|c s [IHeq IHlen]]; [split; reflexivity|].
  simpl dropTrailingZeros.
  destruct (dropTrailingZeros s) as [|c' t] eqn:E.
  - simpl in IHeq. rewrite Nat.sub_0_r in IHeq.
    destruct (Ascii.eqb_spec c "0"%char) as [->|Hne].
    + split; [|simpl; lia].
      simpl. f_equal. exact IHeq.
    + split; [|simpl; lia].
      simpl. rewrite Nat.sub_0_r. f_equal. exact IHeq.
  - split; [|simpl in *; lia].
    simpl. f_equal. simpl in IHeq. exact IHeq.
Qed.

Lemma splitDot_digits (w f : list ascii) :
  forallb (Radix.isDigit 10) w = true ->
  DecimalText.splitDot (w ++ "."%char :: f) = (w, Some f).
Proof.
  induction w as [|c w IH]; intros Hw; simpl.
  - reflexivity.
  - simpl in Hw. apply andb_prop in Hw. destruct Hw as [Hc Hw].
    destruct (Ascii.eqb_spec c "."%char) as [->|Hne]; [discriminate Hc|].
    rewrite (IH Hw). reflexivity.
Qed.

Lemma parseDigits_padZeros (width : nat) (s : list ascii) (v : N) :
  Radix.parseDigits 10 s = Some v ->
  Radix.parseDigitsAcc 10 (padZeros width s) 0 = Some v.
Proof.
  unfold padZeros, Radix.parseDigits. intros Hs.
  rewrite RadixFacts.parseDigitsAcc_app, RadixFacts.parseDigitsAcc_zeros by lia.
  destruct s; [discriminate | exact Hs].
Qed.

Lemma padZeros_length (width : nat) (s : list ascii) :
  (List.length s <= width)%nat -> List.length (padZeros width s) = width.
Proof.
  intros H. unfold padZeros. rewrite List.length_app, repeat_length. lia.
Qed.

(** The digits after the point: [f] is written over [width] places. *)
Lemma parseDigits_stripTrailingZeros (s : list ascii) (v : N) :
  s <> [] ->
  Radix.parseDigitsAcc 10 s 0 = Some v ->
  exists y,
    Radix.parseDigits 10 (stripTrailingZeros s) = Some y
    /\ (List.length (stripTrailingZeros s) <= List.length s)%nat
    /\ (y * 10 ^ N.of_nat (List.length s - List.length (stripTrailingZeros s)) = v)%N.
Proof.
  intros Hne Hs.
  destruct (dropTrailingZeros_spec s) as [Heq Hlen].
  unfold stripTrailingZeros.
  destruct (dropTrailingZeros s) as [|c t] eqn:E.
  - exists 0%N. simpl in Heq. rewrite Heq in Hs.
    rewrite RadixFacts.parseDigitsAcc_zeros in Hs by lia.
    injection Hs as <-.
    split; [reflexivity|]. split; [|reflexivity].
    destruct s; [congruence | simpl; lia].
  - rewrite Heq in Hs.
    rewrite RadixFacts.parseDigitsAcc_app in Hs.
    destruct (Radix.parseDigitsAcc 10 (c :: t) 0) as [y|] eqn:Ey; [|discriminate].
    rewrite RadixFacts.parseDigitsAcc_zeros in Hs by lia.
    injection Hs as <-.
    exists y. split; [exact Ey|]. split; [exact Hlen | reflexivity].
Qed.

Lemma formatUnsigned_denotes (decimals : nat) (v : N) :
  (1 <= decimals)%nat ->
  let whole := Radix.toDigits 10 (v / 10 ^ N.of_nat decimals) in
  let fraction :=
    stripTrailingZeros
      (padZeros decimals (Radix.toDigits 10 (v mod 10 ^ N.of_nat decimals))) in
  exists m k,
    DecimalText.readUnsigned (whole ++ "."%char :: fraction) = Some (m, k)
    /\ (k <= decimals)%nat
    /\ (m * 10 ^ N.of_nat (decimals - k) = v)%N.
Proof.
  intros Hd whole fraction.
  set (P := (10 ^ N.of_nat decimals)%N) in *.
  assert (HP : (0 < P)%N) by (apply N.neq_0_lt_0, N.pow_nonzero; lia).
  assert (Hfl : (List.length (Radix.toDigits 10 (v mod P)) <= decimals)%nat).
  { destruct decimals as [|d]; [lia|].
    apply RadixFacts.toDigits_length; [lia|].
    apply N.mod_upper_bound. lia. }
  pose proof (@padZeros_length decimals _ Hfl) as Hpl.
  assert (Hpad : Radix.parseDigitsAcc 10
                   (padZeros decimals (Radix.toDigits 10 (v mod P))) 0 = Some (v mod P)%N).
  { apply parseDigits_padZeros. apply RadixFacts.parseDigits_toDigits; lia. }
  destruct (@parseDigits_stripTrailingZeros
              (padZeros decimals (Radix.toDigits 10 (v mod P))) (v mod P)%N)
    as (y & Hy & Hylen & Hyval); [|exact Hpad|].
  { intros Hnil. rewrite Hnil in Hpl. simpl in Hpl. lia. }
  fold fraction in Hy, Hylen, Hyval. rewrite Hpl in Hylen, Hyval.
  exists (v / P * 10 ^ N.of_nat (List.length fraction) + y)%N, (List.length fraction).
  split; [|split; [exact Hylen|]].
  - unfold DecimalText.readUnsigned.
    rewrite splitDot_digits by (apply RadixFacts.toDigits_all_digits; lia).
    unfold whole. rewrite RadixFacts.parseDigits_toDigits by lia.
    rewrite Hy. reflexivity.
  - rewrite N.mul_add_distr_r, Hyval, <- N.mul_assoc, <- N.pow_add_r.
    replace (N.of_nat (List.length fraction) + N.of_nat (decimals - List.length fraction))%N
      with (N.of_nat decimals) by lia.
    fold P. pose proof (N.div_mod v P ltac:(lia)). lia.
Qed.

Lemma readDecimal_minus (cs : list ascii) :
  DecimalText.readDecimal (string_of_list_ascii ("-"%char :: cs)) =
    match DecimalText.readUnsigned cs with
    | Some (m, k) => Some (- Z.of_N m, k)
    | None => None
    end.
Proof.
  unfold DecimalText.readDecimal.
  rewrite list_ascii_of_string_of_list_ascii. reflexivity.
Qed.

Lemma readDecimal_digit (c : ascii) (cs : list ascii) :
  Radix.isDigit 10 c = true ->
  DecimalText.readDecimal (string_of_list_ascii (c :: cs)) =
    match DecimalText.readUnsigned (c :: cs) with
    | Some (m, k) => Some (Z.of_N m, k)
    | None => None
    end.
Proof.
  intros Hc. unfold DecimalText.readDecimal.
  rewrite list_ascii_of_string_of_list_ascii.
  destruct c as [[] [] [] [] [] [] [] []]; try reflexivity; discriminate Hc.
Qed.

Lemma toString_nonneg (n : Z) : 0 <= n -> toString n = Radix.toDigits 10 (Z.to_N n).
Proof.
  intros Hn. unfold toString. destruct (Z.ltb_spec n 0); [lia | reflexivity].
Qed.

(** With at least one decimal place, the text [formatFixed] writes denotes
    [value / 10 ^ decimals], exactly. *)
Lemma formatFixed_denotes (value : Z) (decimals : nat) :
  (1 <= decimals)%nat ->
  exists m k,
    DecimalText.readDecimal (formatFixed value decimals) = Some (m, k)
    /\ (k <= decimals)%nat
    /\ m * 10 ^ Z.of_nat (decimals - k) = value.
Proof.
  intros Hd. unfold formatFixed.
  assert (Hlen : List.length (multiplier decimals) = S decimals).
  { unfold multiplier. simpl. rewrite repeat_length. reflexivity. }
  rewrite Hlen.
  replace (S decimals - 1)%nat with decimals by lia.
  destruct (Nat.eqb_spec (S decimals) 1) as [Hone|_]; [lia|].
  set (v := if value <? 0 then value * -1 else value).
  assert (Hv : 0 <= v) by (unfold v; destruct (Z.ltb_spec value 0); lia).
  assert (HP : 0 < 10 ^ Z.of_nat decimals) by (apply Z.pow_pos_nonneg; lia).
  rewrite !toString_nonneg
    by (try (apply Z.mod_pos_bound; lia); apply Z.div_pos; lia).
  rewrite Z2N.inj_mod, Z2N.inj_div, Z2N.inj_pow by lia.
  change (Z.to_N 10) with 10%N.
  replace (Z.to_N (Z.of_nat decimals)) with (N.of_nat decimals) by lia.
  destruct (@formatUnsigned_denotes decimals (Z.to_N v) Hd) as (m & k & Hread & Hk & Hm).
  cbv zeta in Hread.
  assert (Hmz : Z.of_N m * 10 ^ Z.of_nat (decimals - k) = v).
  { apply (f_equal Z.of_N) in Hm.
    rewrite N2Z.inj_mul, N2Z.inj_pow, Z2N.id, nat_N_Z in Hm by lia.
    exact Hm. }
  destruct (Z.ltb_spec value 0) as [Hneg|Hpos].
  - exists (- Z.of_N m), k.
    rewrite readDecimal_minus, Hread.
    split; [reflexivity|]. split; [exact Hk|].
    unfold v in Hmz. destruct (Z.ltb_spec value 0); lia.
  - exists (Z.of_N m), k.
    pose proof (@RadixFacts.toDigits_nonempty 10
                  (Z.to_N v / 10 ^ N.of_nat decimals) ltac:(lia)) as Hne.
    pose proof (@RadixFacts.toDigits_all_digits 10 ltac:(lia) ltac:(lia)
                  (Z.to_N v / 10 ^ N.of_nat decimals)) as Hall.
    destruct (Radix.toDigits 10 (Z.to_N v / 10 ^ N.of_nat decimals)) as [|c w] eqn:Ew;
      [congruence|].
    simpl in Hall. apply andb_prop in Hall. destruct Hall as [Hc _].
    change ((c :: w) ++ "."%char
              :: stripTrailingZeros
                   (padZeros decimals
                      (Radix.toDigits 10 (Z.to_N v mod 10 ^ N.of_nat decimals))))
      with (c :: (w ++ "."%char
              :: stripTrailingZeros
                   (padZeros decimals
                      (Radix.toDigits 10 (Z.to_N v mod 10 ^ N.of_nat decimals))))).
    rewrite (@readDecimal_digit c _ Hc).
    change (c :: (w ++ "."%char
              :: stripTrailingZeros
                   (padZeros decimals
                      (Radix.toDigits 10 (Z.to_N v mod 10 ^ N.of_nat decimals)))))
      with ((c :: w) ++ "."%char
              :: stripTrailingZeros
                   (padZeros decimals
                      (Radix.toDigits 10 (Z.to_N v mod 10 ^ N.of_nat decimals)))).
    rewrite Hread.
    split; [reflexivity|]. split; [exact Hk|].
    unfold v in Hmz. destruct (Z.ltb_spec value 0); lia.
Qed.

End EthersFacts.

(* ================================================================== *)
(** * Facts about the plugin *)
(* ================================================================== *)

Section PluginFacts.
Import Js Plugin.

Variable World : Type.
Variable C : Collaborators World.
Variable config_contractAddress : string.
Variable eventParsingInstructions : option EventParsingInstruction.

(** ** [parseLog] *)

Lemma keepNamed_eq (args namedArgs : Obj Value) (key : string) :
  keepNamed args namedArgs key =
    if parseInt_isNaN key then obj_set key (storedValue args key) namedArgs
    else namedArgs.
Proof.
  unfold keepNamed, storedValue.
  destruct (parseInt_isNaN key); [|reflexivity].
  destruct (obj_get key args) as [[]|]; reflexivity.
Qed.

Lemma fold_keepNamed_get (args : Obj Value) (keys : list string) :
  forall (acc : Obj Value) (k : string),
    obj_get k (fold_left (keepNamed args) keys acc) =
      if existsb (String.eqb k) keys && parseInt_isNaN k
      then Some (storedValue args k)
      else obj_get k acc.
Proof.
  induction keys as [|a keys IH]; intros acc k; simpl; [reflexivity|].
  rewrite IH, keepNamed_eq.
  destruct (String.eqb_spec k a) as [->|Hne]; simpl.
  - destruct (parseInt_isNaN a) eqn:Ea.
    + rewrite JsFacts.obj_get_set_eq.
      destruct (existsb (String.eqb a) keys); reflexivity.
    + rewrite andb_false_r. reflexivity.
  - destruct (parseInt_isNaN a); [|reflexivity].
    rewrite JsFacts.obj_get_set_neq by assumption. reflexivity.
Qed.

Lemma fold_keepNamed_NoDup (args : Obj Value) (keys : list string) :
  forall acc : Obj Value,
    NoDup (obj_keys acc) -> NoDup (obj_keys (fold_left (keepNamed args) keys acc)).
Proof.
  induction keys as [|a keys IH]; intros acc Hnd; simpl; [exact Hnd|].
  apply IH. rewrite keepNamed_eq.
  destruct (parseInt_isNaN a); [apply JsFacts.obj_set_NoDup|]; exact Hnd.
Qed.

Lemma parseLog_inv (log : RawLog) (parsedLog : ParsedLog) :
  parseLog C log = inr (Some parsedLog) ->
  exists fragment args,
    contractInterface_getEvent C (hd_error (topics log)) = inr (Some fragment)
    /\ anonymous fragment = false
    /\ contractInterface_decodeEventLog C fragment (data log) (topics log) = inr args
    /\ parsedName parsedLog = name fragment
    /\ namedArgs parsedLog = fold_left (keepNamed args) (obj_keys args) [].
Proof.
  unfold parseLog, rbind.
  destruct (contractInterface_getEvent C (hd_error (topics log))) as [e|[fragment|]];
    [discriminate| |discriminate].
  destruct (anonymous fragment) eqn:Ea; [discriminate|].
  destruct (contractInterface_decodeEventLog C fragment (data log) (topics log))
    as [e|args] eqn:Ed; [discriminate|].
  intros [= <-]. exists fragment, args. simpl. repeat split; assumption.
Qed.

Lemma parseLog_NoDup (log : RawLog) (parsedLog : ParsedLog) :
  parseLog C log = inr (Some parsedLog) -> NoDup (obj_keys (namedArgs parsedLog)).
Proof.
  intros H. destruct (parseLog_inv _ H) as (fragment & args & _ & _ & _ & _ & ->).
  apply fold_keepNamed_NoDup. constructor.
Qed.

(** X24. A log [parseLog] decodes gets an argument mapping in which no key
    is an index of the decoded array (every key is [NaN] for [parseInt] and
    is a key of the decoded result), no argument is itself a [BigNumber]
    (an array argument may hold some), and every [BigNumber] of the decoded
    result kept under a name is its hexadecimal text, which reads back as
    the same integer. *)
Theorem X24_parseLog_names_and_top_level_hex (log : RawLog) (parsedLog : ParsedLog) :
  parseLog C log = inr (Some parsedLog) ->
  exists fragment args,
    contractInterface_getEvent C (hd_error (topics log)) = inr (Some fragment)
    /\ contractInterface_decodeEventLog C fragment (data log) (topics log) = inr args
    /\ (forall k, In k (obj_keys (namedArgs parsedLog)) ->
          isIndexKey k = false /\ parseInt_isNaN k = true /\ In k (obj_keys args))
    /\ (forall k v, obj_get k (namedArgs parsedLog) = Some v ->
          forall n, v <> VBigNumber n)
    /\ (forall k n, obj_get k args = Some (VBigNumber n) -> parseInt_isNaN k = true ->
          obj_get k (namedArgs parsedLog) = Some (VString (Ethers.toHexString n))
          /\ Ethers.BigNumber_from (VString (Ethers.toHexString n)) = inr n).
Proof.
  intros H. destruct (parseLog_inv _ H) as (fragment & args & Hev & _ & Hdec & _ & Hargs).
  exists fragment, args. split; [exact Hev|]. split; [exact Hdec|].
  rewrite Hargs. split; [|split].
  - intros k Hin.
    destruct (obj_get k (fold_left (keepNamed args) (obj_keys args) [])) as [v|] eqn:Eg;
      [|apply JsFacts.obj_get_None_keys in Eg; contradiction].
    rewrite fold_keepNamed_get in Eg. simpl in Eg.
    destruct (existsb (String.eqb k) (obj_keys args)) eqn:Eex; [|discriminate].
    destruct (parseInt_isNaN k) eqn:Enan; [|discriminate].
    split; [|split; [reflexivity|]].
    + destruct (isIndexKey k) eqn:Eidx; [|reflexivity].
      apply JsFacts.parseInt_index_key in Eidx. congruence.
    + apply existsb_exists in Eex. destruct Eex as (k' & Hin' & Heq).
      apply String.eqb_eq in Heq. subst k'. exact Hin'.
  - intros k v Hget n Hv. subst v.
    rewrite fold_keepNamed_get in Hget. simpl in Hget.
    destruct (existsb (String.eqb k) (obj_keys args) && parseInt_isNaN k);
      [|discriminate].
    unfold storedValue in Hget.
    destruct (obj_get k args) as [[]|]; discriminate.
  - intros k n Hk Hnan.
    split; [|apply EthersFacts.BigNumber_from_toHexString].
    rewrite fold_keepNamed_get, Hnan, andb_true_r.
    assert (Hex : existsb (String.eqb k) (obj_keys args) = true).
    { apply existsb_exists. exists k. split; [|apply String.eqb_refl].
      apply JsFacts.obj_get_Some_In in Hk. apply (in_map fst) in Hk. exact Hk. }
    rewrite Hex. unfold storedValue. rewrite Hk. reflexivity.
Qed.

(** ** The field transformation *)

Lemma foldR_app (A B : Type) (f : A -> B -> Result A) (l1 l2 : list B) (a : A) :
  foldR f (l1 ++ l2) a = rbind (foldR f l1 a) (foldR f l2).
Proof.
  revert a. induction l1 as [|b l1 IH]; intros a; simpl; [reflexivity|].
  destruct (f a b) as [e|a']; simpl; [reflexivity | apply IH].
Qed.

Lemma applyInstruction_inv (args : Obj Value) (instr : Obj ArgInstruction)
    (eventData eventData' : Obj Value) (argName : string) :
  applyInstruction C args instr eventData argName = inr eventData' ->
  match obj_get argName instr with
  | Some argInstruction =>
      exists argValue,
        coerce C (argType argInstruction) (prop args argName) = inr argValue
        /\ eventData' =
             obj_set argName argValue
               (if isDistinctId argInstruction
                then obj_set "distinct_id" argValue eventData
                else eventData)
  | None => eventData' = eventData
  end.
Proof.
  unfold applyInstruction, rbind.
  destruct (obj_get argName instr) as [argInstruction|]; [|congruence].
  destruct (coerce C (argType argInstruction) (prop args argName)) as [e|argValue];
    [discriminate|].
  intros [= <-]. exists argValue. split; reflexivity.
Qed.

(** A field stays as it is while the arguments gone through are other ones
    and, when the field is [distinct_id], are not marked. *)
Lemma foldR_applyInstruction_untouched (args : Obj Value) (instr : Obj ArgInstruction)
    (key : string) (argNames : list string) :
  (forall k argInstruction,
      In k argNames -> obj_get k instr = Some argInstruction ->
      k <> key /\ (isDistinctId argInstruction = true -> key <> "distinct_id"%string)) ->
  forall eventData eventData',
    foldR (applyInstruction C args instr) argNames eventData = inr eventData' ->
    obj_get key eventData' = obj_get key eventData.
Proof.
  induction argNames as [|a argNames IH]; intros Hother eventData eventData' Hfold.
  - simpl in Hfold. congruence.
  - simpl in Hfold. unfold rbind in Hfold.
    destruct (applyInstruction C args instr eventData a) as [e|eventData1] eqn:Estep;
      [discriminate|].
    rewrite (IH (fun k ai Hin => Hother k ai (or_intror Hin)) _ _ Hfold).
    apply applyInstruction_inv in Estep.
    destruct (obj_get a instr) as [argInstruction|] eqn:Ea; [|congruence].
    destruct Estep as (argValue & _ & ->).
    destruct (Hother a argInstruction (or_introl eq_refl) Ea) as [Hne Hflag].
    rewrite JsFacts.obj_get_set_neq by congruence.
    destruct (isDistinctId argInstruction); [|reflexivity].
    apply JsFacts.obj_get_set_neq. apply Hflag. reflexivity.
Qed.

(** What an argument's own field holds once all arguments are gone
    through. *)
Lemma foldR_applyInstruction_own_field (args : Obj Value) (instr : Obj ArgInstruction)
    (argNames : list string) (k : string) (eventData eventData' : Obj Value) :
  NoDup argNames -> In k argNames -> k <> "distinct_id"%string ->
  foldR (applyInstruction C args instr) argNames eventData = inr eventData' ->
  match obj_get k instr with
  | Some argInstruction =>
      exists argValue,
        coerce C (argType argInstruction) (prop args k) = inr argValue
        /\ obj_get k eventData' = Some argValue
  | None => obj_get k eventData' = obj_get k eventData
  end.
Proof.
  intros Hnd Hin Hk Hfold.
  destruct (in_split _ _ Hin) as (pre & post & ->).
  assert (Hpre : ~ In k pre /\ ~ In k post).
  { apply NoDup_remove_2 in Hnd. split; intros H; apply Hnd, in_or_app; auto. }
  destruct Hpre as [Hpre Hpost].
  rewrite foldR_app in Hfold. unfold rbind in Hfold.
  destruct (foldR (applyInstruction C args instr) pre eventData) as [e|eventData1] eqn:E1;
    [discriminate|].
  simpl in Hfold. unfold rbind in Hfold.
  destruct (applyInstruction C args instr eventData1 k) as [e|eventData2] eqn:E2;
    [discriminate|].
  assert (Hother : forall l, ~ In k l ->
            forall k' ai, In k' l -> obj_get k' instr = Some ai ->
              k' <> k /\ (isDistinctId ai = true -> k <> "distinct_id"%string)).
  { intros l Hl k' ai Hin' _. split; [|intros _; exact Hk].
    intros ->. contradiction. }
  rewrite (@foldR_applyInstruction_untouched args instr k post (Hother post Hpost) _ _ Hfold).
  apply applyInstruction_inv in E2.
  destruct (obj_get k instr) as [argInstruction|].
  - destruct E2 as (argValue & Hco & ->). exists argValue.
    split; [exact Hco | apply JsFacts.obj_get_set_eq].
  - subst eventData2.
    exact (@foldR_applyInstruction_untouched args instr k pre (Hother pre Hpre) _ _ E1).
Qed.

Lemma obj_spread_get (A : Type) (src : Obj A) :
  NoDup (obj_keys src) ->
  forall (o : Obj A) (k : string),
    obj_get k (obj_spread o src) =
      match obj_get k src with
      | Some v => Some v
      | None => obj_get k o
      end.
Proof.
  unfold obj_spread.
  induction src as [|[k0 v0] src IH]; intros Hnd o k; simpl; [reflexivity|].
  inversion Hnd as [|? ? Hnotin Hnd']; subst.
  rewrite (IH Hnd').
  destruct (String.eqb_spec k k0) as [->|Hne].
  - apply JsFacts.obj_get_None_keys in Hnotin. rewrite Hnotin.
    apply JsFacts.obj_get_set_eq.
  - rewrite JsFacts.obj_get_set_neq by assumption. reflexivity.
Qed.

Lemma instructionFor_inv (event argName : string) (argInstruction : ArgInstruction) :
  instructionFor eventParsingInstructions event argName = Some argInstruction ->
  exists instructions instr,
    eventParsingInstructions = Some instructions
    /\ obj_get event instructions = Some instr
    /\ obj_get argName instr = Some argInstruction.
Proof.
  unfold instructionFor.
  destruct eventParsingInstructions as [instructions|]; [|discriminate].
  destruct (obj_get event instructions) as [instr|] eqn:E; [|discriminate].
  intros H. exists instructions, instr. repeat split; assumption.
Qed.

Lemma buildEventData_with_instructions (blockTimestamp : Z) (log : RawLog)
    (parsedLog : ParsedLog) (instructions : EventParsingInstruction)
    (instr : Obj ArgInstruction) :
  eventParsingInstructions = Some instructions ->
  obj_get (parsedName parsedLog) instructions = Some instr ->
  buildEventData C eventParsingInstructions blockTimestamp log parsedLog =
    foldR (applyInstruction C (namedArgs parsedLog) instr)
          (obj_keys (namedArgs parsedLog))
          (seedEventData blockTimestamp log (namedArgs parsedLog)).
Proof.
  intros Hi He. unfold buildEventData. rewrite Hi, He. reflexivity.
Qed.

Lemma asInstructions_get (member : string -> Inherited) (argNames : list string)
    (k : string) :
  obj_get k (asInstructions member argNames)
  = match member k with
    | Inert => if in_dec string_dec k argNames
               then Some {| isDistinctId := false; argType := None |} else None
    | _ => None
    end.
Proof.
  induction argNames as [|a argNames IH].
  - simpl. destruct (member k); reflexivity.
  - change (asInstructions member (a :: argNames))
      with (match member a with
            | Inert => (a, {| isDistinctId := false; argType := None |})
                         :: asInstructions member argNames
            | _ => asInstructions member argNames
            end).
    assert (Hin : forall X (x y : X),
               (if in_dec string_dec k (a :: argNames) then x else y)
               = if String.eqb k a then x
                 else if in_dec string_dec k argNames then x else y).
    { intros X x y.
      destruct (String.eqb k a) eqn:E.
      - apply String.eqb_eq in E.
        destruct (in_dec string_dec k (a :: argNames)) as [_|Hn]; [reflexivity|].
        exfalso. apply Hn. left. congruence.
      - apply String.eqb_neq in E.
        destruct (in_dec string_dec k (a :: argNames)) as [[H|H]|Hn];
          destruct (in_dec string_dec k argNames) as [H'|Hn']; try reflexivity.
        + congruence.
        + contradiction.
        + exfalso. apply Hn. right. exact H'. }
    destruct (String.eqb k a) eqn:E.
    + apply String.eqb_eq in E. subst a.
      destruct (member k) eqn:Ek.
      * exact IH.
      * rewrite Hin. simpl. rewrite String.eqb_refl. reflexivity.
      * exact IH.
    + assert (Hget : obj_get k (match member a with
                                | Inert => (a, {| isDistinctId := false; argType := None |})
                                             :: asInstructions member argNames
                                | _ => asInstructions member argNames
                                end)
                     = obj_get k (asInstructions member argNames)).
      { destruct (member a); try reflexivity. simpl. rewrite E. reflexivity. }
      rewrite Hget, IH. destruct (member k); try reflexivity.
      rewrite Hin. reflexivity.
Qed.

Lemma foldR_applyInherited (args : Obj Value) (member : string -> Inherited)
    (argNames l : list string) :
  (forall k, In k l -> In k argNames) ->
  forall eventData eventData',
    foldR (applyInherited args member) l eventData = inr eventData' ->
    foldR (applyInstruction C args (asInstructions member argNames)) l eventData
    = inr eventData'.
Proof.
  induction l as [|a l IH]; intros Hsub eventData eventData' Hfold; [exact Hfold|].
  simpl in *. unfold rbind in *.
  unfold applyInherited in Hfold. unfold applyInstruction.
  rewrite asInstructions_get.
  destruct (member a); [| |discriminate].
  - apply IH; [intros k Hk; apply Hsub; right; exact Hk | exact Hfold].
  - destruct (in_dec string_dec a argNames) as [_|Hn];
      [|exfalso; apply Hn, Hsub; left; reflexivity].
    simpl. apply IH; [intros k Hk; apply Hsub; right; exact Hk | exact Hfold].
Qed.

Lemma foldR_no_instruction (args : Obj Value) (l : list string) (eventData : Obj Value) :
  foldR (applyInstruction C args []) l eventData = inr eventData.
Proof.
  induction l as [|a l IH]; [reflexivity|]. simpl. exact IH.
Qed.

(** A record that is built is built as under some table of instructions:
    the table's entry of the event, or what an inherited property amounts
    to, or no instruction at all. *)
Lemma buildEventData_as_fold (blockTimestamp : Z) (log : RawLog)
    (parsedLog : ParsedLog) (eventData : Obj Value) :
  buildEventData C eventParsingInstructions blockTimestamp log parsedLog = inr eventData ->
  exists instr,
    foldR (applyInstruction C (namedArgs parsedLog) instr)
          (obj_keys (namedArgs parsedLog))
          (seedEventData blockTimestamp log (namedArgs parsedLog)) = inr eventData
    /\ forall k,
         obj_get k instr
         = instructionFor eventParsingInstructions (parsedName parsedLog) k
         \/ (instructionFor eventParsingInstructions (parsedName parsedLog) k = None
             /\ obj_get k instr = Some {| isDistinctId := false; argType := None |}).
Proof.
  unfold buildEventData, instructionFor. intros Hbuild.
  destruct eventParsingInstructions as [instructions|].
  - destruct (obj_get (parsedName parsedLog) instructions) as [instr|].
    + exists instr. split; [exact Hbuild | left; reflexivity].
    + destruct (Object_prototype C (parsedName parsedLog)) as [member|].
      * exists (asInstructions member (obj_keys (namedArgs parsedLog))).
        split; [apply foldR_applyInherited; [auto | exact Hbuild]|].
        intros k. rewrite asInstructions_get.
        destruct (member k); auto.
        destruct (in_dec string_dec k (obj_keys (namedArgs parsedLog))); auto.
      * exists []. injection Hbuild as <-.
        split; [apply foldR_no_instruction | left; reflexivity].
  - exists []. injection Hbuild as <-.
    split; [apply foldR_no_instruction | left; reflexivity].
Qed.

(** C2 (the code against its README).  The README offers the [argType]
    values [int], [hex] and [boolean]; [coerce] has no case for them and
    hands the value back as it got it.  So an amount of 255, which
    [parseLog] stores as its hexadecimal text, is emitted under [int] as
    that text and not as the decimal [255], and under [boolean] as that text
    and not as a truth value. *)
Theorem C2_int_hex_boolean_not_coerced :
  (forall v, coerce C (Some "int"%string) v = inr v)
  /\ (forall v, coerce C (Some "hex"%string) v = inr v)
  /\ (forall v, coerce C (Some "boolean"%string) v = inr v)
  /\ coerce C (Some "int"%string)
       (storedValue [("amount"%string, VBigNumber 255)] "amount")
     = inr (VString "0xff")
  /\ coerce C (Some "boolean"%string)
       (storedValue [("flag"%string, VBigNumber 1)] "flag")
     = inr (VString "0x01")
  /\ coerce C (Some "hex"%string) (VNumber 255) = inr (VNumber 255).
Proof.
  repeat split; intros; reflexivity.
Qed.

(** C6. Under [argType: 'eth'] the hexadecimal text [parseLog] stored for an
    integer [n] is read back as [n] and replaced by the text of
    [formatEther n], which denotes [n / 10 ^ 18] exactly: read as a decimal
    numeral with [k <= 18] places after the point it has mantissa [m] with
    [m * 10 ^ (18 - k) = n].  For 1500000000000000000 the text is [1.5]. *)
Theorem C6_eth_divides_by_ten_to_the_18 :
  (forall n : Z,
      coerce C (Some "eth"%string) (VString (Ethers.toHexString n))
      = inr (VString (Ethers.formatEther n))
      /\ exists m k,
           DecimalText.readDecimal (Ethers.formatEther n) = Some (m, k)
           /\ (k <= 18)%nat
           /\ (m * 10 ^ Z.of_nat (18 - k) = n)%Z)
  /\ coerce C (Some "eth"%string) (VString (Ethers.toHexString 1500000000000000000))
     = inr (VString "1.5").
Proof.
  split.
  - intros n. split.
    + unfold coerce. simpl String.eqb. cbv iota.
      rewrite EthersFacts.BigNumber_from_toHexString. reflexivity.
    + apply EthersFacts.formatFixed_denotes. lia.
  - vm_compute. reflexivity.
Qed.

(** C7. When the record of a decoded log is built and an argument's
    instruction has [isDistinctId], the argument is coerced first, and the
    record as it stands once that argument is gone through holds the coerced
    value both under [distinct_id] and under the argument's own name.  The
    record handed to the sink still holds it under the argument's own name
    unless that name is [distinct_id] itself, and holds it under both names
    when no argument after it in the iteration order is marked too or is
    itself called [distinct_id] with an instruction (the last one written
    wins). *)
Theorem C7_distinct_id_is_coerced_value (blockTimestamp : Z) (log : RawLog)
    (parsedLog : ParsedLog) (argName : string) (argInstruction : ArgInstruction)
    (before after : list string) (eventData : Obj Value) :
  parseLog C log = inr (Some parsedLog) ->
  obj_keys (namedArgs parsedLog) = before ++ argName :: after ->
  instructionFor eventParsingInstructions (parsedName parsedLog) argName
    = Some argInstruction ->
  isDistinctId argInstruction = true ->
  buildEventData C eventParsingInstructions blockTimestamp log parsedLog = inr eventData ->
  exists argValue instr eventData1,
    coerce C (argType argInstruction) (prop (namedArgs parsedLog) argName) = inr argValue
    /\ foldR (applyInstruction C (namedArgs parsedLog) instr) (before ++ [argName])
         (seedEventData blockTimestamp log (namedArgs parsedLog)) = inr eventData1
    /\ foldR (applyInstruction C (namedArgs parsedLog) instr) after eventData1
       = inr eventData
    /\ obj_get "distinct_id" eventData1 = Some argValue
    /\ obj_get argName eventData1 = Some argValue
    /\ (argName <> "distinct_id"%string -> obj_get argName eventData = Some argValue)
    /\ ((forall k ai, In k after ->
           instructionFor eventParsingInstructions (parsedName parsedLog) k = Some ai ->
           isDistinctId ai = false /\ k <> "distinct_id"%string) ->
        obj_get "distinct_id" eventData = Some argValue
        /\ obj_get argName eventData = Some argValue).
Proof.
  intros Hparse Hkeys Hinstr Hflag Hbuild.
  pose proof (parseLog_NoDup _ Hparse) as Hnd.
  destruct (instructionFor_inv _ _ Hinstr) as (instructions & instr & Hi & He & Ha).
  rewrite (buildEventData_with_instructions _ _ _ Hi He), Hkeys in Hbuild.
  rewrite Hkeys in Hnd.
  assert (Hnotin : ~ In argName after).
  { apply NoDup_remove_2 in Hnd. intros H. apply Hnd, in_or_app. auto. }
  replace (before ++ argName :: after) with ((before ++ [argName]) ++ after) in Hbuild
    by (rewrite <- app_assoc; reflexivity).
  rewrite foldR_app in Hbuild. unfold rbind in Hbuild.
  destruct (foldR (applyInstruction C (namedArgs parsedLog) instr) (before ++ [argName])
              (seedEventData blockTimestamp log (namedArgs parsedLog)))
    as [e|eventData1] eqn:E1; [discriminate|].
  pose proof E1 as Estep.
  rewrite foldR_app in Estep. unfold rbind in Estep.
  destruct (foldR (applyInstruction C (namedArgs parsedLog) instr) before
              (seedEventData blockTimestamp log (namedArgs parsedLog)))
    as [e|eventData0]; [discriminate|].
  simpl in Estep. unfold rbind in Estep.
  destruct (applyInstruction C (namedArgs parsedLog) instr eventData0 argName)
    as [e|eventData1'] eqn:Eone; [discriminate|].
  injection Estep as ->.
  apply applyInstruction_inv in Eone. rewrite Ha, Hflag in Eone.
  destruct Eone as (argValue & Hco & Heq).
  assert (Hd1 : obj_get "distinct_id" eventData1 = Some argValue).
  { rewrite Heq. destruct (String.eqb_spec "distinct_id"%string argName) as [<-|Hne].
    - apply JsFacts.obj_get_set_eq.
    - rewrite JsFacts.obj_get_set_neq by assumption. apply JsFacts.obj_get_set_eq. }
  assert (Ho1 : obj_get argName eventData1 = Some argValue).
  { rewrite Heq. apply JsFacts.obj_get_set_eq. }
  exists argValue, instr, eventData1.
  split; [exact Hco|]. split; [exact E1|]. split; [exact Hbuild|].
  split; [exact Hd1|]. split; [exact Ho1|]. split.
  - intros Hown.
    rewrite (@foldR_applyInstruction_untouched _ instr argName after) with (2 := Hbuild);
      [exact Ho1|].
    intros k ai Hin _. split; [intros ->; contradiction | intros _; exact Hown].
  - intros Hafter.
    assert (Hlater : forall key, (key = argName \/ key = "distinct_id"%string) ->
              forall k ai, In k after -> obj_get k instr = Some ai ->
                k <> key /\ (isDistinctId ai = true -> key <> "distinct_id"%string)).
    { intros key Hkey k ai Hin Hk.
      assert (Hk' : instructionFor eventParsingInstructions (parsedName parsedLog) k
                    = Some ai).
      { unfold instructionFor. rewrite Hi, He. exact Hk. }
      destruct (Hafter k ai Hin Hk') as [Hnf Hnd'].
      split; [|rewrite Hnf; discriminate].
      destruct Hkey as [-> | ->]; [intros ->; contradiction | exact Hnd']. }
    split.
    + rewrite (@foldR_applyInstruction_untouched _ instr "distinct_id"%string after
                 (Hlater _ (or_intror eq_refl)) _ _ Hbuild).
      exact Hd1.
    + rewrite (@foldR_applyInstruction_untouched _ instr argName after
                 (Hlater _ (or_introl eq_refl)) _ _ Hbuild).
      exact Ho1.
Qed.

(** ** More about the record *)

Lemma obj_spread_keys (A : Type) (src o : Obj A) :
  NoDup (obj_keys o) ->
  NoDup (obj_keys (obj_spread o src))
  /\ exists rest, obj_keys (obj_spread o src) = obj_keys o ++ rest.
Proof.
  unfold obj_spread. revert o.
  induction src as [|[k v] src IH]; intros o Hnd; simpl.
  - split; [exact Hnd|]. exists []. rewrite app_nil_r. reflexivity.
  - destruct (IH (obj_set k v o) (JsFacts.obj_set_NoDup k v o Hnd)) as (Hnd' & rest & Hrest).
    split; [exact Hnd'|].
    rewrite Hrest, JsFacts.obj_keys_set.
    destruct (obj_has k o); [exists rest; reflexivity|].
    exists (k :: rest). rewrite <- app_assoc. reflexivity.
Qed.

Lemma obj_spread_get_notin (A : Type) (src o : Obj A) (k : string) :
  ~ In k (obj_keys src) -> obj_get k (obj_spread o src) = obj_get k o.
Proof.
  unfold obj_spread. revert o.
  induction src as [|[k0 v0] src IH]; intros o Hnotin; simpl; [reflexivity|].
  rewrite IH by (intros H; apply Hnotin; right; exact H).
  apply JsFacts.obj_get_set_neq. intros ->. apply Hnotin. left. reflexivity.
Qed.

Lemma foldR_applyInstruction_keys (args : Obj Value) (instr : Obj ArgInstruction)
    (argNames : list string) :
  forall eventData eventData',
    NoDup (obj_keys eventData) ->
    foldR (applyInstruction C args instr) argNames eventData = inr eventData' ->
    NoDup (obj_keys eventData')
    /\ exists rest, obj_keys eventData' = obj_keys eventData ++ rest.
Proof.
  induction argNames as [|a argNames IH]; intros eventData eventData' Hnd Hfold.
  - simpl in Hfold. injection Hfold as <-.
    split; [exact Hnd|]. exists []. rewrite app_nil_r. reflexivity.
  - simpl in Hfold. unfold rbind in Hfold.
    destruct (applyInstruction C args instr eventData a) as [e|eventData1] eqn:Estep;
      [discriminate|].
    assert (H1 : NoDup (obj_keys eventData1)
                 /\ exists rest, obj_keys eventData1 = obj_keys eventData ++ rest).
    { apply applyInstruction_inv in Estep.
      destruct (obj_get a instr) as [ai|].
      - destruct Estep as (argValue & _ & ->).
        destruct (isDistinctId ai).
        + split; [apply JsFacts.obj_set_NoDup, JsFacts.obj_set_NoDup; exact Hnd|].
          rewrite !JsFacts.obj_keys_set.
          destruct (obj_has "distinct_id" eventData);
            destruct (obj_has a _); eexists; rewrite <- ?app_assoc; try reflexivity.
          rewrite app_nil_r. reflexivity.
        + split; [apply JsFacts.obj_set_NoDup; exact Hnd|].
          rewrite JsFacts.obj_keys_set.
          destruct (obj_has a eventData); eexists; try reflexivity.
          rewrite app_nil_r. reflexivity.
      - subst eventData1. split; [exact Hnd|]. exists []. rewrite app_nil_r. reflexivity. }
    destruct H1 as (Hnd1 & rest1 & Hrest1).
    destruct (IH _ _ Hnd1 Hfold) as (Hnd' & rest & Hrest).
    split; [exact Hnd'|].
    exists (rest1 ++ rest). rewrite Hrest, Hrest1, app_assoc. reflexivity.
Qed.

(** C10. A decoded argument called [blockNumber], [blockHash] or
    [$timestamp] takes the place of the base field of that name.  The record
    is seeded at lines 141-146 with the base fields first: without the
    arguments it holds at that name what the log says (its block number, its
    block hash, the timestamp of its block).  With the arguments spread over
    it, the name is still one of the three first keys and occurs once, and
    now holds the argument's value; and the record handed to the sink holds
    there, at the same place, the value the argument is emitted with (the
    decoded value itself when no instruction applies to it), whatever the
    block number, block hash and timestamp of the log are. *)
Theorem C10_argument_overwrites_base_field (blockTimestamp : Z) (log : RawLog)
    (parsedLog : ParsedLog) (k : string) (v : Value) :
  parseLog C log = inr (Some parsedLog) ->
  obj_get k (namedArgs parsedLog) = Some v ->
  k = "blockNumber"%string \/ k = "blockHash"%string \/ k = "$timestamp"%string ->
  obj_get k (seedEventData blockTimestamp log [])
  = Some (if String.eqb k "blockNumber" then VNumber (blockNumber log)
          else if String.eqb k "blockHash" then VString (blockHash log)
          else VNumber blockTimestamp)
  /\ obj_get k (seedEventData blockTimestamp log (namedArgs parsedLog)) = Some v
  /\ (exists rest,
        obj_keys (seedEventData blockTimestamp log (namedArgs parsedLog))
        = "$timestamp"%string :: "blockNumber"%string :: "blockHash"%string :: rest
        /\ ~ In k rest)
  /\ forall eventData,
       buildEventData C eventParsingInstructions blockTimestamp log parsedLog
         = inr eventData ->
       (exists v',
          emittedValue C eventParsingInstructions (parsedName parsedLog) k v = inr v'
          /\ obj_get k eventData = Some v')
       /\ exists rest,
            obj_keys eventData
            = "$timestamp"%string :: "blockNumber"%string :: "blockHash"%string :: rest
            /\ ~ In k rest.
Proof.
  intros Hparse Hget Hbase.
  pose proof (parseLog_NoDup _ Hparse) as Hnd.
  assert (Hseed : obj_get k (seedEventData blockTimestamp log (namedArgs parsedLog)) = Some v).
  { unfold seedEventData. rewrite (@obj_spread_get _ _ Hnd), Hget. reflexivity. }
  assert (Hk : k <> "distinct_id"%string).
  { destruct Hbase as [-> | [-> | ->]]; discriminate. }
  assert (Honce : forall rest,
            NoDup ("$timestamp"%string :: "blockNumber"%string :: "blockHash"%string :: rest) ->
            ~ In k rest).
  { intros rest Hn Hin.
    inversion Hn as [|x1 l1 H1 Hn1]; subst.
    inversion Hn1 as [|x2 l2 H2 Hn2]; subst.
    inversion Hn2 as [|x3 l3 H3 Hn3]; subst.
    destruct Hbase as [-> | [-> | ->]].
    - apply H2. right. exact Hin.
    - apply H3. exact Hin.
    - apply H1. right. right. exact Hin. }
  assert (Hbasekeys : NoDup ["$timestamp"%string; "blockNumber"%string; "blockHash"%string]).
  { repeat constructor; simpl; intuition discriminate. }
  destruct (@obj_spread_keys Value (namedArgs parsedLog)
              [("$timestamp"%string, VNumber blockTimestamp);
               ("blockNumber"%string, VNumber (blockNumber log));
               ("blockHash"%string, VString (blockHash log))] Hbasekeys)
    as (Hnd0 & rest0 & Hrest0).
  fold (seedEventData blockTimestamp log (namedArgs parsedLog)) in Hnd0, Hrest0.
  assert (Hkeys0 : obj_keys (seedEventData blockTimestamp log (namedArgs parsedLog))
                   = "$timestamp"%string :: "blockNumber"%string :: "blockHash"%string
                     :: rest0) by exact Hrest0.
  clear Hrest0.
  split; [destruct Hbase as [-> | [-> | ->]]; reflexivity|].
  split; [exact Hseed|].
  split.
  { exists rest0. split; [exact Hkeys0|]. apply Honce. rewrite <- Hkeys0. exact Hnd0. }
  intros eventData Hbuild.
  apply buildEventData_as_fold in Hbuild. destruct Hbuild as (instr & Hbuild & Hinstr).
  split.
  - unfold emittedValue.
    assert (Hin : In k (obj_keys (namedArgs parsedLog))).
    { apply JsFacts.obj_get_Some_In in Hget. apply (in_map fst) in Hget. exact Hget. }
    pose proof (@foldR_applyInstruction_own_field (namedArgs parsedLog) instr _ k _ _
                  Hnd Hin Hk Hbuild) as Hown.
    assert (Hprop : prop (namedArgs parsedLog) k = v)
      by (unfold prop; rewrite Hget; reflexivity).
    destruct (Hinstr k) as [Heq | [Hnone Heq]].
    + rewrite <- Heq. destruct (obj_get k instr) as [argInstruction|].
      * destruct Hown as (argValue & Hco & Hrec). rewrite Hprop in Hco.
        exists argValue. split; assumption.
      * exists v. split; [reflexivity | congruence].
    + rewrite Hnone. rewrite Heq in Hown.
      destruct Hown as (argValue & Hco & Hrec). rewrite Hprop in Hco. simpl in Hco.
      exists argValue. split; [exact Hco | exact Hrec].
  - destruct (@foldR_applyInstruction_keys _ _ _ _ _ Hnd0 Hbuild) as (Hnd' & rest & Hrest).
    exists (rest0 ++ rest).
    assert (Hkeys : obj_keys eventData
                    = "$timestamp"%string :: "blockNumber"%string :: "blockHash"%string
                      :: rest0 ++ rest)
      by (rewrite Hrest, Hkeys0; reflexivity).
    split; [exact Hkeys|]. apply Honce. rewrite <- Hkeys. exact Hnd'.
Qed.

Lemma fetches_app (h : string) (a b : list Effect) :
  fetches h (a ++ b) = (fetches h a + fetches h b)%nat.
Proof.
  induction a as [|[] a IH]; simpl; try exact IH; [reflexivity|].
  rewrite IH. apply Nat.add_assoc.
Qed.

Lemma checkpointWrites_app (a b : list Effect) :
  checkpointWrites (a ++ b) = checkpointWrites a ++ checkpointWrites b.
Proof.
  induction a as [|[] a IH]; simpl; try exact IH; [reflexivity|].
  rewrite IH. reflexivity.
Qed.

Lemma captures_app (a b : list Effect) :
  captures (a ++ b) = captures a ++ captures b.
Proof.
  induction a as [|[] a IH]; simpl; try exact IH; [reflexivity|].
  rewrite IH. reflexivity.
Qed.

Lemma windows_app (a b : list Effect) :
  windows (a ++ b) = windows a ++ windows b.
Proof.
  induction a as [|[] a IH]; simpl; try exact IH; [reflexivity|].
  rewrite IH. reflexivity.
Qed.

(** The [try] with its [catch] never throws: it ends with the record at the
    sink, or with an error on the console, or with both when the sink
    throws. *)
Lemma guarded_spec (blockTimestamp : Z) (log : RawLog) (st : State World) :
  tryCatch (tryBody C eventParsingInstructions blockTimestamp log)
           (fun error => emit (LogError error)) st =
    match recordOf C eventParsingInstructions blockTimestamp log with
    | inl e => (addTrace [LogError e] st, inr tt)
    | inr (event, eventData) =>
        match posthog_capture C event eventData (world st) with
        | (w, inr u) => (setWorld w (addTrace [Capture event eventData] st), inr u)
        | (w, inl e) =>
            (addTrace [LogError e] (setWorld w (addTrace [Capture event eventData] st)),
             inr tt)
        end
    end.
Proof.
  unfold tryCatch, tryBody, recordOf, bind, liftR, rbind.
  destruct (parseLog C log) as [e|[parsedLog|]]; try reflexivity.
  destruct (buildEventData C eventParsingInstructions blockTimestamp log parsedLog)
    as [e|eventData]; [reflexivity|].
  unfold emit, call. simpl.
  destruct (posthog_capture C (parsedName parsedLog) eventData (world st)) as [w [e|u]];
    reflexivity.
Qed.

Lemma guarded_cases (blockTimestamp : Z) (log : RawLog) (st : State World) :
  exists st' d,
    tryCatch (tryBody C eventParsingInstructions blockTimestamp log)
             (fun error => emit (LogError error)) st = (st', inr tt)
    /\ trace st' = trace st ++ d
    /\ storage st' = storage st
    /\ blockNumberToIngestFrom st' = blockNumberToIngestFrom st
    /\ (forall h, fetches h d = O)
    /\ checkpointWrites d = []
    /\ reported C eventParsingInstructions blockTimestamp log d.
Proof.
  rewrite guarded_spec. unfold reported.
  destruct (recordOf C eventParsingInstructions blockTimestamp log) as [e|[event eventData]].
  - eexists _, [LogError e]. repeat split. left. reflexivity.
  - destruct (posthog_capture C event eventData (world st)) as [w [e|[]]].
    + eexists _, [Capture event eventData; LogError e].
      split; [reflexivity|]. simpl. rewrite <- app_assoc. simpl.
      repeat split. left. reflexivity.
    + eexists _, [Capture event eventData]. repeat split. left. reflexivity.
Qed.

Lemma resolveTimestamp_spec (blockTimestamps : Obj Z) (log : RawLog) (st : State World) :
  resolveTimestamp C blockTimestamps log st =
    match obj_get (blockHash log) blockTimestamps with
    | Some blockTimestamp => (st, inr (blockTimestamp, blockTimestamps))
    | None =>
        let st1 := addTrace [GetBlock (blockHash log)] st in
        match provider_getBlock C (blockHash log) (world st) with
        | (w, inr (Some block)) =>
            (setWorld w st1,
             inr (timestamp block,
                  obj_set (blockHash log) (timestamp block) blockTimestamps))
        | (w, inr None) =>
            (setWorld w st1,
             inl (TypeError "Cannot read properties of null (reading 'timestamp')"))
        | (w, inl e) => (setWorld w st1, inl e)
        end
    end.
Proof.
  unfold resolveTimestamp.
  destruct (obj_get (blockHash log) blockTimestamps); [reflexivity|].
  unfold bind, emit, call. simpl.
  destruct (provider_getBlock C (blockHash log) (world st)) as [w [e|[block|]]];
    reflexivity.
Qed.

(** One turn of the loop: the timestamp comes from the cache, or from the
    node, or the node fails and the turn throws. *)
Lemma processLog_cases (blockTimestamps : Obj Z) (log : RawLog) (st st' : State World)
    (r : Result (Obj Z)) :
  processLog C eventParsingInstructions blockTimestamps log st = (st', r) ->
  storage st' = storage st
  /\ blockNumberToIngestFrom st' = blockNumberToIngestFrom st
  /\ ((exists t d,
          obj_get (blockHash log) blockTimestamps = Some t
          /\ r = inr blockTimestamps
          /\ trace st' = trace st ++ d
          /\ (forall h, fetches h d = O) /\ checkpointWrites d = []
          /\ reported C eventParsingInstructions t log d)
      \/ (exists w block d,
          obj_get (blockHash log) blockTimestamps = None
          /\ provider_getBlock C (blockHash log) (world st) = (w, inr (Some block))
          /\ r = inr (obj_set (blockHash log) (timestamp block) blockTimestamps)
          /\ trace st' = trace st ++ GetBlock (blockHash log) :: d
          /\ (forall h, fetches h d = O) /\ checkpointWrites d = []
          /\ reported C eventParsingInstructions (timestamp block) log d)
      \/ (exists w r0 e,
          obj_get (blockHash log) blockTimestamps = None
          /\ provider_getBlock C (blockHash log) (world st) = (w, r0)
          /\ (forall block, r0 <> inr (Some block))
          /\ r = inl e
          /\ st' = setWorld w (addTrace [GetBlock (blockHash log)] st))).
Proof.
  unfold processLog, bind. rewrite resolveTimestamp_spec.
  destruct (obj_get (blockHash log) blockTimestamps) as [t|] eqn:Ec.
  - simpl fst. simpl snd.
    destruct (guarded_cases t log st) as (st1 & d & -> & Ht & Hs & Hg & Hf & Hc & Hr).
    unfold ret. intros [= <- <-].
    split; [exact Hs|]. split; [exact Hg|].
    left. exists t, d. repeat split; assumption.
  - cbv zeta.
    destruct (provider_getBlock C (blockHash log) (world st)) as [w [e|[block|]]] eqn:Eb.
    + intros [= <- <-]. split; [reflexivity|]. split; [reflexivity|].
      right. right. exists w, (inl e), e. repeat split. discriminate.
    + simpl fst. simpl snd.
      destruct (guarded_cases (timestamp block) log
                  (setWorld w (addTrace [GetBlock (blockHash log)] st)))
        as (st1 & d & -> & Ht & Hs & Hg & Hf & Hc & Hr).
      unfold ret. intros [= <- <-].
      split; [exact Hs|]. split; [exact Hg|].
      right. left. exists w, block, d.
      repeat split; try assumption.
      rewrite Ht. simpl. rewrite <- app_assoc. reflexivity.
    + intros [= <- <-]. split; [reflexivity|]. split; [reflexivity|].
      right. right. eexists w, (inr None), _. repeat split. discriminate.
Qed.

Lemma fetchLogs_spec (st : State World) :
  fetchLogs C config_contractAddress st =
    match provider_getBlockNumber C (world st) with
    | (w, inl e) => (setWorld w st, inl e)
    | (w, inr latest) =>
        match storage_get_rejects C STORAGE_KEY_LAST_INGESTED_BLOCK_NUMBER w with
        | (w0, Some e) => (setWorld w0 st, inl e)
        | (w0, None) =>
            let last :=
              match obj_get STORAGE_KEY_LAST_INGESTED_BLOCK_NUMBER (storage st) with
              | Some n => n
              | None => latest
              end in
            let lagging := (latest - last >? 1000)%Z in
            let fromBlock :=
              if lagging then Some (latest - 1000)%Z else blockNumberToIngestFrom st in
            let st1 :=
              {| world := w0;
                 blockNumberToIngestFrom := fromBlock;
                 storage := storage st;
                 trace := (trace st ++ (if lagging then [Warn last latest] else []))
                            ++ [GetLogs config_contractAddress fromBlock latest] |} in
            match provider_getLogs C config_contractAddress fromBlock latest w0 with
            | (w', inl e) => (setWorld w' st1, inl e)
            | (w', inr logs) => (setWorld w' st1, inr (latest, logs))
            end
        end
    end.
Proof.
  unfold fetchLogs, bind, call, getLastIngestedBlockNumber.
  destruct (provider_getBlockNumber C (world st)) as [w [e|latest]]; [reflexivity|].
  simpl.
  destruct (storage_get_rejects C STORAGE_KEY_LAST_INGESTED_BLOCK_NUMBER w)
    as [w0 [e|]]; [reflexivity|].
  simpl.
  destruct (obj_get STORAGE_KEY_LAST_INGESTED_BLOCK_NUMBER (storage st)) as [n|];
    cbv zeta.
  - destruct (latest - n >? 1000)%Z; simpl;
      destruct (provider_getLogs C config_contractAddress _ latest w0) as [w' [e|logs]];
      simpl; rewrite ?app_nil_r; reflexivity.
  - destruct (latest - latest >? 1000)%Z; simpl;
      destruct (provider_getLogs C config_contractAddress _ latest w0) as [w' [e|logs]];
      simpl; rewrite ?app_nil_r; reflexivity.
Qed.

(** Lines 106-127 leave the checkpoint alone, ask the node for no block and
    hand nothing to the sink. *)
Lemma fetchLogs_frame (st st1 : State World) (r : Result (Z * list RawLog)) :
  fetchLogs C config_contractAddress st = (st1, r) ->
  storage st1 = storage st
  /\ exists d,
       trace st1 = trace st ++ d
       /\ (forall h, fetches h d = O)
       /\ checkpointWrites d = [].
Proof.
  rewrite fetchLogs_spec.
  destruct (provider_getBlockNumber C (world st)) as [w [e|latest]].
  - intros [= <- <-]. split; [reflexivity|].
    exists []. simpl. rewrite app_nil_r. repeat split.
  - destruct (storage_get_rejects C STORAGE_KEY_LAST_INGESTED_BLOCK_NUMBER w)
      as [w0 [e|]].
    { intros [= <- <-]. split; [reflexivity|].
      exists []. simpl. rewrite app_nil_r. repeat split. }
    cbv zeta.
    set (last := match obj_get STORAGE_KEY_LAST_INGESTED_BLOCK_NUMBER (storage st) with
                 | Some n => n
                 | None => latest
                 end).
    set (fromBlock := if (latest - last >? 1000)%Z
                      then Some (latest - 1000)%Z else blockNumberToIngestFrom st).
    assert (Hd : forall w' : World, forall r' : Result (Z * list RawLog),
               (setWorld w'
                  {| world := w0; blockNumberToIngestFrom := fromBlock;
                     storage := storage st;
                     trace := (trace st ++ (if (latest - last >? 1000)%Z
                                            then [Warn last latest] else []))
                                ++ [GetLogs config_contractAddress fromBlock latest] |},
                r') = (st1, r) ->
               storage st1 = storage st
               /\ exists d, trace st1 = trace st ++ d
                            /\ (forall h, fetches h d = O) /\ checkpointWrites d = []).
    { intros w' r' [= <- <-]. split; [reflexivity|].
      exists ((if (latest - last >? 1000)%Z then [Warn last latest] else [])
                ++ [GetLogs config_contractAddress fromBlock latest]).
      simpl. rewrite <- app_assoc.
      destruct (latest - last >? 1000)%Z; repeat split. }
    destruct (provider_getLogs C config_contractAddress fromBlock latest w0)
      as [w' [e|logs]]; apply Hd.
Qed.

(** The window asked of the node: the head bounds it above; below, it is the
    head less 1000 when the checkpoint lags by more, and otherwise whatever
    [global.blockNumberToIngestFrom] holds. *)
Lemma fetchLogs_window (st : State World) (w w0 : World) (latest : Z) :
  provider_getBlockNumber C (world st) = (w, inr latest) ->
  storage_get_rejects C STORAGE_KEY_LAST_INGESTED_BLOCK_NUMBER w = (w0, None) ->
  let last :=
    match obj_get STORAGE_KEY_LAST_INGESTED_BLOCK_NUMBER (storage st) with
    | Some n => n
    | None => latest
    end in
  windows (trace (fst (fetchLogs C config_contractAddress st))) =
    windows (trace st)
      ++ [(if (latest - last >? 1000)%Z
           then Some (latest - 1000)%Z else blockNumberToIngestFrom st,
           latest)].
Proof.
  intros Hhead Hread last. rewrite fetchLogs_spec, Hhead, Hread. cbv zeta. fold last.
  destruct (provider_getLogs C config_contractAddress _ latest w0) as [w' [e|logs]];
    simpl; rewrite !windows_app; simpl;
    destruct (latest - last >? 1000)%Z; simpl; rewrite ?app_nil_r; reflexivity.
Qed.

(** When the checkpoint lags by more than 1000 blocks the window starts at
    the larger of the checkpoint and the head less 1000. *)
Lemma fetchLogs_window_clamped (st : State World) (w w0 : World) (latest last : Z) :
  provider_getBlockNumber C (world st) = (w, inr latest) ->
  storage_get_rejects C STORAGE_KEY_LAST_INGESTED_BLOCK_NUMBER w = (w0, None) ->
  obj_get STORAGE_KEY_LAST_INGESTED_BLOCK_NUMBER (storage st) = Some last ->
  (latest - last > 1000)%Z ->
  windows (trace (fst (fetchLogs C config_contractAddress st))) =
    windows (trace st) ++ [(Some (Z.max last (latest - 1000)), latest)].
Proof.
  intros Hhead Hread Hlast Hlag.
  rewrite (fetchLogs_window _ Hhead Hread), Hlast.
  destruct (Z.gtb_spec (latest - last) 1000); [|lia].
  rewrite Z.max_r by lia. reflexivity.
Qed.

(** The write of line 179: it is asked of the store, it lands or it does
    not, and the caller goes on either way. *)
Lemma setLastIngestedBlockNumber_spec (n : Z) (st st' : State World) (r : Result unit) :
  setLastIngestedBlockNumber C n st = (st', r) ->
  r = inr tt
  /\ trace st' = trace st ++ [StorageSet STORAGE_KEY_LAST_INGESTED_BLOCK_NUMBER n]
  /\ blockNumberToIngestFrom st' = blockNumberToIngestFrom st
  /\ exists w rejected,
       storage_set_rejects C STORAGE_KEY_LAST_INGESTED_BLOCK_NUMBER n (world st)
       = (w, rejected)
       /\ world st' = w
       /\ storage st'
          = match rejected with
            | None => obj_set STORAGE_KEY_LAST_INGESTED_BLOCK_NUMBER n (storage st)
            | Some _ => storage st
            end.
Proof.
  unfold setLastIngestedBlockNumber. simpl.
  destruct (storage_set_rejects C STORAGE_KEY_LAST_INGESTED_BLOCK_NUMBER n (world st))
    as [w [e|]] eqn:E; intros [= <- <-]; simpl; repeat split;
    eexists _, _; repeat split.
Qed.

Lemma processLogs_app (l1 l2 : list RawLog) :
  forall (blockTimestamps : Obj Z) (st : State World),
    processLogs C eventParsingInstructions (l1 ++ l2) blockTimestamps st =
      match processLogs C eventParsingInstructions l1 blockTimestamps st with
      | (st', inr blockTimestamps') =>
          processLogs C eventParsingInstructions l2 blockTimestamps' st'
      | (st', inl e) => (st', inl e)
      end.
Proof.
  induction l1 as [|log l1 IH]; intros blockTimestamps st; simpl; [reflexivity|].
  unfold bind.
  destruct (processLog C eventParsingInstructions blockTimestamps log st) as [st1 [e|c1]];
    [reflexivity | apply IH].
Qed.

(** The loop writes no checkpoint. *)
Lemma processLogs_frame (logs : list RawLog) :
  forall (blockTimestamps : Obj Z) (st st' : State World) (r : Result (Obj Z)),
    processLogs C eventParsingInstructions logs blockTimestamps st = (st', r) ->
    storage st' = storage st
    /\ blockNumberToIngestFrom st' = blockNumberToIngestFrom st
    /\ exists d, trace st' = trace st ++ d /\ checkpointWrites d = [].
Proof.
  induction logs as [|log logs IH]; intros blockTimestamps st st' r; simpl.
  - unfold ret. intros [= <- <-]. repeat split. exists []. rewrite app_nil_r. split; reflexivity.
  - unfold bind.
    destruct (processLog C eventParsingInstructions blockTimestamps log st)
      as [st1 r1] eqn:E1.
    destruct (processLog_cases _ _ _ E1) as (Hs1 & Hg1 & Hcases).
    assert (Hd1 : exists d1, trace st1 = trace st ++ d1 /\ checkpointWrites d1 = []).
    { destruct Hcases as [(t & d & _ & _ & Ht & _ & Hc & _)
                         |[(w & block & d & _ & _ & _ & Ht & _ & Hc & _)
                          |(w & r0 & e & _ & _ & _ & _ & ->)]].
      - exists d. split; assumption.
      - exists (GetBlock (blockHash log) :: d). split; assumption.
      - exists [GetBlock (blockHash log)]. split; reflexivity. }
    destruct Hd1 as (d1 & Ht1 & Hc1).
    destruct r1 as [e|c1].
    + intros [= <- <-]. repeat split; try assumption. exists d1. split; assumption.
    + intros H2. destruct (IH _ _ _ _ H2) as (Hs2 & Hg2 & d2 & Ht2 & Hc2).
      split; [congruence|]. split; [congruence|].
      exists (d1 ++ d2). rewrite Ht2, Ht1, app_assoc, checkpointWrites_app, Hc1, Hc2.
      split; reflexivity.
Qed.

(** C3 (the code against itself).  [parseLog] answers [null] for a log of no
    event or of an anonymous one, and the caller reads [namedArgs] of that
    [null]: a [TypeError] is thrown, caught and written to the console.  No
    record reaches the sink and the loop goes on, but the log is not passed
    over in silence. *)
Theorem C3_unmatched_log_throws_and_is_logged (blockTimestamp : Z) (log : RawLog)
    (st : State World) :
  (contractInterface_getEvent C (hd_error (topics log)) = inr None
   \/ exists fragment,
        contractInterface_getEvent C (hd_error (topics log)) = inr (Some fragment)
        /\ anonymous fragment = true) ->
  parseLog C log = inr None
  /\ tryCatch (tryBody C eventParsingInstructions blockTimestamp log)
              (fun error => emit (LogError error)) st
     = (addTrace
          [LogError (TypeError "Cannot read properties of null (reading 'namedArgs')")] st,
        inr tt).
Proof.
  intros H.
  assert (Hp : parseLog C log = inr None).
  { unfold parseLog, rbind.
    destruct H as [-> | (fragment & -> & ->)]; reflexivity. }
  split; [exact Hp|].
  rewrite guarded_spec. unfold recordOf, rbind. rewrite Hp. reflexivity.
Qed.

Lemma reported_app (blockTimestamp : Z) (log : RawLog) (a d b : list Effect) :
  reported C eventParsingInstructions blockTimestamp log d ->
  reported C eventParsingInstructions blockTimestamp log (a ++ d ++ b).
Proof.
  unfold reported.
  destruct (recordOf C eventParsingInstructions blockTimestamp log) as [e|[event eventData]];
    intros H; apply in_or_app; right; apply in_or_app; left; exact H.
Qed.

Section NodeAnswers.

(** The worlds in which the node answers the requests for the blocks of
    some logs, and which the node and the sink do not leave. *)
Variable Good : World -> Prop.
Variable window : list RawLog.

Hypothesis blocks_resolve :
  forall (w : World) (log : RawLog),
    Good w -> In log window ->
    exists w' block,
      provider_getBlock C (blockHash log) w = (w', inr (Some block)) /\ Good w'.

Hypothesis sink_keeps :
  forall (w : World) (event : string) (eventData : Obj Value),
    Good w -> Good (fst (posthog_capture C event eventData w)).

Lemma guarded_good (blockTimestamp : Z) (log : RawLog) (st : State World) :
  Good (world st) ->
  Good (world (fst (tryCatch (tryBody C eventParsingInstructions blockTimestamp log)
                             (fun error => emit (LogError error)) st))).
Proof.
  intros Hg. rewrite guarded_spec.
  destruct (recordOf C eventParsingInstructions blockTimestamp log) as [e|[event eventData]];
    [exact Hg|].
  pose proof (@sink_keeps (world st) event eventData Hg) as Hk.
  destruct (posthog_capture C event eventData (world st)) as [w [e|u]]; exact Hk.
Qed.

Lemma processLogs_all_reported (logs : list RawLog) :
  (forall log, In log logs -> In log window) ->
  forall (blockTimestamps : Obj Z) (st : State World),
    Good (world st) ->
    exists st' blockTimestamps' d,
      processLogs C eventParsingInstructions logs blockTimestamps st
        = (st', inr blockTimestamps')
      /\ Good (world st')
      /\ trace st' = trace st ++ d
      /\ forall log, In log logs ->
           exists t, reported C eventParsingInstructions t log d.
Proof.
  induction logs as [|log logs IH]; intros Hsub blockTimestamps st Hgood; simpl.
  - exists st, blockTimestamps, []. rewrite app_nil_r.
    repeat split; [exact Hgood|]. intros log [].
  - unfold bind.
    assert (H1 : exists st1 c1 d1 t,
               processLog C eventParsingInstructions blockTimestamps log st
               = (st1, inr c1)
               /\ Good (world st1) /\ trace st1 = trace st ++ d1
               /\ reported C eventParsingInstructions t log d1).
    { unfold processLog, bind. rewrite resolveTimestamp_spec.
      destruct (obj_get (blockHash log) blockTimestamps) as [t|].
      - simpl fst. simpl snd.
        pose proof (@guarded_good t log st Hgood) as Hg1.
        destruct (guarded_cases t log st) as (st1 & d & E & Ht & _ & _ & _ & _ & Hr).
        rewrite E in Hg1 |- *.
        exists st1, blockTimestamps, d, t. repeat split; assumption.
      - cbv zeta.
        destruct (@blocks_resolve (world st) log Hgood (Hsub log (or_introl eq_refl)))
          as (w & block & Hb & Hgw).
        rewrite Hb. simpl fst. simpl snd.
        set (st0 := setWorld w (addTrace [GetBlock (blockHash log)] st)).
        assert (Hg0 : Good (world st0)) by exact Hgw.
        pose proof (@guarded_good (timestamp block) log st0 Hg0) as Hg1.
        destruct (guarded_cases (timestamp block) log st0)
          as (st1 & d & E & Ht & _ & _ & _ & _ & Hr).
        rewrite E in Hg1 |- *.
        eexists st1, _, (GetBlock (blockHash log) :: d), (timestamp block).
        split; [reflexivity|]. split; [exact Hg1|].
        split; [rewrite Ht; simpl; rewrite <- app_assoc; reflexivity|].
        apply (@reported_app _ _ [GetBlock (blockHash log)] d []) in Hr.
        rewrite app_nil_r in Hr. exact Hr. }
    destruct H1 as (st1 & c1 & d1 & t & -> & Hg1 & Ht1 & Hr1).
    destruct (IH (fun l Hl => Hsub l (or_intror Hl)) c1 st1 Hg1)
      as (st' & c' & d2 & Hrun & Hg' & Ht2 & Hall).
    exists st', c', (d1 ++ d2). split; [exact Hrun|]. split; [exact Hg'|].
    split; [rewrite Ht2, Ht1, app_assoc; reflexivity|].
    intros l [<- | Hin].
    + exists t. apply (@reported_app _ _ [] d1 d2) in Hr1. exact Hr1.
    + destruct (Hall l Hin) as (t' & Hr').
      exists t'. apply (@reported_app _ _ d1 d2 []) in Hr'.
      rewrite app_nil_r in Hr'. exact Hr'.
Qed.

End NodeAnswers.

(** C4. Once the head and the logs of the window are fetched, and as long as
    the node answers the requests for the blocks of these logs, the cycle
    returns normally whatever the decoding, the transformation and the sink
    do with each log: every log of the window is reported in the trace, by
    its record handed to the sink or by the error that stopped it written to
    the console; the checkpoint is written once, as the last effect of the
    cycle, with the head queried at the start.  The write is not awaited:
    the store then holds that head, or what it held when it rejects the
    write, and the cycle returns normally either way.  (That the node
    answers is said of the worlds the cycle goes through: a set of worlds
    the state after the fetch is in, where the blocks of the logs are
    answered, and which the node and the sink do not leave.) *)
Theorem C4_failures_are_isolated_and_checkpoint_advances (Good : World -> Prop)
    (st st1 : State World) (latest : Z) (logs : list RawLog) :
  fetchLogs C config_contractAddress st = (st1, inr (latest, logs)) ->
  Good (world st1) ->
  (forall (w : World) (log : RawLog),
      Good w -> In log logs ->
      exists w' block,
        provider_getBlock C (blockHash log) w = (w', inr (Some block)) /\ Good w') ->
  (forall (w : World) (event : string) (eventData : Obj Value),
      Good w -> Good (fst (posthog_capture C event eventData w))) ->
  exists st' d,
    runEveryMinute C config_contractAddress eventParsingInstructions st = (st', inr tt)
    /\ trace st' =
         trace st1 ++ d ++ [StorageSet STORAGE_KEY_LAST_INGESTED_BLOCK_NUMBER latest]
    /\ checkpointWrites (trace st') = checkpointWrites (trace st) ++ [latest]
    /\ (storage st'
        = obj_set STORAGE_KEY_LAST_INGESTED_BLOCK_NUMBER latest (storage st)
        \/ storage st' = storage st)
    /\ ((forall w, Good w ->
           snd (storage_set_rejects C STORAGE_KEY_LAST_INGESTED_BLOCK_NUMBER latest w)
           = None) ->
        obj_get STORAGE_KEY_LAST_INGESTED_BLOCK_NUMBER (storage st') = Some latest)
    /\ forall log, In log logs ->
         exists t, reported C eventParsingInstructions t log d.
Proof.
  intros Hfetch Hgood Hblocks Hsink.
  destruct (fetchLogs_frame _ Hfetch) as (Hs0 & d0 & Ht0 & _ & Hc0).
  destruct (@processLogs_all_reported Good logs Hblocks Hsink logs (fun _ H => H) [] st1 Hgood)
    as (st2 & c2 & d & Hrun & Hg2 & Ht & Hall).
  destruct (processLogs_frame _ _ _ Hrun) as (Hs2 & _ & d' & Ht' & Hc').
  assert (d' = d) by (rewrite Ht in Ht'; apply app_inv_head in Ht'; congruence).
  subst d'.
  destruct (setLastIngestedBlockNumber C latest st2) as [st3 r3] eqn:Eset.
  destruct (setLastIngestedBlockNumber_spec _ _ Eset)
    as (-> & Ht3 & _ & w & rejected & Hrej & _ & Hs3).
  exists st3, d.
  unfold runEveryMinute, bind. rewrite Hfetch. simpl fst. simpl snd. rewrite Hrun.
  split; [exact Eset|].
  split; [rewrite Ht3, Ht, app_assoc; reflexivity|].
  split.
  { rewrite Ht3, Ht, Ht0, !checkpointWrites_app, Hc0, Hc'. simpl.
    rewrite !app_nil_r. reflexivity. }
  rewrite Hs2, Hs0 in Hs3.
  split; [destruct rejected; [right | left]; exact Hs3|].
  split; [|exact Hall].
  intros Hstore. specialize (Hstore _ Hg2). rewrite Hrej in Hstore. simpl in Hstore.
  subst rejected. rewrite Hs3. apply JsFacts.obj_get_set_eq.
Qed.



(** C9. The request for a block is made outside the [try]: when the node
    fails it, or answers [null], for a log whose hash the cache does not hold,
    the cycle throws at that point.  Nothing is done for that log or for the
    logs after it, the stored checkpoint is what it was, and no checkpoint is
    written. *)
Theorem C9_timestamp_failure_aborts_cycle (st st1 st2 : State World) (latest : Z)
    (before after : list RawLog) (log : RawLog) (blockTimestamps : Obj Z)
    (w : World) (answer : Result (option Block)) :
  fetchLogs C config_contractAddress st = (st1, inr (latest, before ++ log :: after)) ->
  processLogs C eventParsingInstructions before [] st1 = (st2, inr blockTimestamps) ->
  obj_get (blockHash log) blockTimestamps = None ->
  provider_getBlock C (blockHash log) (world st2) = (w, answer) ->
  (forall block, answer <> inr (Some block)) ->
  exists e,
    runEveryMinute C config_contractAddress eventParsingInstructions st
      = (setWorld w (addTrace [GetBlock (blockHash log)] st2), inl e)
    /\ (answer = inl e
        \/ answer = inr None
           /\ e = TypeError "Cannot read properties of null (reading 'timestamp')")
    /\ storage st2 = storage st
    /\ checkpointWrites (trace st2 ++ [GetBlock (blockHash log)])
       = checkpointWrites (trace st).
Proof.
  intros Hfetch Hbefore Hmiss Hnode Hfail.
  destruct (fetchLogs_frame _ Hfetch) as (Hs0 & d0 & Ht0 & _ & Hc0).
  destruct (processLogs_frame _ _ _ Hbefore) as (Hs1 & _ & d1 & Ht1 & Hc1).
  assert (Hturn : exists e,
             processLog C eventParsingInstructions blockTimestamps log st2
               = (setWorld w (addTrace [GetBlock (blockHash log)] st2), inl e)
             /\ (answer = inl e
                 \/ answer = inr None
                    /\ e = TypeError "Cannot read properties of null (reading 'timestamp')")).
  { unfold processLog, bind. rewrite resolveTimestamp_spec, Hmiss, Hnode. cbv zeta.
    destruct answer as [e|[block|]].
    - exists e. split; [reflexivity | left; reflexivity].
    - exfalso. exact (Hfail block eq_refl).
    - eexists. split; [reflexivity | right; split; reflexivity]. }
  destruct Hturn as (e & Hturn & Hanswer).
  exists e. split; [|split; [exact Hanswer|split]].
  - unfold runEveryMinute, bind. rewrite Hfetch. simpl fst. simpl snd.
    rewrite processLogs_app, Hbefore. simpl. unfold bind. rewrite Hturn. reflexivity.
  - congruence.
  - rewrite Ht1, Ht0, !checkpointWrites_app, Hc0, Hc1. simpl. rewrite !app_nil_r.
    reflexivity.
Qed.

(** ** More about [parseLog] *)

Lemma fold_keepNamed_keys (args : Obj Value) (keys : list string) :
  NoDup keys ->
  forall acc : Obj Value,
    obj_keys (fold_left (keepNamed args) keys acc) =
      obj_keys acc
        ++ filter (fun k => parseInt_isNaN k && negb (obj_has k acc)) keys.
Proof.
  induction keys as [|a keys IH]; intros Hnd acc; simpl.
  - rewrite app_nil_r. reflexivity.
  - inversion Hnd as [|? ? Hnotin Hnd']; subst.
    rewrite (IH Hnd'), keepNamed_eq.
    destruct (parseInt_isNaN a) eqn:Ea; simpl.
    + rewrite JsFacts.obj_keys_set.
      assert (Hext : filter (fun k => parseInt_isNaN k
                                      && negb (obj_has k (obj_set a (storedValue args a) acc)))
                            keys
                     = filter (fun k => parseInt_isNaN k && negb (obj_has k acc)) keys).
      { apply filter_ext_in. intros k Hin.
        assert (Hne : k <> a) by (intros ->; contradiction).
        unfold obj_has. rewrite JsFacts.obj_get_set_neq by assumption. reflexivity. }
      rewrite Hext.
      destruct (obj_has a acc); simpl; [reflexivity|].
      rewrite <- app_assoc. reflexivity.
    + reflexivity.
Qed.

(** X4. When the decoded result has each key once, as an object does, the
    argument mapping of [parseLog] has exactly the keys of the decoded result
    that are [NaN] for [parseInt], in the order of the decoded result, each
    with the decoded value (a [BigNumber] as its hexadecimal text). *)
Theorem X4_parseLog_keeps_order (log : RawLog) (parsedLog : ParsedLog) (args : Obj Value) :
  parseLog C log = inr (Some parsedLog) ->
  contractInterface_decodeEventLog C (eventFragment parsedLog) (data log) (topics log)
    = inr args ->
  NoDup (obj_keys args) ->
  namedArgs parsedLog
  = map (fun k => (k, storedValue args k)) (filter parseInt_isNaN (obj_keys args)).
Proof.
  intros Hparse Hdec Hnd.
  assert (Hargs : namedArgs parsedLog = fold_left (keepNamed args) (obj_keys args) []).
  { revert Hparse Hdec. unfold parseLog, rbind.
    destruct (contractInterface_getEvent C (hd_error (topics log))) as [e|[fragment|]];
      [discriminate| |discriminate].
    destruct (anonymous fragment); [discriminate|].
    destruct (contractInterface_decodeEventLog C fragment (data log) (topics log))
      as [e|args'] eqn:Ed; [discriminate|].
    intros [= <-]. simpl. rewrite Ed. intros [= ->]. reflexivity. }
  assert (Hkeys : obj_keys (namedArgs parsedLog) = filter parseInt_isNaN (obj_keys args)).
  { rewrite Hargs, (fold_keepNamed_keys args Hnd). simpl.
    apply filter_ext. intros k. apply andb_true_r. }
  assert (Hgen : forall o : Obj Value,
             (forall k v, In (k, v) o -> v = storedValue args k) ->
             o = map (fun k => (k, storedValue args k)) (obj_keys o)).
  { induction o as [|[k v] o IH]; intros Hall; simpl; [reflexivity|].
    rewrite <- (Hall k v (or_introl eq_refl)). f_equal.
    apply IH. intros k' v' Hin. apply Hall. right. exact Hin. }
  rewrite <- Hkeys. apply Hgen.
  intros k v Hin.
  pose proof (parseLog_NoDup _ Hparse) as Hnd'.
  pose proof (@JsFacts.obj_get_In _ _ _ _ Hnd' Hin) as Hget.
  rewrite Hargs, fold_keepNamed_get in Hget. simpl in Hget.
  destruct (existsb (String.eqb k) (obj_keys args) && parseInt_isNaN k);
    [congruence | discriminate].
Qed.

(** X5. An argument whose name starts like a Solidity identifier is never
    lost: it is in the argument mapping under its name, with the decoded
    value if that is a string, a boolean or a number, and with the
    hexadecimal text if it is a [BigNumber]. *)
Theorem X5_parseLog_keeps_identifier_names (log : RawLog) (parsedLog : ParsedLog)
    (args : Obj Value) (k : string) (v : Value) :
  parseLog C log = inr (Some parsedLog) ->
  contractInterface_decodeEventLog C (eventFragment parsedLog) (data log) (topics log)
    = inr args ->
  obj_get k args = Some v ->
  Names.isIdentifier k = true ->
  obj_get k (namedArgs parsedLog)
  = Some (match v with
          | VBigNumber n => VString (Ethers.toHexString n)
          | _ => v
          end).
Proof.
  intros Hparse Hdec Hget Hid.
  destruct (parseLog_inv _ Hparse) as (fragment & args' & Hev & _ & Hdec' & _ & Hargs).
  assert (Hfrag : eventFragment parsedLog = fragment).
  { revert Hparse. unfold parseLog, rbind. rewrite Hev.
    destruct (anonymous fragment); [discriminate|].
    rewrite Hdec'. intros [= <-]. reflexivity. }
  rewrite Hfrag, Hdec' in Hdec. injection Hdec as ->.
  rewrite Hargs, fold_keepNamed_get.
  rewrite (JsFacts.parseInt_identifier _ Hid), andb_true_r.
  assert (Hex : existsb (String.eqb k) (obj_keys args) = true).
  { apply existsb_exists. exists k. split; [|apply String.eqb_refl].
    apply JsFacts.obj_get_Some_In in Hget. apply (in_map fst) in Hget. exact Hget. }
  rewrite Hex. unfold storedValue. rewrite Hget. destruct v; reflexivity.
Qed.

(** X6. When looking up the event or decoding the log throws, the turn of
    the loop writes that very error to the console, hands nothing to the
    sink and does not throw. *)
Theorem X6_decode_failure_is_logged (blockTimestamp : Z) (log : RawLog) (e : Exn)
    (st : State World) :
  (contractInterface_getEvent C (hd_error (topics log)) = inl e
   \/ exists fragment,
        contractInterface_getEvent C (hd_error (topics log)) = inr (Some fragment)
        /\ anonymous fragment = false
        /\ contractInterface_decodeEventLog C fragment (data log) (topics log) = inl e) ->
  tryCatch (tryBody C eventParsingInstructions blockTimestamp log)
           (fun error => emit (LogError error)) st
  = (addTrace [LogError e] st, inr tt).
Proof.
  intros H. rewrite guarded_spec.
  assert (Hp : parseLog C log = inl e).
  { unfold parseLog, rbind.
    destruct H as [-> | (fragment & -> & -> & ->)]; reflexivity. }
  unfold recordOf, rbind. rewrite Hp. reflexivity.
Qed.

(** X7. Every record handed to the sink has each of its keys once and starts
    with the three base fields, in the order [$timestamp], [blockNumber],
    [blockHash]; the arguments and [distinct_id] come after them. *)
Theorem X7_record_starts_with_base_fields (blockTimestamp : Z) (log : RawLog)
    (parsedLog : ParsedLog) (eventData : Obj Value) :
  buildEventData C eventParsingInstructions blockTimestamp log parsedLog = inr eventData ->
  NoDup (obj_keys eventData)
  /\ exists rest,
       obj_keys eventData
       = "$timestamp"%string :: "blockNumber"%string :: "blockHash"%string :: rest.
Proof.
  intros Hbuild.
  assert (Hbase : NoDup ["$timestamp"%string; "blockNumber"%string; "blockHash"%string]).
  { repeat constructor; simpl; intuition discriminate. }
  destruct (@obj_spread_keys Value (namedArgs parsedLog)
              [("$timestamp"%string, VNumber blockTimestamp);
               ("blockNumber"%string, VNumber (blockNumber log));
               ("blockHash"%string, VString (blockHash log))] Hbase)
    as (Hnd0 & rest0 & Hrest0).
  fold (seedEventData blockTimestamp log (namedArgs parsedLog)) in Hnd0, Hrest0.
  apply buildEventData_as_fold in Hbuild. destruct Hbuild as (instr & Hbuild & _).
  destruct (@foldR_applyInstruction_keys _ _ _ _ _ Hnd0 Hbuild) as (Hnd & rest & Hrest).
  split; [exact Hnd|].
  exists (rest0 ++ rest). rewrite Hrest, Hrest0. reflexivity.
Qed.

(** X8. A record has no [distinct_id] when no argument is called
    [distinct_id] and no argument of the event is marked [isDistinctId]. *)
Theorem X8_no_distinct_id_unless_marked (blockTimestamp : Z) (log : RawLog)
    (parsedLog : ParsedLog) (eventData : Obj Value) :
  ~ In "distinct_id"%string (obj_keys (namedArgs parsedLog)) ->
  (forall k ai, In k (obj_keys (namedArgs parsedLog)) ->
      instructionFor eventParsingInstructions (parsedName parsedLog) k = Some ai ->
      isDistinctId ai = false) ->
  buildEventData C eventParsingInstructions blockTimestamp log parsedLog = inr eventData ->
  obj_get "distinct_id" eventData = None.
Proof.
  intros Hname Hmarks Hbuild.
  assert (Hseed : obj_get "distinct_id" (seedEventData blockTimestamp log (namedArgs parsedLog))
                  = None).
  { unfold seedEventData. rewrite (@obj_spread_get_notin _ _ _ _ Hname). reflexivity. }
  apply buildEventData_as_fold in Hbuild. destruct Hbuild as (instr & Hbuild & Hinstr).
  rewrite (@foldR_applyInstruction_untouched (namedArgs parsedLog) instr
             "distinct_id"%string (obj_keys (namedArgs parsedLog))) with (2 := Hbuild);
    [exact Hseed|].
  intros k ai Hin Hk. split.
  - intros ->. contradiction.
  - intros Hflag. destruct (Hinstr k) as [Heq | [_ Heq]]; rewrite Hk in Heq.
    + symmetry in Heq. rewrite (Hmarks k ai Hin Heq) in Hflag. discriminate.
    + injection Heq as ->. discriminate.
Qed.

(** X9. Every decoded argument not called [distinct_id] is in the record
    under its own name with the value it is emitted with: the decoded value
    when the table has no instruction for it, the coerced one otherwise. *)
Theorem X9_argument_under_own_name (blockTimestamp : Z) (log : RawLog)
    (parsedLog : ParsedLog) (k : string) (v : Value) (eventData : Obj Value) :
  parseLog C log = inr (Some parsedLog) ->
  obj_get k (namedArgs parsedLog) = Some v ->
  k <> "distinct_id"%string ->
  buildEventData C eventParsingInstructions blockTimestamp log parsedLog = inr eventData ->
  exists v',
    emittedValue C eventParsingInstructions (parsedName parsedLog) k v = inr v'
    /\ obj_get k eventData = Some v'.
Proof.
  intros Hparse Hget Hk Hbuild.
  pose proof (parseLog_NoDup _ Hparse) as Hnd.
  assert (Hseed : obj_get k (seedEventData blockTimestamp log (namedArgs parsedLog)) = Some v).
  { unfold seedEventData. rewrite (@obj_spread_get _ _ Hnd), Hget. reflexivity. }
  unfold emittedValue.
  apply buildEventData_as_fold in Hbuild. destruct Hbuild as (instr & Hbuild & Hinstr).
  assert (Hin : In k (obj_keys (namedArgs parsedLog))).
  { apply JsFacts.obj_get_Some_In in Hget. apply (in_map fst) in Hget. exact Hget. }
  pose proof (@foldR_applyInstruction_own_field (namedArgs parsedLog) instr _ k _ _
                Hnd Hin Hk Hbuild) as Hown.
  assert (Hprop : prop (namedArgs parsedLog) k = v) by (unfold prop; rewrite Hget; reflexivity).
  destruct (Hinstr k) as [Heq | [Hnone Heq]].
  - rewrite <- Heq. destruct (obj_get k instr) as [argInstruction|].
    + destruct Hown as (argValue & Hco & Hrec). rewrite Hprop in Hco.
      exists argValue. split; assumption.
    + exists v. split; [reflexivity | congruence].
  - rewrite Hnone. rewrite Heq in Hown.
    destruct Hown as (argValue & Hco & Hrec). rewrite Hprop in Hco. simpl in Hco.
    exists argValue. split; [exact Hco | exact Hrec].
Qed.

(** X10. A base field no argument is called like holds what the log says:
    the timestamp of its block, its block number, its block hash. *)
Theorem X10_base_fields_of_the_log (blockTimestamp : Z) (log : RawLog)
    (parsedLog : ParsedLog) (eventData : Obj Value) :
  buildEventData C eventParsingInstructions blockTimestamp log parsedLog = inr eventData ->
  (~ In "$timestamp"%string (obj_keys (namedArgs parsedLog)) ->
   obj_get "$timestamp" eventData = Some (VNumber blockTimestamp))
  /\ (~ In "blockNumber"%string (obj_keys (namedArgs parsedLog)) ->
      obj_get "blockNumber" eventData = Some (VNumber (blockNumber log)))
  /\ (~ In "blockHash"%string (obj_keys (namedArgs parsedLog)) ->
      obj_get "blockHash" eventData = Some (VString (blockHash log))).
Proof.
  intros Hbuild.
  assert (Hfield : forall key,
             key <> "distinct_id"%string ->
             ~ In key (obj_keys (namedArgs parsedLog)) ->
             obj_get key eventData
             = obj_get key [("$timestamp"%string, VNumber blockTimestamp);
                            ("blockNumber"%string, VNumber (blockNumber log));
                            ("blockHash"%string, VString (blockHash log))]).
  { intros key Hkey Hnotin.
    assert (Hseed : obj_get key (seedEventData blockTimestamp log (namedArgs parsedLog))
                    = obj_get key [("$timestamp"%string, VNumber blockTimestamp);
                                   ("blockNumber"%string, VNumber (blockNumber log));
                                   ("blockHash"%string, VString (blockHash log))]).
    { unfold seedEventData. apply obj_spread_get_notin. exact Hnotin. }
    apply buildEventData_as_fold in Hbuild. destruct Hbuild as (instr & Hbuild & _).
    rewrite (@foldR_applyInstruction_untouched (namedArgs parsedLog) instr
               key (obj_keys (namedArgs parsedLog))) with (2 := Hbuild);
      [exact Hseed|].
    intros k ai Hin _. split; [intros ->; contradiction | intros _; exact Hkey]. }
  split; [|split]; intros Hnotin;
    (rewrite Hfield; [reflexivity | discriminate | exact Hnotin]).
Qed.

Lemma foldR_applyInstruction_fails (args : Obj Value) (instr : Obj ArgInstruction)
    (k : string) (ai : ArgInstruction) (e : Exn) (argNames : list string) :
  In k argNames ->
  obj_get k instr = Some ai ->
  coerce C (argType ai) (prop args k) = inl e ->
  forall eventData,
    exists e', foldR (applyInstruction C args instr) argNames eventData = inl e'.
Proof.
  intros Hin Hk Hco.
  induction argNames as [|a argNames IH]; [contradiction|].
  intros eventData. simpl. unfold rbind.
  destruct (applyInstruction C args instr eventData a) as [e'|eventData1] eqn:Estep;
    [exists e'; reflexivity|].
  destruct Hin as [->|Hin]; [|apply IH; exact Hin].
  exfalso. unfold applyInstruction, rbind in Estep. rewrite Hk, Hco in Estep.
  discriminate.
Qed.

(** X11. When the coercion of one argument throws, no record is built for
    the log: the turn writes an error to the console, hands nothing to the
    sink, and the arguments that could be coerced are lost with it. *)
Theorem X11_failed_coercion_drops_the_log (blockTimestamp : Z) (log : RawLog)
    (parsedLog : ParsedLog) (k : string) (ai : ArgInstruction) (e : Exn)
    (st : State World) :
  parseLog C log = inr (Some parsedLog) ->
  In k (obj_keys (namedArgs parsedLog)) ->
  instructionFor eventParsingInstructions (parsedName parsedLog) k = Some ai ->
  coerce C (argType ai) (prop (namedArgs parsedLog) k) = inl e ->
  exists e',
    buildEventData C eventParsingInstructions blockTimestamp log parsedLog = inl e'
    /\ tryCatch (tryBody C eventParsingInstructions blockTimestamp log)
                (fun error => emit (LogError error)) st
       = (addTrace [LogError e'] st, inr tt).
Proof.
  intros Hparse Hin Hinstr Hco.
  destruct (instructionFor_inv _ _ Hinstr) as (instructions & instr & Hi & He & Ha).
  destruct (@foldR_applyInstruction_fails _ _ _ _ _ _ Hin Ha Hco
              (seedEventData blockTimestamp log (namedArgs parsedLog))) as (e' & Hfail).
  exists e'.
  assert (Hb : buildEventData C eventParsingInstructions blockTimestamp log parsedLog
               = inl e').
  { rewrite (buildEventData_with_instructions _ _ _ Hi He). exact Hfail. }
  split; [exact Hb|].
  rewrite guarded_spec. unfold recordOf, rbind. rewrite Hparse, Hb. reflexivity.
Qed.

(** X12. Under [argType: 'number'] the hexadecimal text of an integer below
    [2 ^ 53] in absolute value becomes that number; for any other integer
    the coercion throws. *)
Theorem X12_number_is_exact_or_throws (n : Z) :
  coerce C (Some "number"%string) (VString (Ethers.toHexString n))
  = if (Z.abs n <? 2 ^ 53)%Z then inr (VNumber n)
    else inl (EthersError "NUMERIC_FAULT").
Proof.
  unfold coerce. simpl String.eqb. cbv iota.
  rewrite EthersFacts.BigNumber_from_toHexString. reflexivity.
Qed.

(** X13. Under [argType: 'eth'] two different amounts never give the same
    text. *)
Theorem X13_eth_text_tells_amounts_apart (a b : Z) :
  a <> b ->
  coerce C (Some "eth"%string) (VString (Ethers.toHexString a))
  <> coerce C (Some "eth"%string) (VString (Ethers.toHexString b)).
Proof.
  intros Hne. unfold coerce. simpl String.eqb. cbv iota.
  rewrite !EthersFacts.BigNumber_from_toHexString. simpl.
  intros [= Heq]. apply Hne.
  destruct (@EthersFacts.formatFixed_denotes a 18 ltac:(lia)) as (ma & ka & Ha & _ & Hma).
  destruct (@EthersFacts.formatFixed_denotes b 18 ltac:(lia)) as (mb & kb & Hb & _ & Hmb).
  fold (Ethers.formatEther a) in Ha. fold (Ethers.formatEther b) in Hb.
  rewrite Heq, Hb in Ha. injection Ha as <- <-. congruence.
Qed.

(** ** More about the cycle *)

(** Whether the arguments can all be coerced does not depend on the record
    they are written into. *)
Lemma foldR_applyInstruction_start (args : Obj Value) (instr : Obj ArgInstruction)
    (argNames : list string) :
  forall eventData1 eventData2,
    match foldR (applyInstruction C args instr) argNames eventData1,
          foldR (applyInstruction C args instr) argNames eventData2 with
    | inl e1, inl e2 => e1 = e2
    | inr _, inr _ => True
    | _, _ => False
    end.
Proof.
  induction argNames as [|a argNames IH]; intros eventData1 eventData2; simpl; [exact I|].
  unfold rbind.
  destruct (applyInstruction C args instr eventData1 a) as [e1|d1] eqn:E1;
    destruct (applyInstruction C args instr eventData2 a) as [e2|d2] eqn:E2;
    unfold applyInstruction, rbind in E1, E2;
    destruct (obj_get a instr) as [ai|];
    try destruct (coerce C (argType ai) (prop args a));
    try congruence; apply IH.
Qed.

Lemma foldR_applyInherited_start (args : Obj Value) (member : string -> Inherited)
    (argNames : list string) :
  forall eventData1 eventData2,
    match foldR (applyInherited args member) argNames eventData1,
          foldR (applyInherited args member) argNames eventData2 with
    | inl e1, inl e2 => e1 = e2
    | inr _, inr _ => True
    | _, _ => False
    end.
Proof.
  induction argNames as [|a argNames IH]; intros eventData1 eventData2; simpl; [exact I|].
  unfold rbind, applyInherited.
  destruct (member a); [apply IH | apply IH | reflexivity].
Qed.

(** Whether a log gives a record, under which event name, and the error if
    it gives none, do not depend on the timestamp of its block. *)
Lemma recordOf_timestamp (log : RawLog) (t1 t2 : Z) :
  match recordOf C eventParsingInstructions t1 log,
        recordOf C eventParsingInstructions t2 log with
  | inl e1, inl e2 => e1 = e2
  | inr (event1, _), inr (event2, _) => event1 = event2
  | _, _ => False
  end.
Proof.
  unfold recordOf, rbind.
  destruct (parseLog C log) as [e|[parsedLog|]]; try reflexivity.
  unfold buildEventData.
  destruct eventParsingInstructions as [instructions|]; [|reflexivity].
  destruct (obj_get (parsedName parsedLog) instructions) as [instr|].
  - pose proof (foldR_applyInstruction_start (namedArgs parsedLog) instr
                  (obj_keys (namedArgs parsedLog))
                  (seedEventData t1 log (namedArgs parsedLog))
                  (seedEventData t2 log (namedArgs parsedLog))) as H.
    destruct (foldR _ _ (seedEventData t1 log (namedArgs parsedLog)));
      destruct (foldR _ _ (seedEventData t2 log (namedArgs parsedLog)));
      try contradiction; [exact H | reflexivity].
  - destruct (Object_prototype C (parsedName parsedLog)) as [member|]; [|reflexivity].
    pose proof (foldR_applyInherited_start (namedArgs parsedLog) member
                  (obj_keys (namedArgs parsedLog))
                  (seedEventData t1 log (namedArgs parsedLog))
                  (seedEventData t2 log (namedArgs parsedLog))) as H.
    destruct (foldR _ _ (seedEventData t1 log (namedArgs parsedLog)));
      destruct (foldR _ _ (seedEventData t2 log (namedArgs parsedLog)));
      try contradiction; [exact H | reflexivity].
Qed.

(** The sink is called once for a log that gives a record, and not at all
    for another. *)
Lemma guarded_captures (blockTimestamp : Z) (log : RawLog) (st : State World) :
  exists st' d,
    tryCatch (tryBody C eventParsingInstructions blockTimestamp log)
             (fun error => emit (LogError error)) st = (st', inr tt)
    /\ trace st' = trace st ++ d
    /\ captures d =
         match recordOf C eventParsingInstructions blockTimestamp log with
         | inr r => [r]
         | inl _ => []
         end
    /\ reported C eventParsingInstructions blockTimestamp log d.
Proof.
  rewrite guarded_spec. unfold reported.
  destruct (recordOf C eventParsingInstructions blockTimestamp log) as [e|[event eventData]].
  - eexists _, [LogError e]. repeat split. left. reflexivity.
  - destruct (posthog_capture C event eventData (world st)) as [w [e|[]]].
    + eexists _, [Capture event eventData; LogError e].
      split; [reflexivity|]. simpl. rewrite <- app_assoc. simpl.
      repeat split. left. reflexivity.
    + eexists _, [Capture event eventData]. repeat split. left. reflexivity.
Qed.

(** A turn that does not throw: the cache holds the timestamp the log was
    processed with under the hash of its block, and keeps what it held. *)
Lemma processLog_turn (blockTimestamps blockTimestamps' : Obj Z) (log : RawLog)
    (st st' : State World) :
  processLog C eventParsingInstructions blockTimestamps log st
    = (st', inr blockTimestamps') ->
  exists t d,
    obj_get (blockHash log) blockTimestamps' = Some t
    /\ (forall h t', obj_get h blockTimestamps = Some t' ->
          obj_get h blockTimestamps' = Some t')
    /\ trace st' = trace st ++ d
    /\ captures d =
         match recordOf C eventParsingInstructions t log with
         | inr r => [r]
         | inl _ => []
         end
    /\ reported C eventParsingInstructions t log d.
Proof.
  unfold processLog, bind. rewrite resolveTimestamp_spec.
  destruct (obj_get (blockHash log) blockTimestamps) as [t|] eqn:Ec.
  - simpl fst. simpl snd.
    destruct (guarded_captures t log st) as (st1 & d & -> & Ht & Hc & Hr).
    unfold ret. intros [= <- <-].
    exists t, d. repeat split; auto.
  - cbv zeta.
    destruct (provider_getBlock C (blockHash log) (world st)) as [w [e|[block|]]] eqn:Eb;
      [discriminate| |discriminate].
    simpl fst. simpl snd.
    destruct (guarded_captures (timestamp block) log
                (setWorld w (addTrace [GetBlock (blockHash log)] st)))
      as (st1 & d & -> & Ht & Hc & Hr).
    unfold ret. intros [= <- <-].
    exists (timestamp block), (GetBlock (blockHash log) :: d).
    split; [apply JsFacts.obj_get_set_eq|]. split.
    + intros h t' Hh. rewrite JsFacts.obj_get_set_neq; [exact Hh | congruence].
    + split; [rewrite Ht; simpl; rewrite <- app_assoc; reflexivity|].
      split; [exact Hc|].
      apply (@reported_app _ _ [GetBlock (blockHash log)] d []) in Hr.
      rewrite app_nil_r in Hr. exact Hr.
Qed.

Lemma processLogs_turns (logs : list RawLog) :
  forall (blockTimestamps blockTimestamps' : Obj Z) (st st' : State World),
    processLogs C eventParsingInstructions logs blockTimestamps st
      = (st', inr blockTimestamps') ->
    exists d,
      trace st' = trace st ++ d
      /\ (forall h t, obj_get h blockTimestamps = Some t ->
            obj_get h blockTimestamps' = Some t)
      /\ map fst (captures d) =
           flat_map (fun log =>
                       match recordOf C eventParsingInstructions 0 log with
                       | inr (event, _) => [event]
                       | inl _ => []
                       end) logs
      /\ (forall log, In log logs ->
            exists t, obj_get (blockHash log) blockTimestamps' = Some t
                      /\ reported C eventParsingInstructions t log d).
Proof.
  induction logs as [|log logs IH]; intros c c' st st'; simpl.
  - unfold ret. intros [= <- <-]. exists []. rewrite app_nil_r.
    repeat split; auto. intros log [].
  - unfold bind.
    destruct (processLog C eventParsingInstructions c log st) as [st1 [e|c1]] eqn:E1;
      [discriminate|].
    intros H2.
    destruct (@processLog_turn _ _ _ _ _ E1) as (t & d1 & Hc1 & Hkeep1 & Ht1 & Hcap1 & Hr1).
    destruct (IH _ _ _ _ H2) as (d2 & Ht2 & Hkeep2 & Hcap2 & Hall2).
    exists (d1 ++ d2).
    split; [rewrite Ht2, Ht1, app_assoc; reflexivity|].
    split; [intros h t' Hh; apply Hkeep2, Hkeep1, Hh|].
    split.
    + rewrite captures_app, map_app, Hcap2, Hcap1. f_equal.
      pose proof (recordOf_timestamp log t 0) as Hsame.
      destruct (recordOf C eventParsingInstructions t log) as [e1|[event1 data1]];
        destruct (recordOf C eventParsingInstructions 0 log) as [e2|[event2 data2]];
        try contradiction; [reflexivity | simpl; congruence].
    + intros l [<- | Hin].
      * exists t. split; [apply Hkeep2, Hc1|].
        apply (@reported_app _ _ [] d1 d2) in Hr1. exact Hr1.
      * destruct (Hall2 l Hin) as (t' & Hc' & Hr').
        exists t'. split; [exact Hc'|].
        apply (@reported_app _ _ d1 d2 []) in Hr'. rewrite app_nil_r in Hr'. exact Hr'.
Qed.

Lemma loggedErrors_app (a b : list Effect) :
  loggedErrors (a ++ b) = loggedErrors a ++ loggedErrors b.
Proof.
  induction a as [|[] a IH]; simpl; try exact IH; [reflexivity|].
  rewrite IH. reflexivity.
Qed.

Lemma fetchLogs_captures (st st1 : State World) (r : Result (Z * list RawLog)) :
  fetchLogs C config_contractAddress st = (st1, r) ->
  exists d, trace st1 = trace st ++ d /\ captures d = [] /\ loggedErrors d = [].
Proof.
  rewrite fetchLogs_spec.
  destruct (provider_getBlockNumber C (world st)) as [w [e|latest]].
  - intros [= <- <-]. exists []. simpl. rewrite app_nil_r. repeat split.
  - destruct (storage_get_rejects C STORAGE_KEY_LAST_INGESTED_BLOCK_NUMBER w)
      as [w0 [e|]].
    { intros [= <- <-]. exists []. simpl. rewrite app_nil_r. repeat split. }
    cbv zeta.
    destruct (provider_getLogs C config_contractAddress _ latest w0) as [w' [e|logs]];
      intros [= <- <-]; simpl; rewrite <- app_assoc; eexists; (split; [reflexivity|]);
      rewrite captures_app, loggedErrors_app; simpl;
      destruct (_ - _ >? 1000)%Z; split; reflexivity.
Qed.

Lemma warnings_app (a b : list Effect) :
  warnings (a ++ b) = warnings a ++ warnings b.
Proof.
  induction a as [|[] a IH]; simpl; try exact IH; [reflexivity|].
  rewrite IH. reflexivity.
Qed.

(** The loop over the logs warns of nothing and asks for no window. *)
Lemma guarded_quiet (blockTimestamp : Z) (log : RawLog) (st st' : State World)
    (r : Result unit) :
  tryCatch (tryBody C eventParsingInstructions blockTimestamp log)
           (fun error => emit (LogError error)) st = (st', r) ->
  exists d, trace st' = trace st ++ d /\ warnings d = [] /\ windows d = [].
Proof.
  rewrite guarded_spec.
  destruct (recordOf C eventParsingInstructions blockTimestamp log) as [e|[event eventData]].
  - intros [= <- <-]. exists [LogError e]. repeat split.
  - destruct (posthog_capture C event eventData (world st)) as [w [e|u]];
      intros [= <- <-].
    + exists [Capture event eventData; LogError e].
      simpl. rewrite <- app_assoc. repeat split.
    + exists [Capture event eventData]. repeat split.
Qed.

Lemma processLog_quiet (blockTimestamps : Obj Z) (log : RawLog) (st st' : State World)
    (r : Result (Obj Z)) :
  processLog C eventParsingInstructions blockTimestamps log st = (st', r) ->
  exists d, trace st' = trace st ++ d /\ warnings d = [] /\ windows d = [].
Proof.
  unfold processLog, bind. rewrite resolveTimestamp_spec.
  destruct (obj_get (blockHash log) blockTimestamps) as [t|].
  - simpl fst. simpl snd.
    destruct (tryCatch _ _ st) as [st1 r1] eqn:E.
    destruct (guarded_quiet _ _ _ E) as (d & Ht & Hw & Hn).
    destruct r1 as [e|u]; intros [= <- <-]; exists d; repeat split; assumption.
  - cbv zeta.
    destruct (provider_getBlock C (blockHash log) (world st)) as [w [e|[block|]]].
    + intros [= <- <-]. exists [GetBlock (blockHash log)]. repeat split.
    + simpl fst. simpl snd.
      destruct (tryCatch _ _ (setWorld w (addTrace [GetBlock (blockHash log)] st)))
        as [st1 r1] eqn:E.
      destruct (guarded_quiet _ _ _ E) as (d & Ht & Hw & Hn).
      simpl in Ht. rewrite <- app_assoc in Ht.
      destruct r1 as [e|u]; intros [= <- <-];
        exists (GetBlock (blockHash log) :: d); repeat split; assumption.
    + intros [= <- <-]. exists [GetBlock (blockHash log)]. repeat split.
Qed.

Lemma processLogs_quiet (logs : list RawLog) :
  forall (blockTimestamps : Obj Z) (st st' : State World) (r : Result (Obj Z)),
    processLogs C eventParsingInstructions logs blockTimestamps st = (st', r) ->
    exists d, trace st' = trace st ++ d /\ warnings d = [] /\ windows d = [].
Proof.
  induction logs as [|log logs IH]; intros blockTimestamps st st' r; simpl.
  - unfold ret. intros [= <- <-]. exists []. rewrite app_nil_r. repeat split.
  - unfold bind.
    destruct (processLog C eventParsingInstructions blockTimestamps log st)
      as [st1 r1] eqn:E1.
    destruct (processLog_quiet _ _ _ E1) as (d1 & Ht1 & Hw1 & Hn1).
    destruct r1 as [e|c1].
    + intros [= <- <-]. exists d1. repeat split; assumption.
    + intros H2. destruct (IH _ _ _ _ H2) as (d2 & Ht2 & Hw2 & Hn2).
      exists (d1 ++ d2).
      rewrite Ht2, Ht1, app_assoc, warnings_app, windows_app, Hw1, Hw2, Hn1, Hn2.
      repeat split.
Qed.


(** X14. When the query for the head throws, the cycle throws the same
    error and has done nothing else: no log is asked for, nothing is written
    to the console or to storage, and [global.blockNumberToIngestFrom] is as
    it was. *)
Theorem X14_head_failure_does_nothing (st : State World) (w : World) (e : Exn) :
  provider_getBlockNumber C (world st) = (w, inl e) ->
  runEveryMinute C config_contractAddress eventParsingInstructions st
  = (setWorld w st, inl e).
Proof.
  intros Hhead. unfold runEveryMinute, bind.
  rewrite fetchLogs_spec, Hhead. reflexivity.
Qed.

(** X15. When the head is known, the checkpoint is read and the fetch of the
    logs of the window throws, the cycle throws the same error: it has asked
    for exactly that window, has asked for no block, has handed nothing to
    the sink, and the stored checkpoint is untouched, so the next cycle
    measures its lag against the same checkpoint.  Only the one request the
    cycle makes is taken to fail. *)
Theorem X15_log_fetch_failure_leaves_checkpoint (st : State World) (w w0 w' : World)
    (latest : Z) (fromBlock : option Z) (e : Exn) :
  provider_getBlockNumber C (world st) = (w, inr latest) ->
  storage_get_rejects C STORAGE_KEY_LAST_INGESTED_BLOCK_NUMBER w = (w0, None) ->
  fromBlock
  = (if (latest - match obj_get STORAGE_KEY_LAST_INGESTED_BLOCK_NUMBER (storage st) with
                  | Some n => n
                  | None => latest
                  end >? 1000)%Z
     then Some (latest - 1000)%Z else blockNumberToIngestFrom st) ->
  provider_getLogs C config_contractAddress fromBlock latest w0 = (w', inl e) ->
  exists st' d,
    runEveryMinute C config_contractAddress eventParsingInstructions st = (st', inl e)
    /\ storage st' = storage st
    /\ trace st' = trace st ++ d
    /\ windows d = [(fromBlock, latest)]
    /\ captures d = []
    /\ checkpointWrites d = []
    /\ forall h, fetches h d = O.
Proof.
  intros Hhead Hread -> Hlogs.
  unfold runEveryMinute, bind. rewrite fetchLogs_spec, Hhead, Hread. cbv zeta.
  rewrite Hlogs.
  eexists _, _. split; [reflexivity|]. split; [reflexivity|].
  split; [simpl; rewrite <- app_assoc; reflexivity|].
  rewrite windows_app, captures_app, checkpointWrites_app. simpl.
  destruct (_ - _ >? 1000)%Z; repeat split; intros h; rewrite fetches_app; reflexivity.
Qed.

(** X16. A cycle whose head is more than 1000 blocks past the stored
    checkpoint warns once, naming the checkpoint and the head, before it
    asks for its one window, from the head less 1000; it warns of nothing
    else and asks for no other window, and it leaves that start in
    [global.blockNumberToIngestFrom] when it ends, whether it ends normally
    or throws. *)
Theorem X16_lagging_cycle_warns_and_clamps (st st' : State World) (w w0 : World)
    (latest last : Z) (r : Result unit) :
  provider_getBlockNumber C (world st) = (w, inr latest) ->
  storage_get_rejects C STORAGE_KEY_LAST_INGESTED_BLOCK_NUMBER w = (w0, None) ->
  obj_get STORAGE_KEY_LAST_INGESTED_BLOCK_NUMBER (storage st) = Some last ->
  (latest - last > 1000)%Z ->
  runEveryMinute C config_contractAddress eventParsingInstructions st = (st', r) ->
  blockNumberToIngestFrom st' = Some (latest - 1000)%Z
  /\ exists d,
       trace st' =
         trace st
           ++ Warn last latest
              :: GetLogs config_contractAddress (Some (latest - 1000)%Z) latest :: d
       /\ warnings d = []
       /\ windows d = []
       /\ warnings (Warn last latest
                      :: GetLogs config_contractAddress (Some (latest - 1000)%Z) latest :: d)
          = [(last, latest)].
Proof.
  intros Hhead Hread Hlast Hlag. unfold runEveryMinute, bind.
  rewrite fetchLogs_spec, Hhead, Hread, Hlast. cbv zeta.
  destruct (Z.gtb_spec (latest - last) 1000) as [_|Hno]; [|lia].
  assert (Hend : forall d, warnings d = [] ->
            warnings (Warn last latest
                        :: GetLogs config_contractAddress (Some (latest - 1000)%Z) latest
                        :: d) = [(last, latest)]).
  { intros d Hd. simpl. rewrite Hd. reflexivity. }
  destruct (provider_getLogs C config_contractAddress (Some (latest - 1000)%Z) latest w0)
    as [w' [e|logs]].
  - intros [= <- <-]. split; [reflexivity|].
    exists []. simpl. rewrite <- app_assoc. repeat split.
  - simpl fst. simpl snd.
    destruct (processLogs C eventParsingInstructions logs [] _) as [st2 r2] eqn:Erun.
    destruct (processLogs_frame _ _ _ Erun) as (_ & Hg & _).
    destruct (processLogs_quiet _ _ _ Erun) as (d & Ht & Hw & Hn).
    simpl in Hg, Ht. rewrite <- !app_assoc in Ht. simpl in Ht.
    destruct r2 as [e|c2].
    + intros [= <- <-]. split; [exact Hg|]. exists d.
      split; [exact Ht|]. split; [exact Hw|]. split; [exact Hn | apply Hend, Hw].
    + intros Hset.
      destruct (setLastIngestedBlockNumber_spec _ _ Hset) as (_ & Ht3 & Hg3 & _).
      split; [rewrite Hg3; exact Hg|].
      exists (d ++ [StorageSet STORAGE_KEY_LAST_INGESTED_BLOCK_NUMBER latest]).
      assert (Hw' : warnings (d ++ [StorageSet STORAGE_KEY_LAST_INGESTED_BLOCK_NUMBER latest])
                    = []) by (rewrite warnings_app, Hw; reflexivity).
      split; [rewrite Ht3, Ht, <- app_assoc; reflexivity|].
      split; [exact Hw'|].
      split; [rewrite windows_app, Hn; reflexivity | apply Hend, Hw'].
Qed.

(** X17. A cycle with no stored checkpoint (a first run), or whose head is
    at most 1000 blocks past the checkpoint, writes no warning at all, asks
    for its one window from whatever [global.blockNumberToIngestFrom] holds,
    and leaves that property as it found it. *)
Theorem X17_cycle_in_step_does_not_clamp (st st' : State World) (w w0 : World)
    (latest : Z) (r : Result unit) :
  provider_getBlockNumber C (world st) = (w, inr latest) ->
  storage_get_rejects C STORAGE_KEY_LAST_INGESTED_BLOCK_NUMBER w = (w0, None) ->
  (obj_get STORAGE_KEY_LAST_INGESTED_BLOCK_NUMBER (storage st) = None
   \/ exists last,
        obj_get STORAGE_KEY_LAST_INGESTED_BLOCK_NUMBER (storage st) = Some last
        /\ (latest - last <= 1000)%Z) ->
  runEveryMinute C config_contractAddress eventParsingInstructions st = (st', r) ->
  blockNumberToIngestFrom st' = blockNumberToIngestFrom st
  /\ exists d,
       trace st' =
         trace st
           ++ GetLogs config_contractAddress (blockNumberToIngestFrom st) latest :: d
       /\ warnings d = []
       /\ windows d = []
       /\ warnings (GetLogs config_contractAddress (blockNumberToIngestFrom st) latest :: d)
          = [].
Proof.
  intros Hhead Hread Hstep. unfold runEveryMinute, bind.
  rewrite fetchLogs_spec, Hhead, Hread. cbv zeta.
  assert (Hno : (latest - match obj_get STORAGE_KEY_LAST_INGESTED_BLOCK_NUMBER (storage st) with
                          | Some n => n
                          | None => latest
                          end >? 1000)%Z = false).
  { destruct Hstep as [-> | (last & -> & Hle)].
    - rewrite Z.sub_diag. reflexivity.
    - destruct (Z.gtb_spec (latest - last) 1000); [lia | reflexivity]. }
  rewrite Hno.
  destruct (provider_getLogs C config_contractAddress (blockNumberToIngestFrom st) latest w0)
    as [w' [e|logs]].
  - intros [= <- <-]. split; [reflexivity|].
    exists []. simpl. rewrite app_nil_r. repeat split.
  - simpl fst. simpl snd.
    destruct (processLogs C eventParsingInstructions logs [] _) as [st2 r2] eqn:Erun.
    destruct (processLogs_frame _ _ _ Erun) as (_ & Hg & _).
    destruct (processLogs_quiet _ _ _ Erun) as (d & Ht & Hw & Hn).
    simpl in Hg, Ht. rewrite app_nil_r in Ht.
    destruct r2 as [e|c2].
    + intros [= <- <-]. split; [exact Hg|]. exists d.
      split; [rewrite Ht, <- app_assoc; reflexivity|].
      split; [exact Hw|]. split; [exact Hn | exact Hw].
    + intros Hset.
      destruct (setLastIngestedBlockNumber_spec _ _ Hset) as (_ & Ht3 & Hg3 & _).
      split; [rewrite Hg3; exact Hg|].
      exists (d ++ [StorageSet STORAGE_KEY_LAST_INGESTED_BLOCK_NUMBER latest]).
      assert (Hw' : warnings (d ++ [StorageSet STORAGE_KEY_LAST_INGESTED_BLOCK_NUMBER latest])
                    = []) by (rewrite warnings_app, Hw; reflexivity).
      split; [rewrite Ht3, Ht, <- !app_assoc; reflexivity|].
      split; [exact Hw'|].
      split; [rewrite windows_app, Hn; reflexivity | exact Hw'].
Qed.

(** X18. A cycle that throws, at whatever point, leaves storage as it was
    and writes no checkpoint; and no cycle touches a storage key other than
    its own. *)
Theorem X18_checkpoint_only_on_completion (st st' : State World) (r : Result unit) :
  runEveryMinute C config_contractAddress eventParsingInstructions st = (st', r) ->
  (forall k, k <> STORAGE_KEY_LAST_INGESTED_BLOCK_NUMBER ->
     obj_get k (storage st') = obj_get k (storage st))
  /\ (forall e, r = inl e ->
        storage st' = storage st
        /\ checkpointWrites (trace st') = checkpointWrites (trace st)).
Proof.
  unfold runEveryMinute, bind.
  destruct (fetchLogs C config_contractAddress st) as [st1 [e|[latest logs]]] eqn:Efetch.
  - destruct (fetchLogs_frame _ Efetch) as (Hs & d & Ht & _ & Hc).
    intros [= <- <-]. split; [intros; rewrite Hs; reflexivity|].
    intros e' _. split; [exact Hs|].
    rewrite Ht, checkpointWrites_app, Hc, app_nil_r. reflexivity.
  - destruct (fetchLogs_frame _ Efetch) as (Hs & d & Ht & _ & Hc).
    simpl fst. simpl snd.
    destruct (processLogs C eventParsingInstructions logs [] st1) as [st2 r2] eqn:Erun.
    destruct (processLogs_frame _ _ _ Erun) as (Hs2 & _ & d2 & Ht2 & Hc2).
    destruct r2 as [e|c2].
    + intros [= <- <-]. split; [intros; rewrite Hs2, Hs; reflexivity|].
      intros e' _. split; [congruence|].
      rewrite Ht2, Ht, !checkpointWrites_app, Hc, Hc2, !app_nil_r. reflexivity.
    + intros Hset.
      destruct (setLastIngestedBlockNumber_spec _ _ Hset)
        as (-> & _ & _ & w & rejected & _ & _ & Hs3).
      split; [|intros e' He'; discriminate He'].
      intros k Hk. rewrite Hs3, <- Hs, <- Hs2.
      destruct rejected; [reflexivity|].
      apply JsFacts.obj_get_set_neq. exact Hk.
Qed.

(** X19. In a cycle that runs to its end the sink is called in the order of
    the logs, once for each log that decodes and whose arguments can be
    coerced, under the name of its event, and for no other log. *)
Theorem X19_sink_called_in_log_order (st st1 st' : State World) (latest : Z)
    (logs : list RawLog) :
  fetchLogs C config_contractAddress st = (st1, inr (latest, logs)) ->
  runEveryMinute C config_contractAddress eventParsingInstructions st = (st', inr tt) ->
  exists d,
    trace st' = trace st ++ d
    /\ map fst (captures d) =
         flat_map (fun log =>
                     match recordOf C eventParsingInstructions 0 log with
                     | inr (event, _) => [event]
                     | inl _ => []
                     end) logs.
Proof.
  intros Hfetch. unfold runEveryMinute, bind. rewrite Hfetch. simpl fst. simpl snd.
  destruct (fetchLogs_captures _ Hfetch) as (d0 & Ht0 & Hc0 & _).
  destruct (processLogs C eventParsingInstructions logs [] st1) as [st2 [e|c2]] eqn:Erun;
    [discriminate|].
  destruct (@processLogs_turns _ _ _ _ _ Erun) as (d & Ht & _ & Hcap & _).
  intros Hset.
  destruct (setLastIngestedBlockNumber_spec _ _ Hset) as (_ & Ht3 & _).
  exists (d0 ++ d ++ [StorageSet STORAGE_KEY_LAST_INGESTED_BLOCK_NUMBER latest]).
  split; [rewrite Ht3, Ht, Ht0, <- !app_assoc; reflexivity|].
  rewrite !captures_app, Hc0. simpl. rewrite app_nil_r. exact Hcap.
Qed.


(** X21. The next cycle measures its lag against what the store holds.
    After a cycle that ran to its end with head [latest], the store holds
    [latest] when it took the write, and what it held before when it
    rejected it (the write is not awaited, and the cycle returned normally
    all the same).  A next cycle with head [latest'] that reads the store
    takes that value as the last parsed block, or its own head when the
    store holds none: it warns, naming that block, and clamps exactly when
    its head is more than 1000 past it. *)
Theorem X21_next_cycle_lags_against_stored_checkpoint (st st1 st2 : State World)
    (latest latest' : Z) (logs : list RawLog) (blockTimestamps : Obj Z)
    (w3 : World) (rejected : option Exn) (w w' w'' : World) :
  fetchLogs C config_contractAddress st = (st1, inr (latest, logs)) ->
  processLogs C eventParsingInstructions logs [] st1 = (st2, inr blockTimestamps) ->
  storage_set_rejects C STORAGE_KEY_LAST_INGESTED_BLOCK_NUMBER latest (world st2)
  = (w3, rejected) ->
  provider_getBlockNumber C w = (w', inr latest') ->
  storage_get_rejects C STORAGE_KEY_LAST_INGESTED_BLOCK_NUMBER w' = (w'', None) ->
  exists st' d,
    runEveryMinute C config_contractAddress eventParsingInstructions st = (st', inr tt)
    /\ obj_get STORAGE_KEY_LAST_INGESTED_BLOCK_NUMBER (storage st')
       = match rejected with
         | None => Some latest
         | Some _ => obj_get STORAGE_KEY_LAST_INGESTED_BLOCK_NUMBER (storage st)
         end
    /\ trace (fst (fetchLogs C config_contractAddress (setWorld w st'))) = trace st' ++ d
    /\ let last :=
         match obj_get STORAGE_KEY_LAST_INGESTED_BLOCK_NUMBER (storage st') with
         | Some n => n
         | None => latest'
         end in
       windows d
       = [(if (latest' - last >? 1000)%Z
           then Some (latest' - 1000)%Z else blockNumberToIngestFrom st',
           latest')]
       /\ warnings d = if (latest' - last >? 1000)%Z then [(last, latest')] else [].
Proof.
  intros Hfetch Hrun Hwrite Hhead Hread.
  destruct (fetchLogs_frame _ Hfetch) as (Hs0 & _).
  destruct (processLogs_frame _ _ _ Hrun) as (Hs2 & _).
  destruct (setLastIngestedBlockNumber C latest st2) as [st3 r3] eqn:Eset.
  destruct (setLastIngestedBlockNumber_spec _ _ Eset)
    as (-> & _ & _ & w3' & rejected' & Hrej & _ & Hs3).
  rewrite Hwrite in Hrej. injection Hrej as <- <-.
  exists st3. eexists.
  split.
  { unfold runEveryMinute, bind. rewrite Hfetch. simpl fst. simpl snd.
    rewrite Hrun. exact Eset. }
  split.
  { rewrite Hs3, Hs2, Hs0. destruct rejected; [reflexivity|].
    apply JsFacts.obj_get_set_eq. }
  rewrite fetchLogs_spec. simpl world. rewrite Hhead, Hread. cbv zeta. simpl storage.
  destruct (provider_getLogs C config_contractAddress _ latest' w'') as [w4 [e|logs']];
    simpl trace; rewrite <- app_assoc; (split; [reflexivity|]);
    rewrite windows_app, warnings_app;
    destruct (_ - _ >? 1000)%Z; split; reflexivity.
Qed.

(** X23. A cycle whose window holds no log asks the node for no block, hands
    nothing to the sink, writes nothing to the console, and ends by asking
    the store to keep the head as the checkpoint.  It returns normally
    whether the store takes the write or rejects it; the store then holds
    the head, or what it held. *)
Theorem X23_empty_window_only_moves_checkpoint (st st1 : State World) (latest : Z)
    (w : World) (rejected : option Exn) :
  fetchLogs C config_contractAddress st = (st1, inr (latest, [])) ->
  storage_set_rejects C STORAGE_KEY_LAST_INGESTED_BLOCK_NUMBER latest (world st1)
  = (w, rejected) ->
  exists st',
    runEveryMinute C config_contractAddress eventParsingInstructions st = (st', inr tt)
    /\ trace st' = trace st1 ++ [StorageSet STORAGE_KEY_LAST_INGESTED_BLOCK_NUMBER latest]
    /\ captures (trace st') = captures (trace st)
    /\ loggedErrors (trace st') = loggedErrors (trace st)
    /\ (forall h, fetches h (trace st') = fetches h (trace st))
    /\ storage st'
       = match rejected with
         | None => obj_set STORAGE_KEY_LAST_INGESTED_BLOCK_NUMBER latest (storage st)
         | Some _ => storage st
         end.
Proof.
  intros Hfetch Hwrite.
  destruct (fetchLogs_frame _ Hfetch) as (Hs0 & d0 & Ht0 & Hf0 & _).
  destruct (fetchLogs_captures _ Hfetch) as (d0' & Ht0' & Hc0 & He0).
  assert (d0' = d0) by (rewrite Ht0 in Ht0'; apply app_inv_head in Ht0'; congruence).
  subst d0'.
  destruct (setLastIngestedBlockNumber C latest st1) as [st3 r3] eqn:Eset.
  destruct (setLastIngestedBlockNumber_spec _ _ Eset)
    as (-> & Ht3 & _ & w3 & rejected' & Hrej & _ & Hs3).
  rewrite Hwrite in Hrej. injection Hrej as <- <-.
  exists st3. unfold runEveryMinute, bind. rewrite Hfetch. simpl.
  split; [exact Eset|]. split; [exact Ht3|].
  split; [rewrite Ht3, Ht0, !captures_app, Hc0; simpl; rewrite !app_nil_r; reflexivity|].
  split; [rewrite Ht3, Ht0, !loggedErrors_app, He0; simpl; rewrite !app_nil_r; reflexivity|].
  split; [|rewrite Hs3, Hs0; reflexivity].
  intros h. rewrite Ht3, Ht0, !fetches_app, Hf0. simpl. lia.
Qed.

(** X25. When the store cannot be read the cycle throws what the store threw,
    after the query for the head and before anything else: it warns of
    nothing, asks for no log, and writes no checkpoint. *)
Theorem X25_checkpoint_read_failure_aborts_cycle (st : State World) (w w0 : World)
    (latest : Z) (e : Exn) :
  provider_getBlockNumber C (world st) = (w, inr latest) ->
  storage_get_rejects C STORAGE_KEY_LAST_INGESTED_BLOCK_NUMBER w = (w0, Some e) ->
  runEveryMinute C config_contractAddress eventParsingInstructions st
  = (setWorld w0 st, inl e).
Proof.
  intros Hhead Hread. unfold runEveryMinute, bind.
  rewrite fetchLogs_spec, Hhead, Hread. reflexivity.
Qed.

End PluginFacts.

(* ================================================================== *)
(** * The plugin on the small chain *)
(* ================================================================== *)

Import Js Plugin Scenario.
Open Scope Z_scope.
Open Scope string_scope.
Open Scope list_scope.

(** C1 (the code against itself).  The checkpoint read from storage decides
    whether the window is clamped and is then forgotten: [getLogs] is asked
    from [global.blockNumberToIngestFrom], which only the clamping assigns.
    With the checkpoint at 1980 and the head at 2000 a plugin just set up
    asks from [undefined], not from 1980; and a plugin that clamped to 500
    in the cycle before asks from 500 again, not from its checkpoint
    1500. *)
Theorem C1_window_start_is_not_the_checkpoint :
  windows (trace (fst (cycle (start chain None (Some 1980))))) = [(None, 2000)]
  /\ obj_get STORAGE_KEY_LAST_INGESTED_BLOCK_NUMBER
       (storage (fst (cycle (start earlyChain None (Some 100))))) = Some 1500
  /\ windows (trace (fst (cycle (setWorld chain
                                   (fst (cycle (start earlyChain None (Some 100))))))))
     = [(Some 500, 1500); (Some 500, 2000)].
Proof.
  repeat split; vm_compute; reflexivity.
Qed.

(** [log2] is a log of no event of the ABI. *)
Lemma C3_unmatched_log_throws_and_is_logged_witness :
  (contractInterface_getEvent collaborators (hd_error (topics log2)) = inr None
   \/ exists fragment,
        contractInterface_getEvent collaborators (hd_error (topics log2))
          = inr (Some fragment)
        /\ anonymous fragment = true)
  /\ parseLog collaborators log2 = inr None
  /\ tryCatch (tryBody collaborators (Some instructions) 1700000000 log2)
              (fun error => emit (LogError error))
              (start chain (Some 1980) (Some 1980))
     = (addTrace
          [LogError (TypeError "Cannot read properties of null (reading 'namedArgs')")]
          (start chain (Some 1980) (Some 1980)),
        inr tt).
Proof.
  assert (H : contractInterface_getEvent collaborators (hd_error (topics log2)) = inr None
              \/ exists fragment,
                   contractInterface_getEvent collaborators (hd_error (topics log2))
                     = inr (Some fragment)
                   /\ anonymous fragment = true).
  { left. vm_compute. reflexivity. }
  split; [exact H|].
  exact (@C3_unmatched_log_throws_and_is_logged Chain collaborators (Some instructions)
           1700000000 log2 (start chain (Some 1980) (Some 1980)) H).
Defined.

(** The four logs of [chain], of which the second is of no event and the
    third does not decode, on the node that answers for the two blocks of
    [chain] and for no other: the node, the sink and the store leave the
    chain as it is. *)
Lemma C4_failures_are_isolated_and_checkpoint_advances_witness :
  let st := start chain (Some 1980) (Some 1980) in
  let st1 := fst (fetchLogs collaborators contractAddress st) in
  let Good := fun w : Chain => w = chain in
  fetchLogs collaborators contractAddress st = (st1, inr (2000, [log1; log2; log3; log4]))
  /\ Good (world st1)
  /\ (forall (w : Chain) (log : RawLog),
        Good w -> In log [log1; log2; log3; log4] ->
        exists w' block,
          provider_getBlock collaborators (blockHash log) w = (w', inr (Some block))
          /\ Good w')
  /\ (forall (w : Chain) (event : string) (eventData : Obj Value),
        Good w -> Good (fst (posthog_capture collaborators event eventData w)))
  /\ exists st' d,
       runEveryMinute collaborators contractAddress (Some instructions) st = (st', inr tt)
       /\ trace st' =
            trace st1 ++ d ++ [StorageSet STORAGE_KEY_LAST_INGESTED_BLOCK_NUMBER 2000]
       /\ checkpointWrites (trace st') = checkpointWrites (trace st) ++ [2000]
       /\ (storage st'
           = obj_set STORAGE_KEY_LAST_INGESTED_BLOCK_NUMBER 2000 (storage st)
           \/ storage st' = storage st)
       /\ ((forall w, Good w ->
              snd (storage_set_rejects collaborators
                     STORAGE_KEY_LAST_INGESTED_BLOCK_NUMBER 2000 w) = None) ->
           obj_get STORAGE_KEY_LAST_INGESTED_BLOCK_NUMBER (storage st') = Some 2000)
       /\ forall log, In log [log1; log2; log3; log4] ->
            exists t, reported collaborators (Some instructions) t log d.
Proof.
  intros st st1 Good.
  assert (Hfetch : fetchLogs collaborators contractAddress st
                   = (st1, inr (2000, [log1; log2; log3; log4])))
    by (vm_compute; reflexivity).
  assert (Hgood : Good (world st1)) by (vm_compute; reflexivity).
  assert (Hblocks : forall (w : Chain) (log : RawLog),
             Good w -> In log [log1; log2; log3; log4] ->
             exists w' block,
               provider_getBlock collaborators (blockHash log) w = (w', inr (Some block))
               /\ Good w').
  { intros w log -> [<-|[<-|[<-|[<-|[]]]]]; eexists _, _; split; vm_compute; reflexivity. }
  assert (Hsink : forall (w : Chain) (event : string) (eventData : Obj Value),
             Good w -> Good (fst (posthog_capture collaborators event eventData w))).
  { intros w event eventData ->. simpl.
    destruct (String.eqb event "Refused"); reflexivity. }
  split; [exact Hfetch|]. split; [exact Hgood|]. split; [exact Hblocks|].
  split; [exact Hsink|].
  exact (@C4_failures_are_isolated_and_checkpoint_advances Chain collaborators
           contractAddress (Some instructions) Good st st1 2000 [log1; log2; log3; log4]
           Hfetch Hgood Hblocks Hsink).
Defined.


(** The transfer of [log1]. *)
Lemma X24_parseLog_names_and_top_level_hex_witness :
  parseLog collaborators log1 = inr (Some parsed1)
  /\ exists fragment args,
       contractInterface_getEvent collaborators (hd_error (topics log1))
         = inr (Some fragment)
       /\ contractInterface_decodeEventLog collaborators fragment (data log1) (topics log1)
          = inr args
       /\ (forall k, In k (obj_keys (namedArgs parsed1)) ->
             isIndexKey k = false /\ parseInt_isNaN k = true /\ In k (obj_keys args))
       /\ (forall k v, obj_get k (namedArgs parsed1) = Some v ->
             forall n, v <> VBigNumber n)
       /\ (forall k n, obj_get k args = Some (VBigNumber n) -> parseInt_isNaN k = true ->
             obj_get k (namedArgs parsed1) = Some (VString (Ethers.toHexString n))
             /\ Ethers.BigNumber_from (VString (Ethers.toHexString n)) = inr n).
Proof.
  assert (H : parseLog collaborators log1 = inr (Some parsed1))
    by (vm_compute; reflexivity).
  split; [exact H|].
  exact (@X24_parseLog_names_and_top_level_hex Chain collaborators log1 parsed1 H).
Defined.

(** [to] is the marked argument of [Transfer]; [value] comes after it and
    is not marked. *)
Lemma C7_distinct_id_is_coerced_value_witness :
  let marked := {| isDistinctId := true; argType := None |} in
  parseLog collaborators log1 = inr (Some parsed1)
  /\ obj_keys (namedArgs parsed1) = ["from"] ++ "to" :: ["value"]
  /\ instructionFor (Some instructions) (parsedName parsed1) "to" = Some marked
  /\ isDistinctId marked = true
  /\ buildEventData collaborators (Some instructions) 1700000000 log1 parsed1
     = inr record1
  /\ obj_get "distinct_id" record1 = Some (VString "0xabc")
  /\ obj_get "to" record1 = Some (VString "0xabc").
Proof.
  intros marked.
  assert (H1 : parseLog collaborators log1 = inr (Some parsed1))
    by (vm_compute; reflexivity).
  assert (H2 : obj_keys (namedArgs parsed1) = ["from"] ++ "to" :: ["value"])
    by reflexivity.
  assert (H3 : instructionFor (Some instructions) (parsedName parsed1) "to" = Some marked)
    by reflexivity.
  assert (H4 : isDistinctId marked = true) by reflexivity.
  assert (H5 : buildEventData collaborators (Some instructions) 1700000000 log1 parsed1
               = inr record1) by (vm_compute; reflexivity).
  split; [exact H1|]. split; [exact H2|]. split; [exact H3|]. split; [exact H4|].
  split; [exact H5|].
  destruct (@C7_distinct_id_is_coerced_value Chain collaborators (Some instructions)
              1700000000 log1 parsed1 "to" marked ["from"] ["value"] record1
              H1 H2 H3 H4 H5)
    as (argValue & instr & eventData1 & Hco & _ & _ & _ & _ & _ & Hlast).
  assert (Hv : argValue = VString "0xabc") by (vm_compute in Hco; congruence).
  rewrite <- Hv. apply Hlast.
  intros k ai [<-|[]] Hi. vm_compute in Hi. injection Hi as <-.
  split; [reflexivity | discriminate].
Defined.


(** On [flakyChain] the node fails for the block of the second log. *)
Lemma C9_timestamp_failure_aborts_cycle_witness :
  let st := start flakyChain (Some 1980) (Some 1980) in
  let st1 := fst (fetchLogs collaborators contractAddress st) in
  let st2 := fst (processLogs collaborators (Some instructions) [log1] [] st1) in
  let answer : Result (option Block) := inl (ExternalError "missing response") in
  fetchLogs collaborators contractAddress st = (st1, inr (2000, [log1] ++ log4 :: [log1]))
  /\ processLogs collaborators (Some instructions) [log1] [] st1
     = (st2, inr [("0xb1", 1700000000)])
  /\ obj_get (blockHash log4) [("0xb1", 1700000000)] = None
  /\ provider_getBlock collaborators (blockHash log4) (world st2) = (flakyChain, answer)
  /\ (forall block, answer <> inr (Some block))
  /\ exists e,
       runEveryMinute collaborators contractAddress (Some instructions) st
         = (setWorld flakyChain (addTrace [GetBlock (blockHash log4)] st2), inl e)
       /\ (answer = inl e
           \/ answer = inr None
              /\ e = TypeError "Cannot read properties of null (reading 'timestamp')")
       /\ storage st2 = storage st
       /\ checkpointWrites (trace st2 ++ [GetBlock (blockHash log4)])
          = checkpointWrites (trace st).
Proof.
  intros st st1 st2 answer.
  assert (H1 : fetchLogs collaborators contractAddress st
               = (st1, inr (2000, [log1] ++ log4 :: [log1])))
    by (vm_compute; reflexivity).
  assert (H2 : processLogs collaborators (Some instructions) [log1] [] st1
               = (st2, inr [("0xb1", 1700000000)])) by (vm_compute; reflexivity).
  assert (H3 : obj_get (blockHash log4) [("0xb1", 1700000000)] = None)
    by reflexivity.
  assert (H4 : provider_getBlock collaborators (blockHash log4) (world st2)
               = (flakyChain, answer)) by (vm_compute; reflexivity).
  assert (H5 : forall block, answer <> inr (Some block)) by (intros block; discriminate).
  repeat (split; [assumption|]).
  exact (@C9_timestamp_failure_aborts_cycle Chain collaborators contractAddress
           (Some instructions) st st1 st2 2000 [log1] [log1] log4
           [("0xb1", 1700000000)] flakyChain answer H1 H2 H3 H4 H5).
Defined.

(** [Checkpointed] has an argument called [blockNumber]: the record of
    [log5], of block 1995, says block 7. *)
Lemma C10_argument_overwrites_base_field_witness :
  parseLog collaborators log5 = inr (Some parsed5)
  /\ obj_get "blockNumber" (namedArgs parsed5) = Some (VString "0x07")
  /\ ("blockNumber" = "blockNumber" \/ "blockNumber" = "blockHash"
      \/ "blockNumber" = "$timestamp")
  /\ obj_get "blockNumber" (seedEventData 1700000065 log5 []) = Some (VNumber 1995)
  /\ obj_get "blockNumber" (seedEventData 1700000065 log5 (namedArgs parsed5))
     = Some (VString "0x07")
  /\ (exists rest,
        obj_keys (seedEventData 1700000065 log5 (namedArgs parsed5))
        = "$timestamp" :: "blockNumber" :: "blockHash" :: rest
        /\ ~ In "blockNumber" rest)
  /\ forall eventData,
       buildEventData collaborators (Some instructions) 1700000065 log5 parsed5
         = inr eventData ->
       (exists v',
          emittedValue collaborators (Some instructions) (parsedName parsed5)
            "blockNumber" (VString "0x07") = inr v'
          /\ obj_get "blockNumber" eventData = Some v')
       /\ exists rest,
            obj_keys eventData = "$timestamp" :: "blockNumber" :: "blockHash" :: rest
            /\ ~ In "blockNumber" rest.
Proof.
  assert (H1 : parseLog collaborators log5 = inr (Some parsed5))
    by (vm_compute; reflexivity).
  assert (H2 : obj_get "blockNumber" (namedArgs parsed5) = Some (VString "0x07"))
    by reflexivity.
  assert (H3 : "blockNumber" = "blockNumber" \/ "blockNumber" = "blockHash"
               \/ "blockNumber" = "$timestamp") by (left; reflexivity).
  split; [exact H1|]. split; [exact H2|]. split; [exact H3|].
  exact (@C10_argument_overwrites_base_field Chain collaborators (Some instructions)
           1700000065 log5 parsed5 "blockNumber" (VString "0x07") H1 H2 H3).
Defined.

(** Two cycles in a row over the same window: the node is asked for block
    [0xb1] once in each, since the second cycle starts with an empty cache. *)
Example cache_is_not_kept_between_cycles :
  let st := start chain (Some 1980) (Some 1980) in
  fetches "0xb1" (trace (fst (cycle st))) = 1%nat
  /\ fetches "0xb1" (trace (fst (cycle (fst (cycle st))))) = 2%nat.
Proof.
  split; vm_compute; reflexivity.
Qed.

(** The scenario of the README: [to] is the distinct id and the amount is in
    ether.  [formatEther] writes two ether as [2.0]. *)
Example transfer_record :
  captures (trace (fst (cycle (start chain (Some 1980) (Some 1980)))))
  = [("Transfer", record1);
     ("Transfer",
      [("$timestamp", VNumber 1700000065); ("blockNumber", VNumber 1995);
       ("blockHash", VString "0xb2"); ("from", VString "0x0a");
       ("to", VString "0xdef"); ("value", VString "2.0");
       ("distinct_id", VString "0xdef")])].
Proof.
  vm_compute. reflexivity.
Qed.

(* ================================================================== *)
(** * Facts about [setupPlugin] *)
(* ================================================================== *)

Section SetupFacts.

Variables Provider Contract Interface Abi : Type.
Variable JSON_parse_instructions : string -> Setup.Thrown + Plugin.EventParsingInstruction.
Variable JSON_parse_abi : string -> Setup.Thrown + Abi.
Variable InfuraProvider : Provider.
Variable new_Contract : string -> Abi -> Provider -> Setup.Thrown + Contract.
Variable new_Interface : Abi -> Setup.Thrown + Interface.

Let setup :=
  Setup.setupPlugin JSON_parse_instructions JSON_parse_abi InfuraProvider
    new_Contract new_Interface.

(** X1. Without a contract address (missing or empty), without the ABI file,
    or with an instructions file that is not JSON, [setupPlugin] throws and
    leaves [meta.global] exactly as it was: nothing is installed. *)
Theorem X1_setupPlugin_rejects_and_leaves_global
    (config_contractAddress : option string) (attachments : Setup.Attachments)
    (global : Setup.Global Provider Contract Interface) :
  (Setup.falsy config_contractAddress = true
   \/ Setup.contractABI attachments = None
   \/ exists file e,
        Setup.eventParsingInstructions attachments = Some file
        /\ JSON_parse_instructions (Setup.contents file) = inl e) ->
  exists e, setup config_contractAddress attachments global = (global, inl e).
Proof.
  unfold setup, Setup.setupPlugin.
  intros [Haddr | [Habi | (file & e & Hfile & Hparse)]].
  - rewrite Haddr. eexists. reflexivity.
  - destruct (Setup.falsy config_contractAddress); [eexists; reflexivity|].
    rewrite Habi. eexists. reflexivity.
  - destruct (Setup.falsy config_contractAddress); [eexists; reflexivity|].
    destruct (Setup.contractABI attachments); [|eexists; reflexivity].
    rewrite Hfile, Hparse. eexists. reflexivity.
Qed.

(** X2. When [setupPlugin] returns normally the address was not empty, the
    ABI file was there and parsed, and the provider, the contract and the
    interface are all installed, the contract made of the configured address,
    that ABI and that provider, the interface of the same ABI. *)
Theorem X2_setupPlugin_success_installs_everything
    (config_contractAddress : option string) (attachments : Setup.Attachments)
    (global global' : Setup.Global Provider Contract Interface) :
  setup config_contractAddress attachments global = (global', inr tt) ->
  exists addr abiFile abi c i,
    config_contractAddress = Some addr /\ addr <> EmptyString
    /\ Setup.contractABI attachments = Some abiFile
    /\ JSON_parse_abi (Setup.contents abiFile) = inr abi
    /\ new_Contract addr abi InfuraProvider = inr c
    /\ new_Interface abi = inr i
    /\ Setup.provider global' = Some InfuraProvider
    /\ Setup.contract global' = Some c
    /\ Setup.contractInterface global' = Some i.
Proof.
  unfold setup, Setup.setupPlugin.
  destruct config_contractAddress as [addr|]; simpl; [|discriminate].
  destruct (String.eqb_spec addr EmptyString) as [->|Hne]; [discriminate|].
  destruct (Setup.contractABI attachments) as [abiFile|]; [|discriminate].
  destruct (match Setup.eventParsingInstructions attachments with
            | Some file =>
                match JSON_parse_instructions (Setup.contents file) with
                | inr instructions =>
                    inr (Setup.set_eventParsingInstructions instructions global)
                | inl e => inl e
                end
            | None => inr global
            end) as [e|g1]; [discriminate|].
  destruct (JSON_parse_abi (Setup.contents abiFile)) as [e|abi] eqn:Eabi; [discriminate|].
  destruct (new_Contract addr abi InfuraProvider) as [e|c] eqn:Ec; [discriminate|].
  destruct (new_Interface abi) as [e|i] eqn:Ei; [discriminate|].
  intros [= <-].
  exists addr, abiFile, abi, c, i. repeat split; assumption.
Qed.

(** X3. Whatever it is given and however it ends, [setupPlugin] does not
    assign [global.blockNumberToIngestFrom]; and without an instructions file
    it keeps the table [meta.global] held before. *)
Theorem X3_setupPlugin_never_sets_window_start
    (config_contractAddress : option string) (attachments : Setup.Attachments)
    (global : Setup.Global Provider Contract Interface) :
  Setup.blockNumberToIngestFrom (fst (setup config_contractAddress attachments global))
  = Setup.blockNumberToIngestFrom global
  /\ (Setup.eventParsingInstructions attachments = None ->
      Setup.global_eventParsingInstructions
        (fst (setup config_contractAddress attachments global))
      = Setup.global_eventParsingInstructions global).
Proof.
  unfold setup, Setup.setupPlugin.
  destruct (Setup.falsy config_contractAddress); [split; reflexivity|].
  destruct (Setup.contractABI attachments) as [abiFile|]; [|split; reflexivity].
  destruct (Setup.eventParsingInstructions attachments) as [file|].
  - split; [|discriminate].
    destruct (JSON_parse_instructions (Setup.contents file)); [reflexivity|].
    destruct (JSON_parse_abi (Setup.contents abiFile)); [reflexivity|].
    destruct (new_Contract _ a InfuraProvider); [reflexivity|].
    destruct (new_Interface a); reflexivity.
  - destruct (JSON_parse_abi (Setup.contents abiFile)); [split; reflexivity|].
    destruct (new_Contract _ a InfuraProvider); [split; reflexivity|].
    destruct (new_Interface a); split; reflexivity.
Qed.

End SetupFacts.

Lemma X1_setupPlugin_rejects_and_leaves_global_witness :
  (Setup.falsy (Some "0xc0ffee") = true
   \/ Setup.contractABI SetupScenario.brokenInstructions = None
   \/ exists file e,
        Setup.eventParsingInstructions SetupScenario.brokenInstructions = Some file
        /\ SetupScenario.JSON_parse_instructions (Setup.contents file) = inl e)
  /\ exists e,
       SetupScenario.setupPlugin (Some "0xc0ffee") SetupScenario.brokenInstructions
         SetupScenario.emptyGlobal
       = (SetupScenario.emptyGlobal, inl e).
Proof.
  assert (H : Setup.falsy (Some "0xc0ffee") = true
              \/ Setup.contractABI SetupScenario.brokenInstructions = None
              \/ exists file e,
                   Setup.eventParsingInstructions SetupScenario.brokenInstructions
                     = Some file
                   /\ SetupScenario.JSON_parse_instructions (Setup.contents file) = inl e).
  { right. right. eexists _, _. split; reflexivity. }
  split; [exact H|].
  exact (@X1_setupPlugin_rejects_and_leaves_global unit (string * string) string string
           SetupScenario.JSON_parse_instructions SetupScenario.JSON_parse_abi tt
           SetupScenario.new_Contract SetupScenario.new_Interface
           (Some "0xc0ffee") SetupScenario.brokenInstructions SetupScenario.emptyGlobal H).
Defined.

Lemma X2_setupPlugin_success_installs_everything_witness :
  let global' := fst (SetupScenario.setupPlugin (Some "0xc0ffee") SetupScenario.bothFiles
                        SetupScenario.emptyGlobal) in
  SetupScenario.setupPlugin (Some "0xc0ffee") SetupScenario.bothFiles
    SetupScenario.emptyGlobal = (global', inr tt)
  /\ Setup.contractInterface global' = Some SetupScenario.abiText
  /\ Setup.blockNumberToIngestFrom global' = None.
Proof.
  intros global'.
  assert (H : SetupScenario.setupPlugin (Some "0xc0ffee") SetupScenario.bothFiles
                SetupScenario.emptyGlobal = (global', inr tt)) by reflexivity.
  split; [exact H|].
  destruct (@X2_setupPlugin_success_installs_everything unit (string * string) string string
              SetupScenario.JSON_parse_instructions SetupScenario.JSON_parse_abi tt
              SetupScenario.new_Contract SetupScenario.new_Interface
              (Some "0xc0ffee") SetupScenario.bothFiles SetupScenario.emptyGlobal global' H)
    as (addr & abiFile & abi & c & i & _ & _ & _ & _ & _ & _ & _ & _ & _).
  split; reflexivity.
Defined.

(* ================================================================== *)
(** * More runs on the small chain *)
(* ================================================================== *)

Import Outages.

Lemma X4_parseLog_keeps_order_witness :
  parseLog collaborators log1 = inr (Some parsed1)
  /\ contractInterface_decodeEventLog collaborators (eventFragment parsed1)
       (data log1) (topics log1) = inr decoded1
  /\ NoDup (obj_keys decoded1)
  /\ namedArgs parsed1
     = map (fun k => (k, storedValue decoded1 k))
           (filter parseInt_isNaN (obj_keys decoded1)).
Proof.
  assert (H1 : parseLog collaborators log1 = inr (Some parsed1))
    by (vm_compute; reflexivity).
  assert (H2 : contractInterface_decodeEventLog collaborators (eventFragment parsed1)
                 (data log1) (topics log1) = inr decoded1)
    by (vm_compute; reflexivity).
  assert (H3 : NoDup (obj_keys decoded1)).
  { simpl. repeat constructor; simpl; intuition discriminate. }
  split; [exact H1|]. split; [exact H2|]. split; [exact H3|].
  exact (@X4_parseLog_keeps_order Chain collaborators log1 parsed1 decoded1 H1 H2 H3).
Defined.

Lemma X5_parseLog_keeps_identifier_names_witness :
  parseLog collaborators log1 = inr (Some parsed1)
  /\ contractInterface_decodeEventLog collaborators (eventFragment parsed1)
       (data log1) (topics log1) = inr decoded1
  /\ obj_get "value" decoded1 = Some (VBigNumber 1500000000000000000)
  /\ Names.isIdentifier "value" = true
  /\ obj_get "value" (namedArgs parsed1)
     = Some (VString (Ethers.toHexString 1500000000000000000)).
Proof.
  assert (H1 : parseLog collaborators log1 = inr (Some parsed1))
    by (vm_compute; reflexivity).
  assert (H2 : contractInterface_decodeEventLog collaborators (eventFragment parsed1)
                 (data log1) (topics log1) = inr decoded1)
    by (vm_compute; reflexivity).
  assert (H3 : obj_get "value" decoded1 = Some (VBigNumber 1500000000000000000))
    by reflexivity.
  assert (H4 : Names.isIdentifier "value" = true) by reflexivity.
  split; [exact H1|]. split; [exact H2|]. split; [exact H3|]. split; [exact H4|].
  exact (@X5_parseLog_keeps_identifier_names Chain collaborators log1 parsed1 decoded1
           "value" (VBigNumber 1500000000000000000) H1 H2 H3 H4).
Defined.

(** [log3] is a transfer whose data does not decode. *)
Lemma X6_decode_failure_is_logged_witness :
  let st := start chain (Some 1980) (Some 1980) in
  let e := EthersError "INVALID_ARGUMENT" in
  (contractInterface_getEvent collaborators (hd_error (topics log3)) = inl e
   \/ exists fragment,
        contractInterface_getEvent collaborators (hd_error (topics log3))
          = inr (Some fragment)
        /\ anonymous fragment = false
        /\ contractInterface_decodeEventLog collaborators fragment (data log3)
             (topics log3) = inl e)
  /\ tryCatch (tryBody collaborators (Some instructions) 1700000000 log3)
              (fun error => emit (LogError error)) st
     = (addTrace [LogError e] st, inr tt).
Proof.
  intros st e.
  assert (H : contractInterface_getEvent collaborators (hd_error (topics log3)) = inl e
              \/ exists fragment,
                   contractInterface_getEvent collaborators (hd_error (topics log3))
                     = inr (Some fragment)
                   /\ anonymous fragment = false
                   /\ contractInterface_decodeEventLog collaborators fragment (data log3)
                        (topics log3) = inl e).
  { right. exists transferFragment. repeat split; vm_compute; reflexivity. }
  split; [exact H|].
  exact (@X6_decode_failure_is_logged Chain collaborators (Some instructions) 1700000000
           log3 e st H).
Defined.

Lemma X7_record_starts_with_base_fields_witness :
  buildEventData collaborators (Some instructions) 1700000000 log1 parsed1 = inr record1
  /\ NoDup (obj_keys record1)
  /\ exists rest, obj_keys record1 = "$timestamp" :: "blockNumber" :: "blockHash" :: rest.
Proof.
  assert (H : buildEventData collaborators (Some instructions) 1700000000 log1 parsed1
              = inr record1) by (vm_compute; reflexivity).
  split; [exact H|].
  exact (@X7_record_starts_with_base_fields Chain collaborators (Some instructions)
           1700000000 log1 parsed1 record1 H).
Defined.

(** Under [unmarked] the record of [log1] has no [distinct_id]. *)
Lemma X8_no_distinct_id_unless_marked_witness :
  ~ In "distinct_id" (obj_keys (namedArgs parsed1))
  /\ (forall k ai, In k (obj_keys (namedArgs parsed1)) ->
        instructionFor (Some unmarked) (parsedName parsed1) k = Some ai ->
        isDistinctId ai = false)
  /\ buildEventData collaborators (Some unmarked) 1700000000 log1 parsed1
     = inr record1_unmarked
  /\ obj_get "distinct_id" record1_unmarked = None.
Proof.
  assert (H1 : ~ In "distinct_id" (obj_keys (namedArgs parsed1))).
  { simpl. intuition discriminate. }
  assert (H2 : forall k ai, In k (obj_keys (namedArgs parsed1)) ->
             instructionFor (Some unmarked) (parsedName parsed1) k = Some ai ->
             isDistinctId ai = false).
  { intros k ai Hin Hi. simpl in Hin.
    destruct Hin as [<-|[<-|[<-|[]]]]; vm_compute in Hi; try discriminate Hi.
    injection Hi as <-. reflexivity. }
  assert (H3 : buildEventData collaborators (Some unmarked) 1700000000 log1 parsed1
               = inr record1_unmarked) by (vm_compute; reflexivity).
  split; [exact H1|]. split; [exact H2|]. split; [exact H3|].
  exact (@X8_no_distinct_id_unless_marked Chain collaborators (Some unmarked) 1700000000
           log1 parsed1 record1_unmarked H1 H2 H3).
Defined.

Lemma X9_argument_under_own_name_witness :
  let v := VString "0x14d1120d7b160000" in
  parseLog collaborators log1 = inr (Some parsed1)
  /\ obj_get "value" (namedArgs parsed1) = Some v
  /\ "value" <> "distinct_id"
  /\ buildEventData collaborators (Some instructions) 1700000000 log1 parsed1
     = inr record1
  /\ exists v',
       emittedValue collaborators (Some instructions) (parsedName parsed1) "value" v
         = inr v'
       /\ obj_get "value" record1 = Some v'.
Proof.
  intros v.
  assert (H1 : parseLog collaborators log1 = inr (Some parsed1))
    by (vm_compute; reflexivity).
  assert (H2 : obj_get "value" (namedArgs parsed1) = Some v) by reflexivity.
  assert (H3 : "value" <> "distinct_id") by discriminate.
  assert (H4 : buildEventData collaborators (Some instructions) 1700000000 log1 parsed1
               = inr record1) by (vm_compute; reflexivity).
  split; [exact H1|]. split; [exact H2|]. split; [exact H3|]. split; [exact H4|].
  exact (@X9_argument_under_own_name Chain collaborators (Some instructions) 1700000000
           log1 parsed1 "value" v record1 H1 H2 H3 H4).
Defined.

Lemma X10_base_fields_of_the_log_witness :
  buildEventData collaborators (Some instructions) 1700000000 log1 parsed1 = inr record1
  /\ ~ In "$timestamp" (obj_keys (namedArgs parsed1))
  /\ obj_get "$timestamp" record1 = Some (VNumber 1700000000).
Proof.
  assert (H : buildEventData collaborators (Some instructions) 1700000000 log1 parsed1
              = inr record1) by (vm_compute; reflexivity).
  assert (Hn : ~ In "$timestamp" (obj_keys (namedArgs parsed1))).
  { simpl. intuition discriminate. }
  split; [exact H|]. split; [exact Hn|].
  exact (proj1 (@X10_base_fields_of_the_log Chain collaborators (Some instructions)
                  1700000000 log1 parsed1 record1 H) Hn).
Defined.

(** Under [stringly] the address [to] is not a 32-byte string. *)
Lemma X11_failed_coercion_drops_the_log_witness :
  let st := start chain (Some 1980) (Some 1980) in
  let ai := {| isDistinctId := false; argType := Some "string" |} in
  let e := EthersError "INVALID_ARGUMENT" in
  parseLog collaborators log1 = inr (Some parsed1)
  /\ In "to" (obj_keys (namedArgs parsed1))
  /\ instructionFor (Some stringly) (parsedName parsed1) "to" = Some ai
  /\ coerce collaborators (argType ai) (prop (namedArgs parsed1) "to") = inl e
  /\ exists e',
       buildEventData collaborators (Some stringly) 1700000000 log1 parsed1 = inl e'
       /\ tryCatch (tryBody collaborators (Some stringly) 1700000000 log1)
                   (fun error => emit (LogError error)) st
          = (addTrace [LogError e'] st, inr tt).
Proof.
  intros st ai e.
  assert (H1 : parseLog collaborators log1 = inr (Some parsed1))
    by (vm_compute; reflexivity).
  assert (H2 : In "to" (obj_keys (namedArgs parsed1))) by (simpl; auto).
  assert (H3 : instructionFor (Some stringly) (parsedName parsed1) "to" = Some ai)
    by reflexivity.
  assert (H4 : coerce collaborators (argType ai) (prop (namedArgs parsed1) "to") = inl e)
    by reflexivity.
  split; [exact H1|]. split; [exact H2|]. split; [exact H3|]. split; [exact H4|].
  exact (@X11_failed_coercion_drops_the_log Chain collaborators (Some stringly) 1700000000
           log1 parsed1 "to" ai e st H1 H2 H3 H4).
Defined.

Lemma X13_eth_text_tells_amounts_apart_witness :
  1500000000000000000 <> 1500000000000000001
  /\ coerce collaborators (Some "eth") (VString (Ethers.toHexString 1500000000000000000))
     <> coerce collaborators (Some "eth")
          (VString (Ethers.toHexString 1500000000000000001)).
Proof.
  assert (H : 1500000000000000000 <> 1500000000000000001) by lia.
  split; [exact H|].
  exact (@X13_eth_text_tells_amounts_apart Chain collaborators
           1500000000000000000 1500000000000000001 H).
Defined.

Lemma X14_head_failure_does_nothing_witness :
  let st := start chain (Some 1980) (Some 1980) in
  provider_getBlockNumber headless (world st) = (chain, inl (ExternalError "timeout"))
  /\ runEveryMinute headless contractAddress (Some instructions) st
     = (setWorld chain st, inl (ExternalError "timeout")).
Proof.
  intros st.
  assert (H : provider_getBlockNumber headless (world st)
              = (chain, inl (ExternalError "timeout"))) by reflexivity.
  split; [exact H|].
  exact (@X14_head_failure_does_nothing Chain headless contractAddress (Some instructions)
           st chain (ExternalError "timeout") H).
Defined.

(** The node refuses the window from block 1980. *)
Lemma X15_log_fetch_failure_leaves_checkpoint_witness :
  let st := start chain (Some 1980) (Some 1980) in
  let e := ExternalError "rate limited" in
  provider_getBlockNumber rateLimited (world st) = (chain, inr 2000)
  /\ storage_get_rejects rateLimited STORAGE_KEY_LAST_INGESTED_BLOCK_NUMBER chain
     = (chain, None)
  /\ Some 1980
     = (if 2000 - match obj_get STORAGE_KEY_LAST_INGESTED_BLOCK_NUMBER (storage st) with
                  | Some n => n
                  | None => 2000
                  end >? 1000
        then Some (2000 - 1000) else blockNumberToIngestFrom st)
  /\ provider_getLogs rateLimited contractAddress (Some 1980) 2000 chain = (chain, inl e)
  /\ exists st' d,
       runEveryMinute rateLimited contractAddress (Some instructions) st = (st', inl e)
       /\ storage st' = storage st
       /\ trace st' = trace st ++ d
       /\ windows d = [(Some 1980, 2000)]
       /\ captures d = []
       /\ checkpointWrites d = []
       /\ forall h, fetches h d = O.
Proof.
  intros st e.
  assert (H1 : provider_getBlockNumber rateLimited (world st) = (chain, inr 2000))
    by reflexivity.
  assert (H2 : storage_get_rejects rateLimited STORAGE_KEY_LAST_INGESTED_BLOCK_NUMBER chain
               = (chain, None)) by reflexivity.
  assert (H3 : Some 1980
               = (if 2000 - match obj_get STORAGE_KEY_LAST_INGESTED_BLOCK_NUMBER
                                    (storage st) with
                            | Some n => n
                            | None => 2000
                            end >? 1000
                  then Some (2000 - 1000) else blockNumberToIngestFrom st))
    by (vm_compute; reflexivity).
  assert (H4 : provider_getLogs rateLimited contractAddress (Some 1980) 2000 chain
               = (chain, inl e)) by reflexivity.
  split; [exact H1|]. split; [exact H2|]. split; [exact H3|]. split; [exact H4|].
  exact (@X15_log_fetch_failure_leaves_checkpoint Chain rateLimited contractAddress
           (Some instructions) st chain chain chain 2000 (Some 1980) e H1 H2 H3 H4).
Defined.

(** The checkpoint is at 100 and the head at 2000. *)
Lemma X16_lagging_cycle_warns_and_clamps_witness :
  let st := start chain None (Some 100) in
  let st' := fst (cycle st) in
  provider_getBlockNumber collaborators (world st) = (chain, inr 2000)
  /\ storage_get_rejects collaborators STORAGE_KEY_LAST_INGESTED_BLOCK_NUMBER chain
     = (chain, None)
  /\ obj_get STORAGE_KEY_LAST_INGESTED_BLOCK_NUMBER (storage st) = Some 100
  /\ 2000 - 100 > 1000
  /\ runEveryMinute collaborators contractAddress (Some instructions) st = (st', inr tt)
  /\ blockNumberToIngestFrom st' = Some (2000 - 1000)
  /\ exists d,
       trace st' = trace st ++ Warn 100 2000
                               :: GetLogs contractAddress (Some (2000 - 1000)) 2000 :: d
       /\ warnings d = []
       /\ windows d = []
       /\ warnings (Warn 100 2000
                      :: GetLogs contractAddress (Some (2000 - 1000)) 2000 :: d)
          = [(100, 2000)].
Proof.
  intros st st'.
  assert (H1 : provider_getBlockNumber collaborators (world st) = (chain, inr 2000))
    by reflexivity.
  assert (H0 : storage_get_rejects collaborators STORAGE_KEY_LAST_INGESTED_BLOCK_NUMBER
                 chain = (chain, None)) by reflexivity.
  assert (H2 : obj_get STORAGE_KEY_LAST_INGESTED_BLOCK_NUMBER (storage st) = Some 100)
    by reflexivity.
  assert (H3 : 2000 - 100 > 1000) by lia.
  assert (H4 : runEveryMinute collaborators contractAddress (Some instructions) st
               = (st', inr tt)) by (vm_compute; reflexivity).
  split; [exact H1|]. split; [exact H0|]. split; [exact H2|]. split; [exact H3|].
  split; [exact H4|].
  exact (@X16_lagging_cycle_warns_and_clamps Chain collaborators contractAddress
           (Some instructions) st st' chain chain 2000 100 (inr tt) H1 H0 H2 H3 H4).
Defined.

(** A first run: nothing is stored. *)
Lemma X17_cycle_in_step_does_not_clamp_witness :
  let st := start chain None None in
  let st' := fst (cycle st) in
  provider_getBlockNumber collaborators (world st) = (chain, inr 2000)
  /\ storage_get_rejects collaborators STORAGE_KEY_LAST_INGESTED_BLOCK_NUMBER chain
     = (chain, None)
  /\ (obj_get STORAGE_KEY_LAST_INGESTED_BLOCK_NUMBER (storage st) = None
      \/ exists last,
           obj_get STORAGE_KEY_LAST_INGESTED_BLOCK_NUMBER (storage st) = Some last
           /\ 2000 - last <= 1000)
  /\ runEveryMinute collaborators contractAddress (Some instructions) st = (st', inr tt)
  /\ blockNumberToIngestFrom st' = blockNumberToIngestFrom st
  /\ exists d,
       trace st' = trace st ++ GetLogs contractAddress (blockNumberToIngestFrom st) 2000 :: d
       /\ warnings d = []
       /\ windows d = []
       /\ warnings (GetLogs contractAddress (blockNumberToIngestFrom st) 2000 :: d) = [].
Proof.
  intros st st'.
  assert (H1 : provider_getBlockNumber collaborators (world st) = (chain, inr 2000))
    by reflexivity.
  assert (H0 : storage_get_rejects collaborators STORAGE_KEY_LAST_INGESTED_BLOCK_NUMBER
                 chain = (chain, None)) by reflexivity.
  assert (H2 : obj_get STORAGE_KEY_LAST_INGESTED_BLOCK_NUMBER (storage st) = None
               \/ exists last,
                    obj_get STORAGE_KEY_LAST_INGESTED_BLOCK_NUMBER (storage st) = Some last
                    /\ 2000 - last <= 1000) by (left; reflexivity).
  assert (H3 : runEveryMinute collaborators contractAddress (Some instructions) st
               = (st', inr tt)) by (vm_compute; reflexivity).
  split; [exact H1|]. split; [exact H0|]. split; [exact H2|]. split; [exact H3|].
  exact (@X17_cycle_in_step_does_not_clamp Chain collaborators contractAddress
           (Some instructions) st st' chain chain 2000 (inr tt) H1 H0 H2 H3).
Defined.

(** On [flakyChain] the cycle throws at the second log. *)
Lemma X18_checkpoint_only_on_completion_witness :
  let st := start flakyChain (Some 1980) (Some 1980) in
  let st' := fst (runEveryMinute collaborators contractAddress (Some instructions) st) in
  let e := ExternalError "missing response" in
  runEveryMinute collaborators contractAddress (Some instructions) st = (st', inl e)
  /\ storage st' = storage st
  /\ checkpointWrites (trace st') = checkpointWrites (trace st).
Proof.
  intros st st' e.
  assert (H : runEveryMinute collaborators contractAddress (Some instructions) st
              = (st', inl e)) by (vm_compute; reflexivity).
  split; [exact H|].
  exact (proj2 (@X18_checkpoint_only_on_completion Chain collaborators contractAddress
                  (Some instructions) st st' (inl e) H) e eq_refl).
Defined.

(** On [inheritedChain] the second log is of the event [toString] with an
    argument [caller]: reading that argument's instruction throws, the log
    gives no record, and the sink is called for the two transfers. *)
Lemma X19_sink_called_in_log_order_witness :
  let st := start inheritedChain (Some 1980) (Some 1980) in
  let st1 := fst (fetchLogs collaborators contractAddress st) in
  let st' := fst (cycle st) in
  fetchLogs collaborators contractAddress st = (st1, inr (2000, [log1; log7; log4]))
  /\ runEveryMinute collaborators contractAddress (Some instructions) st = (st', inr tt)
  /\ exists d,
       trace st' = trace st ++ d
       /\ map fst (captures d) =
            flat_map (fun log =>
                        match recordOf collaborators (Some instructions) 0 log with
                        | inr (event, _) => [event]
                        | inl _ => []
                        end) [log1; log7; log4].
Proof.
  intros st st1 st'.
  assert (H1 : fetchLogs collaborators contractAddress st
               = (st1, inr (2000, [log1; log7; log4])))
    by (vm_compute; reflexivity).
  assert (H2 : runEveryMinute collaborators contractAddress (Some instructions) st
               = (st', inr tt)) by (vm_compute; reflexivity).
  split; [exact H1|]. split; [exact H2|].
  exact (@X19_sink_called_in_log_order Chain collaborators contractAddress
           (Some instructions) st st1 st' 2000 [log1; log7; log4] H1 H2).
Defined.

(** The event [toString(uint256 caller)] under a table that does not name
    it: [toString] is found in the table all the same, as a property it
    inherits, and reading [caller] of it throws.  Nothing goes to the sink
    for the log and the error goes to the console. *)
Example inherited_event_name_throws :
  let st' := fst (cycle (start inheritedChain (Some 1980) (Some 1980))) in
  recordOf collaborators (Some instructions) 1700000065 log7 = inl strictModeError
  /\ map fst (captures (trace st')) = ["Transfer"; "Transfer"]
  /\ loggedErrors (trace st') = [strictModeError].
Proof.
  repeat split; vm_compute; reflexivity.
Qed.


(** A cycle at head 1500 with the checkpoint at 900, on a store that rejects
    the write; then a cycle at head 2000, which still finds 900 and lags by
    1100 blocks. *)
Lemma X21_next_cycle_lags_against_stored_checkpoint_witness :
  let st := start earlyChain (Some 1400) (Some 900) in
  let st1 := fst (fetchLogs readOnlyStore contractAddress st) in
  let rejected := Some (ExternalError "storage is read-only") in
  fetchLogs readOnlyStore contractAddress st = (st1, inr (1500, []))
  /\ processLogs readOnlyStore (Some instructions) [] [] st1 = (st1, inr [])
  /\ storage_set_rejects readOnlyStore STORAGE_KEY_LAST_INGESTED_BLOCK_NUMBER 1500
       (world st1) = (earlyChain, rejected)
  /\ provider_getBlockNumber readOnlyStore chain = (chain, inr 2000)
  /\ storage_get_rejects readOnlyStore STORAGE_KEY_LAST_INGESTED_BLOCK_NUMBER chain
     = (chain, None)
  /\ exists st' d,
       runEveryMinute readOnlyStore contractAddress (Some instructions) st = (st', inr tt)
       /\ obj_get STORAGE_KEY_LAST_INGESTED_BLOCK_NUMBER (storage st') = Some 900
       /\ trace (fst (fetchLogs readOnlyStore contractAddress (setWorld chain st')))
          = trace st' ++ d
       /\ windows d = [(Some 1000, 2000)]
       /\ warnings d = [(900, 2000)].
Proof.
  intros st st1 rejected.
  assert (H1 : fetchLogs readOnlyStore contractAddress st = (st1, inr (1500, [])))
    by (vm_compute; reflexivity).
  assert (H2 : processLogs readOnlyStore (Some instructions) [] [] st1 = (st1, inr []))
    by reflexivity.
  assert (H3 : storage_set_rejects readOnlyStore STORAGE_KEY_LAST_INGESTED_BLOCK_NUMBER
                 1500 (world st1) = (earlyChain, rejected)) by (vm_compute; reflexivity).
  assert (H4 : provider_getBlockNumber readOnlyStore chain = (chain, inr 2000))
    by reflexivity.
  assert (H5 : storage_get_rejects readOnlyStore STORAGE_KEY_LAST_INGESTED_BLOCK_NUMBER
                 chain = (chain, None)) by reflexivity.
  split; [exact H1|]. split; [exact H2|]. split; [exact H3|]. split; [exact H4|].
  split; [exact H5|].
  destruct (@X21_next_cycle_lags_against_stored_checkpoint Chain readOnlyStore
              contractAddress (Some instructions) st st1 st1 1500 2000 [] []
              earlyChain rejected chain chain chain H1 H2 H3 H4 H5)
    as (st' & d & Hrun & Hheld & Htrace & Hnext).
  exists st', d.
  assert (Hst : obj_get STORAGE_KEY_LAST_INGESTED_BLOCK_NUMBER (storage st') = Some 900)
    by exact Hheld.
  assert (Hfrom : blockNumberToIngestFrom st' = Some 1400).
  { assert (E : st' = fst (runEveryMinute readOnlyStore contractAddress
                              (Some instructions) st)) by (rewrite Hrun; reflexivity).
    rewrite E. vm_compute. reflexivity. }
  split; [exact Hrun|]. split; [exact Hst|]. split; [exact Htrace|].
  cbv zeta in Hnext. rewrite Hst, Hfrom in Hnext. exact Hnext.
Defined.

(** An empty window on a store that takes the write. *)
Lemma X23_empty_window_only_moves_checkpoint_witness :
  let st := start earlyChain (Some 1400) (Some 1400) in
  let st1 := fst (fetchLogs collaborators contractAddress st) in
  fetchLogs collaborators contractAddress st = (st1, inr (1500, []))
  /\ storage_set_rejects collaborators STORAGE_KEY_LAST_INGESTED_BLOCK_NUMBER 1500
       (world st1) = (earlyChain, None)
  /\ exists st',
       runEveryMinute collaborators contractAddress (Some instructions) st = (st', inr tt)
       /\ trace st' = trace st1 ++ [StorageSet STORAGE_KEY_LAST_INGESTED_BLOCK_NUMBER 1500]
       /\ captures (trace st') = captures (trace st)
       /\ loggedErrors (trace st') = loggedErrors (trace st)
       /\ (forall h, fetches h (trace st') = fetches h (trace st))
       /\ storage st'
          = obj_set STORAGE_KEY_LAST_INGESTED_BLOCK_NUMBER 1500 (storage st).
Proof.
  intros st st1.
  assert (H : fetchLogs collaborators contractAddress st = (st1, inr (1500, [])))
    by (vm_compute; reflexivity).
  assert (H' : storage_set_rejects collaborators STORAGE_KEY_LAST_INGESTED_BLOCK_NUMBER
                 1500 (world st1) = (earlyChain, None)) by (vm_compute; reflexivity).
  split; [exact H|]. split; [exact H'|].
  exact (@X23_empty_window_only_moves_checkpoint Chain collaborators contractAddress
           (Some instructions) st st1 1500 earlyChain None H H').
Defined.

(** The store is down when the checkpoint is read. *)
Lemma X25_checkpoint_read_failure_aborts_cycle_witness :
  let st := start chain (Some 1980) (Some 1980) in
  let e := ExternalError "storage is down" in
  provider_getBlockNumber storeDown (world st) = (chain, inr 2000)
  /\ storage_get_rejects storeDown STORAGE_KEY_LAST_INGESTED_BLOCK_NUMBER chain
     = (chain, Some e)
  /\ runEveryMinute storeDown contractAddress (Some instructions) st
     = (setWorld chain st, inl e).
Proof.
  intros st e.
  assert (H1 : provider_getBlockNumber storeDown (world st) = (chain, inr 2000))
    by reflexivity.
  assert (H2 : storage_get_rejects storeDown STORAGE_KEY_LAST_INGESTED_BLOCK_NUMBER chain
               = (chain, Some e)) by reflexivity.
  split; [exact H1|]. split; [exact H2|].
  exact (@X25_checkpoint_read_failure_aborts_cycle Chain storeDown contractAddress
           (Some instructions) st chain chain 2000 e H1 H2).
Defined.
